(** * GraphSAGE recommender on NodeFlows: edge batches, encoder, decoder

    A shallow embedding of the notebook
    [3_recommender_system/Recommendation-nodeflow.ipynb]:
    the [EdgeSampler] batch iterator, the [GraphSageEncoder] with its
    [UserEmbedding], [MovieEmbedding] and [GraphSageNodeUpdate] blocks, and
    the [DotDecoder].  Tensors are lists, float32 scalars are idealised as
    real numbers, and the numpy random state is an explicit value that is
    threaded through the constructors that draw from it. *)

From Stdlib Require Import List Arith PeanoNat Lia Bool Permutation.
From Stdlib Require Import Reals Lra.
Import ListNotations.

Set Implicit Arguments.

(** ** Python building blocks: [range], slices, fancy indexing *)

Module Py.

(** [range(start, stop, step)] for a positive step; the recursion is cut by
    [fuel], and [stop - start] steps are always enough. *)
Fixpoint range_aux (fuel i stop step : nat) : list nat :=
  match fuel with
  | 0 => []
  | S f => if i <? stop then i :: range_aux f (i + step) stop step else []
  end.

(** [range] raises [ValueError] when the step is zero: [None]. *)
Definition range (start stop step : nat) : option (list nat) :=
  if step =? 0 then None
  else Some (range_aux (stop - start) start stop step).

(** [l[i:j]]: never raises, clips at the end of the list. *)
Definition slice {A : Type} (i j : nat) (l : list A) : list A :=
  firstn (j - i) (skipn i l).

(** [xs[idx]] for an index array [idx] (a gather).  An index outside the
    array raises: [None]. *)
Fixpoint gather {A : Type} (xs : list A) (idx : list nat) : option (list A) :=
  match idx with
  | [] => Some []
  | i :: rest =>
      match nth_error xs i, gather xs rest with
      | Some x, Some l => Some (x :: l)
      | _, _ => None
      end
  end.

(** The contiguous chunk [l[i : min(i + B, E)]]. *)
Definition chunk {A : Type} (B E : nat) (l : list A) (i : nat) : list A :=
  slice i (Nat.min (i + B) E) l.

(** [(n + b - 1) // b], the number of chunks of size [b] that cover [n]. *)
Definition ceil_div (n b : nat) : nat := (n + b - 1) / b.

End Py.

(** ** The numpy random state *)

Module NumpyRandom.

(** The global random state, as the stream of raw draws it will deliver;
    an exhausted stream keeps delivering 0. *)
Definition RandomState := list nat.

Definition draw (rs : RandomState) : nat * RandomState :=
  match rs with
  | [] => (0, [])
  | r :: rs' => (r, rs')
  end.

Fixpoint remove_nth {A : Type} (k : nat) (l : list A) : list A :=
  match l, k with
  | [], _ => []
  | _ :: t, 0 => t
  | x :: t, S k' => x :: remove_nth k' t
  end.

(** Draw-and-remove shuffle of [l]; [fuel] bounds the number of picks. *)
Fixpoint shuffle_aux {A : Type} (fuel : nat) (l : list A) (rs : RandomState)
  : list A * RandomState :=
  match fuel with
  | 0 => ([], rs)
  | S f =>
      match l with
      | [] => ([], rs)
      | x :: _ =>
          let (r, rs1) := draw rs in
          let k := r mod length l in
          let (out, rs2) := shuffle_aux f (remove_nth k l) rs1 in
          (nth k l x :: out, rs2)
      end
  end.

Definition shuffle {A : Type} (l : list A) (rs : RandomState)
  : list A * RandomState :=
  shuffle_aux (length l) l rs.

(** [np.random.permutation(n)]: a permutation of [0 .. n-1], and the state
    left behind. *)
Definition permutation (n : nat) (rs : RandomState) : list nat * RandomState :=
  shuffle (seq 0 n) rs.

End NumpyRandom.

(** ** Edge sampling for rating prediction: [EdgeSampler] *)

Module EdgeSampling.
Import Py.

Section EdgeSampler.

(** Ratings and NodeFlows are opaque to the iterator. *)
Variable Rating : Type.
Variable NodeFlowT : Type.

(** The NodeFlow DGL's [NeighborSampler] builds for the [k]-th group of
    seed nodes (its own randomness is folded into the function). *)
Variable sample_nodeflow : nat -> list nat -> NodeFlowT.

(** The global [batch_size]. *)
Variable batch_size : nat.

(** [NeighborSampler(g, bs, ..., seed_nodes=seeds, shuffle=False)] as the
    sequence it iterates over: one NodeFlow per run of [bs] consecutive
    seeds. *)
Definition seed_groups (bs : nat) (seeds : list nat) : list (list nat) :=
  match range 0 (length seeds) bs with
  | None => []
  | Some starts =>
      map (fun i => slice i (Nat.min (i + bs) (length seeds)) seeds) starts
  end.

Fixpoint sample_groups (k : nat) (groups : list (list nat)) : list NodeFlowT :=
  match groups with
  | [] => []
  | g :: rest => sample_nodeflow k g :: sample_groups (S k) rest
  end.

Definition NeighborSampler (bs : nat) (seeds : list nat) : list NodeFlowT :=
  sample_groups 0 (seed_groups bs seeds).

(** The iterator object: the three batch lists, the NodeFlow iterator
    (what is left of it) and the cursor [i]. *)
Record EdgeSampler : Type := mkEdgeSampler {
  src_batches : list (list nat);
  dst_batches : list (list nat);
  rating_batches : list (list Rating);
  sampler : list NodeFlowT;
  i : nat
}.

(** The body of the [for i in range(0, E, batch_size)] loop, one list at a
    time: [xs_shuffled[shuffle_idx[i:j]]] with [j = min(i + batch_size, E)]. *)
Fixpoint make_batches {A : Type} (E : nat) (shuffle_idx : list nat)
    (xs_shuffled : list A) (starts : list nat) : option (list (list A)) :=
  match starts with
  | [] => Some []
  | i :: rest =>
      let j := Nat.min (i + batch_size) E in
      match gather xs_shuffled (slice i j shuffle_idx),
            make_batches E shuffle_idx xs_shuffled rest with
      | Some b, Some bs => Some (b :: bs)
      | _, _ => None
      end
  end.

(** [sum([[s, d] for s, d in zip(src_batches, dst_batches)], [])] followed
    by [nd.concat(..., dim=0)]. *)
Fixpoint interleave_concat (ss ds : list (list nat)) : list nat :=
  match ss, ds with
  | s :: ss', d :: ds' => s ++ d ++ interleave_concat ss' ds'
  | _, _ => []
  end.

(** [EdgeSampler.__init__] once [shuffle_idx] has been drawn.  [E] is
    [g.number_of_edges()].  [None] stands for an exception: an index out
    of range, a zero step for [range], or [nd.concat] of no arrays. *)
Definition init_with (shuffle_idx : list nat) (E : nat)
    (src dst : list nat) (rating : list Rating) : option EdgeSampler :=
  match gather src shuffle_idx, gather dst shuffle_idx,
        gather rating shuffle_idx, range 0 E batch_size with
  | Some src_shuffled, Some dst_shuffled, Some rating_shuffled, Some starts =>
      match make_batches E shuffle_idx src_shuffled starts,
            make_batches E shuffle_idx dst_shuffled starts,
            make_batches E shuffle_idx rating_shuffled starts with
      | Some sb, Some db, Some rb =>
          match sb with
          | [] => None
          | _ :: _ =>
              let seed_nodes := interleave_concat sb db in
              Some {| src_batches := sb;
                      dst_batches := db;
                      rating_batches := rb;
                      sampler := NeighborSampler (batch_size * 2) seed_nodes;
                      i := 0 |}
          end
      | _, _, _ => None
      end
  | _, _, _, _ => None
  end.

(** [EdgeSampler.__init__]: the permutation comes from the numpy random
    state, which is left advanced. *)
Definition init (rs : NumpyRandom.RandomState) (E : nat)
    (src dst : list nat) (rating : list Rating)
  : option EdgeSampler * NumpyRandom.RandomState :=
  let (shuffle_idx, rs') := NumpyRandom.permutation E rs in
  (init_with shuffle_idx E src dst rating, rs').

(** What one call of [__next__] produces. *)
Definition Batch : Type := (list nat * list nat * list Rating * NodeFlowT)%type.

Inductive Outcome : Type :=
| Yield (b : Batch)
| StopIteration
| IndexError.

(** [EdgeSampler.__next__].  The cursor is advanced before the tuple is
    built, so it stays advanced when building the tuple raises. *)
Definition next (self : EdgeSampler) : Outcome * EdgeSampler :=
  if i self =? length (src_batches self) then (StopIteration, self)
  else
    let idx := i self in
    let self1 := {| src_batches := src_batches self;
                    dst_batches := dst_batches self;
                    rating_batches := rating_batches self;
                    sampler := sampler self;
                    i := i self + 1 |} in
    match nth_error (src_batches self) idx,
          nth_error (dst_batches self) idx,
          nth_error (rating_batches self) idx with
    | Some s, Some d, Some r =>
        match sampler self with
        | nf :: rest =>
            (Yield (s, d, r, nf),
             {| src_batches := src_batches self;
                dst_batches := dst_batches self;
                rating_batches := rating_batches self;
                sampler := rest;
                i := i self + 1 |})
        | [] => (StopIteration, self1)
        end
    | _, _, _ => (IndexError, self1)
    end.

(** A [for ... in self] loop that runs to the end: the batches it gets,
    whether it ended normally ([true]) or by an exception that is not
    [StopIteration], and the iterator afterwards.  [fuel] bounds the
    number of [__next__] calls. *)
Fixpoint for_loop (fuel : nat) (self : EdgeSampler)
  : option (list Batch * bool * EdgeSampler) :=
  match fuel with
  | 0 => None
  | S f =>
      match next self with
      | (StopIteration, self') => Some ([], true, self')
      | (IndexError, self') => Some ([], false, self')
      | (Yield b, self') =>
          match for_loop f self' with
          | Some (bs, ok, self'') => Some (b :: bs, ok, self'')
          | None => None
          end
      end
  end.

(** The edges as [(src, (dst, rating))] triples, position by position. *)
Definition triples (s d : list nat) (r : list Rating)
  : list (nat * (nat * Rating)) :=
  combine s (combine d r).

(** The triples of every batch of the iterator. *)
Fixpoint zip_batches (sb db : list (list nat)) (rb : list (list Rating))
  : list (list (nat * (nat * Rating))) :=
  match sb, db, rb with
  | s :: sb', d :: db', r :: rb' => triples s d r :: zip_batches sb' db' rb'
  | _, _, _ => []
  end.

Definition batch_triples (self : EdgeSampler)
  : list (list (nat * (nat * Rating))) :=
  zip_batches (src_batches self) (dst_batches self) (rating_batches self).

(** The batches the loop of [train] runs its body on: a new [EdgeSampler]
    is built from the current random state and consumed once.  The body
    (forward pass, loss, optimiser step) does not touch the iterator. *)
Definition train (rs : NumpyRandom.RandomState) (E : nat)
    (src dst : list nat) (rating : list Rating)
  : option (list Batch) * NumpyRandom.RandomState :=
  match init rs E src dst rating with
  | (None, rs') => (None, rs')
  | (Some es, rs') =>
      match for_loop (S (length (src_batches es))) es with
      | Some (bs, true, _) => (Some bs, rs')
      | _ => (None, rs')
      end
  end.

(** [for epoch in range(n): train(...)]: the batches of every epoch. *)
Fixpoint epochs (n : nat) (rs : NumpyRandom.RandomState) (E : nat)
    (src dst : list nat) (rating : list Rating)
  : option (list (list Batch)) * NumpyRandom.RandomState :=
  match n with
  | 0 => (Some [], rs)
  | S n' =>
      match train rs E src dst rating with
      | (None, rs') => (None, rs')
      | (Some bs, rs') =>
          match epochs n' rs' E src dst rating with
          | (Some rest, rs'') => (Some (bs :: rest), rs'')
          | (None, rs'') => (None, rs'')
          end
      end
  end.

End EdgeSampler.

End EdgeSampling.

(** ** Tensors: rows of real numbers *)

Module Tensor.

Definition vec : Type := list R.

Definition vzero (n : nat) : vec := repeat 0%R n.

(** Elementwise [a + b] and [a * b] on rows of the same length. *)
Fixpoint vadd (a b : vec) : vec :=
  match a, b with
  | x :: a', y :: b' => (x + y)%R :: vadd a' b'
  | _, _ => []
  end.

Fixpoint vmul (a b : vec) : vec :=
  match a, b with
  | x :: a', y :: b' => (x * y)%R :: vmul a' b'
  | _, _ => []
  end.

(** [a.sum()] of one row. *)
Definition sum_entries (a : vec) : R := fold_right Rplus 0%R a.

(** [(a * b).sum()]. *)
Definition dot (a b : vec) : R := sum_entries (vmul a b).

(** [a.norm()], the Euclidean norm of one row. *)
Definition norm (a : vec) : R := sqrt (dot a a).

(** [a / c] with the scalar [c] broadcast over the row. *)
Definition vdiv (a : vec) (c : R) : vec := map (fun x => (x / c)%R) a.

(** [nd.stack] of the rows along axis 0, then [.sum(axis=0)]. *)
Definition stack_sum (rows : list vec) : vec :=
  match rows with
  | [] => []
  | r :: rest => fold_left vadd rest r
  end.

(** [nn.LeakyReLU(slope)] on one entry and on a row. *)
Definition leaky (slope x : R) : R :=
  if Rlt_dec 0 x then x else (slope * x)%R.

Definition LeakyReLU (slope : R) (a : vec) : vec := map (leaky slope) a.

(** [nn.Embedding]: the weight matrix, one row per index.  An index past
    the table does not raise: mxnet replaces it by the index of the last
    row. *)
Definition Embedding : Type := list vec.

Definition embed (table : Embedding) (idx : nat) : vec :=
  nth (Nat.min idx (length table - 1)) table [].

(** [nn.Dense(units)]: weight matrix (one row per output unit) and bias. *)
Record Dense : Type := mkDense {
  weight : list vec;
  bias : vec
}.

Fixpoint dense_rows (ws : list vec) (bs : vec) (x : vec) : vec :=
  match ws, bs with
  | w :: ws', b :: bs' => (dot w x + b)%R :: dense_rows ws' bs' x
  | _, _ => []
  end.

Definition dense (d : Dense) (x : vec) : vec := dense_rows (weight d) (bias d) x.

End Tensor.

(** ** Node features and NodeFlows *)

Module Graph.
Import Tensor.

(** [g.ndata['type']]: 1 for user nodes, 0 for movie nodes. *)
Inductive NodeType : Type := MOVIE | USER.

Definition type_eqb (a b : NodeType) : bool :=
  match a, b with
  | MOVIE, MOVIE | USER, USER => true
  | _, _ => false
  end.

(** One row of [g.ndata]. *)
Record NData : Type := mkNData {
  type : NodeType;
  age : nat;
  gender : nat;
  occupation : nat;
  zip : nat;
  year : nat;
  genre : vec
}.

(** One row of the node frame of a NodeFlow layer: the features copied from
    the parent graph and the columns the encoder writes.  A column that has
    not been written yet is [None]. *)
Record Row : Type := mkRow {
  data : NData;
  h : option vec;
  h_agg : option vec;
  deg : option R
}.

Definition set_h (r : Row) (x : vec) : Row :=
  {| data := data r; h := Some x; h_agg := h_agg r; deg := deg r |}.

Definition set_h_agg (r : Row) (x : vec) : Row :=
  {| data := data r; h := h r; h_agg := Some x; deg := deg r |}.

Definition set_deg (r : Row) (x : R) : Row :=
  {| data := data r; h := h r; h_agg := h_agg r; deg := Some x |}.

(** The structure of a DGL NodeFlow.  Layer 0 is the input layer (the
    sampled nodes farthest from the seeds), the last layer holds the seed
    nodes.  Block [i] connects layer [i] to layer [i+1]; an edge [(u, v)]
    goes from row [u] of layer [i] to row [v] of layer [i+1]. *)
Record NodeFlow : Type := mkNodeFlow {
  layer_parent_nids : list (list nat);
  block_edges : list (list (nat * nat))
}.

Definition num_layers (nf : NodeFlow) : nat := length (layer_parent_nids nf).
Definition num_blocks (nf : NodeFlow) : nat := num_layers nf - 1.

Definition layer_parent_nid (nf : NodeFlow) (i : nat) : list nat :=
  nth i (layer_parent_nids nf) [].

Definition layer_size (nf : NodeFlow) (i : nat) : nat :=
  length (layer_parent_nid nf i).

(** First NodeFlow node id of layer [i]. *)
Definition layer_offset (nf : NodeFlow) (i : nat) : nat :=
  fold_right Nat.add 0 (map (@length nat) (firstn i (layer_parent_nids nf))).

(** [nf.layer_nid(i)]: the ids of the layer's nodes inside the NodeFlow. *)
Definition layer_nid (nf : NodeFlow) (i : nat) : list nat :=
  seq (layer_offset nf i) (layer_size nf i).

Definition block (nf : NodeFlow) (i : nat) : list (nat * nat) :=
  nth i (block_edges nf) [].

(** Rows of layer [i] that send to row [v] of layer [i+1] through block [i]. *)
Definition in_neighbors (nf : NodeFlow) (i v : nat) : list nat :=
  map fst (filter (fun e => snd e =? v) (block nf i)).

(** One entry of [nf.layer_in_degree(i+1)]. *)
Definition in_degree (nf : NodeFlow) (i v : nat) : nat :=
  length (in_neighbors nf i v).

(** Every block edge joins existing rows, and there is one block between
    each pair of consecutive layers: what DGL guarantees of a NodeFlow. *)
Definition block_ok (nf : NodeFlow) (i : nat) : bool :=
  forallb (fun e => (fst e <? layer_size nf i) && (snd e <? layer_size nf (S i)))
          (block nf i).

Definition well_formed (nf : NodeFlow) : bool :=
  (length (block_edges nf) =? num_blocks nf)
  && forallb (block_ok nf) (seq 0 (num_blocks nf)).

(** The node frames of all layers, the mutable part of a NodeFlow. *)
Definition Frames : Type := list (list Row).

(** [nf.copy_from_parent()]: every row gets the features of its parent
    node; no other column exists yet. *)
Definition copy_from_parent (ndata : nat -> NData) (nf : NodeFlow) : Frames :=
  map (map (fun p => {| data := ndata p; h := None; h_agg := None; deg := None |}))
      (layer_parent_nids nf).

(** Replace the frame of layer [i]. *)
Fixpoint set_layer (i : nat) (rows : list Row) (fr : Frames) : Frames :=
  match fr, i with
  | [], _ => []
  | _ :: rest, 0 => rows :: rest
  | l :: rest, S i' => l :: set_layer i' rows rest
  end.

(** A node function run on the rows whose NodeFlow id is listed in [v];
    [id] is the NodeFlow id of the first row of [rows]. *)
Fixpoint apply_rows (func : nat -> Row -> option Row) (v : list nat)
    (id : nat) (rows : list Row) : option (list Row) :=
  match rows with
  | [] => Some []
  | r :: rest =>
      match (if existsb (Nat.eqb id) v then func id r else Some r),
            apply_rows func v (S id) rest with
      | Some r', Some rest' => Some (r' :: rest')
      | _, _ => None
      end
  end.

(** [nf.apply_layer(i, func, v=v)].  The node functions of this program act
    row by row, so [func] is given for one row, together with the row's
    NodeFlow id. *)
Definition apply_layer (nf : NodeFlow) (i : nat)
    (func : nat -> Row -> option Row) (v : list nat) (fr : Frames)
  : option Frames :=
  match nth_error fr i with
  | None => None
  | Some rows =>
      match apply_rows func v (layer_offset nf i) rows with
      | Some rows' => Some (set_layer i rows' fr)
      | None => None
      end
  end.

(** The message sum of [FN.sum]: the sum of the messages, zeros when there
    is none. *)
Definition sum_messages (d : nat) (msgs : list vec) : vec :=
  match msgs with
  | [] => vzero d
  | m :: rest => fold_left vadd rest m
  end.

(** [h] of the listed rows; [None] when a row or its [h] is missing. *)
Fixpoint read_h (rows : list Row) (us : list nat) : option (list vec) :=
  match us with
  | [] => Some []
  | u :: rest =>
      match nth_error rows u, read_h rows rest with
      | Some r, Some l =>
          match h r with
          | Some x => Some (x :: l)
          | None => None
          end
      | _, _ => None
      end
  end.

Fixpoint aggregate_rows (nf : NodeFlow) (d i : nat) (src_rows : list Row)
    (v : nat) (rows : list Row) : option (list Row) :=
  match rows with
  | [] => Some []
  | r :: rest =>
      match read_h src_rows (in_neighbors nf i v),
            aggregate_rows nf d i src_rows (S v) rest with
      | Some msgs, Some rest' => Some (set_h_agg r (sum_messages d msgs) :: rest')
      | _, _ => None
      end
  end.

(** [nf.block_compute(i, FN.copy_src('h', 'h'), FN.sum('h', 'h_agg'))]:
    every row of layer [i+1] receives, as [h_agg], the sum of the [h] of its
    in-neighbours in layer [i]. *)
Definition block_compute (nf : NodeFlow) (d i : nat) (fr : Frames) : option Frames :=
  match nth_error fr i, nth_error fr (S i) with
  | Some src_rows, Some dst_rows =>
      match aggregate_rows nf d i src_rows 0 dst_rows with
      | Some rows' => Some (set_layer (S i) rows' fr)
      | None => None
      end
  | _, _ => None
  end.

Fixpoint assign_deg (nf : NodeFlow) (i v : nat) (rows : list Row) : list Row :=
  match rows with
  | [] => []
  | r :: rest => set_deg r (INR (in_degree nf i v)) :: assign_deg nf i (S v) rest
  end.

(** [nf.layers[i+1].data['deg'] = nf.layer_in_degree(i+1).astype(float32)]. *)
Definition set_layer_deg (nf : NodeFlow) (i : nat) (fr : Frames) : option Frames :=
  match nth_error fr (S i) with
  | Some rows => Some (set_layer (S i) (assign_deg nf i 0 rows) fr)
  | None => None
  end.

(** [layer_nodes[node_type == t]]: the NodeFlow ids of the rows of type [t]. *)
Definition nodes_of_type (t : NodeType) (layer_nodes : list nat) (rows : list Row)
  : list nat :=
  map fst (filter (fun p => type_eqb (type (data (snd p))) t)
                  (combine layer_nodes rows)).

(** *** Notions used to state the properties *)

(** A row-wise map that also sees the NodeFlow id of each row. *)
Fixpoint imap_from {A B : Type} (f : nat -> A -> B) (id : nat) (l : list A)
  : list B :=
  match l with
  | [] => []
  | x :: rest => f id x :: imap_from f (S id) rest
  end.

(** Row [k] of layer [i]. *)
Definition cell (fr : Frames) (i k : nat) : option Row :=
  match nth_error fr i with
  | Some rows => nth_error rows k
  | None => None
  end.

(** The frames have one row per node of the NodeFlow. *)
Definition same_shape (nf : NodeFlow) (fr : Frames) : Prop :=
  map (@length Row) fr = map (@length nat) (layer_parent_nids nf).

(** A column read with a default, for rows where it is known to exist. *)
Definition h_of (r : Row) : vec :=
  match h r with Some x => x | None => [] end.

Definition h_agg_of (r : Row) : vec :=
  match h_agg r with Some x => x | None => [] end.

Definition deg_of (r : Row) : R :=
  match deg r with Some x => x | None => 0%R end.

(** The messages row [v] of layer [i+1] receives: the [h] of its
    in-neighbours among [src_rows]. *)
Definition messages (nf : NodeFlow) (i : nat) (src_rows : list Row) (v : nat)
  : list vec :=
  map (fun u => match nth_error src_rows u with
                | Some r => h_of r
                | None => []
                end)
      (in_neighbors nf i v).

(** The seed nodes of a NodeFlow, [nf.layer_parent_nid(-1)]. *)
Definition seed_nodes (nf : NodeFlow) : list nat :=
  layer_parent_nid nf (num_layers nf - 1).

(** The rows of an encoder output, keyed by the seed node they belong to. *)
Definition embedding_mapping (nf : NodeFlow) (out : list vec) : list (nat * vec) :=
  combine (seed_nodes nf) out.

End Graph.

(** ** The model: embeddings, GraphSAGE layers, encoder, decoder *)

(** [1e-6], the floor of both divisions in the node update. *)
Definition eps : R := (/ 1000000)%R.

(** The slope [0.1] of every [nn.LeakyReLU] of the model. *)
Definition slope : R := (/ 10)%R.

Module UserEmbedding.
Import Tensor Graph.

Record t : Type := mk {
  emb_age : Embedding;
  emb_gender : Embedding;
  emb_occupation : Embedding;
  emb_zip : Embedding;
  node_emb : Embedding
}.

(** [UserEmbedding.forward(ndata, nid)], for one row. *)
Definition forward (self : t) (ndata : NData) (nid : nat) : vec :=
  let h := embed (node_emb self) (nid + 1) in
  let extra_repr :=
    [ embed (emb_age self) (age ndata);
      embed (emb_gender self) (gender ndata);
      embed (emb_occupation self) (occupation ndata);
      embed (emb_zip self) (zip ndata) ] in
  vadd h (stack_sum extra_repr).

End UserEmbedding.

Module MovieEmbedding.
Import Tensor Graph.

Record t : Type := mk {
  emb_year : Embedding;
  proj_genre_dense : Dense;
  node_emb : Embedding
}.

(** [self.proj_genre]: the [nn.Sequential] of [nn.Dense(feature_size)] and
    [nn.LeakyReLU(0.1)]. *)
Definition proj_genre (self : t) (x : vec) : vec :=
  LeakyReLU slope (dense (proj_genre_dense self) x).

(** [MovieEmbedding.forward(ndata, nid)], for one row. *)
Definition forward (self : t) (ndata : NData) (nid : nat) : vec :=
  let h := embed (node_emb self) (nid + 1) in
  let extra_repr :=
    [ embed (emb_year self) (year ndata);
      proj_genre self (genre ndata) ] in
  vadd h (stack_sum extra_repr).

End MovieEmbedding.

Module GraphSageNodeUpdate.
Import Tensor Graph.

Record t : Type := mk {
  feature_size : nat;
  W : Dense
}.

(** [h_concat] and [h_new] of [forward], from the three columns it reads. *)
Definition h_concat (h_prev h_agg : vec) (deg : R) : vec :=
  h_prev ++ vdiv h_agg (Rmax deg eps).

Definition h_new (self : t) (h_prev h_agg : vec) (deg : R) : vec :=
  LeakyReLU slope (dense (W self) (h_concat h_prev h_agg deg)).

(** The returned [h]: [h_new / nd.maximum(h_new.norm(...), 1e-6)]. *)
Definition normalized (x : vec) : vec := vdiv x (Rmax (norm x) eps).

(** [GraphSageNodeUpdate.forward(nodes)], for one row.  Reading a column
    that does not exist raises: [None]. *)
Definition forward (self : t) (r : Row) : option Row :=
  match h r, h_agg r, deg r with
  | Some h_prev, Some agg, Some d =>
      Some (set_h r (normalized (h_new self h_prev agg d)))
  | _, _, _ => None
  end.

End GraphSageNodeUpdate.

Module GraphSageEncoder.
Import Tensor Graph.

Record t : Type := mk {
  embedding_size : nat;
  user_layers : list GraphSageNodeUpdate.t;
  movie_layers : list GraphSageNodeUpdate.t;
  user_emb : UserEmbedding.t;
  movie_emb : MovieEmbedding.t
}.

(** One turn of the first loop of [forward]: the initial embedding of the
    user rows and of the movie rows of layer [i]. *)
Definition embed_layer (self : t) (nf : NodeFlow) (i : nat) (fr : Frames)
  : option Frames :=
  match nth_error fr i with
  | None => None
  | Some rows =>
      let layer_nodes := layer_nid nf i in
      let user_nodes := nodes_of_type USER layer_nodes rows in
      let movie_nodes := nodes_of_type MOVIE layer_nodes rows in
      match (if 0 <? length user_nodes
             then apply_layer nf i
                    (fun nid r =>
                       Some (set_h r (UserEmbedding.forward (user_emb self) (data r) nid)))
                    user_nodes fr
             else Some fr) with
      | None => None
      | Some fr1 =>
          if 0 <? length movie_nodes
          then apply_layer nf i
                 (fun nid r =>
                    Some (set_h r (MovieEmbedding.forward (movie_emb self) (data r) nid)))
                 movie_nodes fr1
          else Some fr1
      end
  end.

(** One turn of the second loop of [forward]: degrees, message sum and
    node update of layer [i+1] through block [i]. *)
Definition block_step (self : t) (nf : NodeFlow) (i : nat) (fr : Frames)
  : option Frames :=
  match set_layer_deg nf i fr with
  | None => None
  | Some fr1 =>
      match nth_error fr1 (S i) with
      | None => None
      | Some rows =>
          let layer_nodes := layer_nid nf (S i) in
          let user_nodes := nodes_of_type USER layer_nodes rows in
          let movie_nodes := nodes_of_type MOVIE layer_nodes rows in
          match block_compute nf (embedding_size self) i fr1 with
          | None => None
          | Some fr2 =>
              match (if 0 <? length user_nodes
                     then match nth_error (user_layers self) i with
                          | Some upd =>
                              apply_layer nf (S i)
                                (fun _ r => GraphSageNodeUpdate.forward upd r)
                                user_nodes fr2
                          | None => None
                          end
                     else Some fr2) with
              | None => None
              | Some fr3 =>
                  if 0 <? length movie_nodes
                  then match nth_error (movie_layers self) i with
                       | Some upd =>
                           apply_layer nf (S i)
                             (fun _ r => GraphSageNodeUpdate.forward upd r)
                             movie_nodes fr3
                       | None => None
                       end
                  else Some fr3
              end
          end
      end
  end.

(** The embedding the first loop computes for a row, by node type. *)
Definition initial_embedding (self : t) (nid : nat) (nd : NData) : vec :=
  match type nd with
  | USER => UserEmbedding.forward (user_emb self) nd nid
  | MOVIE => MovieEmbedding.forward (movie_emb self) nd nid
  end.

(** The update block the second loop uses at block [i] for a node type:
    [self.user_layers[i]] or [self.movie_layers[i]]. *)
Definition layer_update (self : t) (ty : NodeType) (i : nat)
  : option GraphSageNodeUpdate.t :=
  match ty with
  | USER => nth_error (user_layers self) i
  | MOVIE => nth_error (movie_layers self) i
  end.

(** The row of layer [i+1] at position [v] once block [i] has been
    processed with the update block [upd], [src_rows] being the frame of
    layer [i]: message sum, degree, and the normalised update of the
    row's previous [h]. *)
Definition updated_row (self : t) (upd : GraphSageNodeUpdate.t) (nf : NodeFlow)
    (i : nat) (src_rows : list Row) (v : nat) (r : Row) : Row :=
  let agg := sum_messages (embedding_size self) (messages nf i src_rows v) in
  let dg := INR (in_degree nf i v) in
  {| data := data r;
     h := Some (GraphSageNodeUpdate.normalized
                  (GraphSageNodeUpdate.h_new upd (h_of r) agg dg));
     h_agg := Some agg;
     deg := Some dg |}.

(** A [for i in ...] loop whose body may raise. *)
Fixpoint for_each (body : nat -> Frames -> option Frames) (idxs : list nat)
    (fr : Frames) : option Frames :=
  match idxs with
  | [] => Some fr
  | i :: rest =>
      match body i fr with
      | Some fr' => for_each body rest fr'
      | None => None
      end
  end.

(** The column [h] of a frame. *)
Fixpoint column_h (rows : list Row) : option (list vec) :=
  match rows with
  | [] => Some []
  | r :: rest =>
      match h r, column_h rest with
      | Some x, Some l => Some (x :: l)
      | _, _ => None
      end
  end.

(** The frames after the first loop, and after the first [n] turns of the
    second loop. *)
Definition embedded (self : t) (ndata : nat -> NData) (nf : NodeFlow)
  : option Frames :=
  for_each (embed_layer self nf) (seq 0 (num_layers nf)) (copy_from_parent ndata nf).

Definition after_blocks (self : t) (ndata : nat -> NData) (nf : NodeFlow) (n : nat)
  : option Frames :=
  match embedded self ndata nf with
  | Some fr => for_each (block_step self nf) (seq 0 n) fr
  | None => None
  end.

(** [GraphSageEncoder.forward(nf)]; [ndata] is the node data of the parent
    graph of [nf].  The result is [nf.layers[-1].data['h']]. *)
Definition forward (self : t) (ndata : nat -> NData) (nf : NodeFlow)
  : option (list vec) :=
  match after_blocks self ndata nf (num_blocks nf) with
  | None => None
  | Some fr =>
      match nth_error fr (num_layers nf - 1) with
      | Some rows => column_h rows
      | None => None
      end
  end.

End GraphSageEncoder.

Module DotDecoder.
Import Tensor Py.

(** The parameter [node_biases], of shape [(num_nodes + 1,)]. *)
Record t : Type := mk { biases : list R }.

Fixpoint scores (h_users h_items : list vec) (user_biases item_biases : list R)
  : list R :=
  match h_users, h_items, user_biases, item_biases with
  | hu :: hus, hi :: his, bu :: bus, bi :: bis =>
      (dot hu hi + bu + bi)%R :: scores hus his bus bis
  | _, _, _, _ => []
  end.

(** [DotDecoder.forward(h_users, h_items, users, items)]. *)
Definition forward (self : t) (h_users h_items : list vec) (users items : list nat)
  : option (list R) :=
  match gather (biases self) (map (fun u => u + 1) users),
        gather (biases self) (map (fun v => v + 1) items) with
  | Some user_biases, Some item_biases =>
      Some (scores h_users h_items user_biases item_biases)
  | _, _ => None
  end.

(** The bias of node [id]: entry [id + 1] of the parameter. *)
Definition node_bias (self : t) (id : nat) : R := nth (id + 1) (biases self) 0%R.

End DotDecoder.

(** ** Small instances *)

Module Example.
Import Tensor Graph.

(** Users are the nodes 0, 1, 2 and movies the nodes 3, 4. *)
Definition ndata (p : nat) : NData :=
  if p <? 3
  then {| type := USER; age := 1; gender := 0; occupation := 2; zip := 0;
          year := 0; genre := [0; 0]%R |}
  else {| type := MOVIE; age := 0; gender := 0; occupation := 0; zip := 0;
          year := 1; genre := [1; 0]%R |}.

(** The NodeFlow of seed 0 with both its neighbours and a self-loop. *)
Definition nf : NodeFlow :=
  {| layer_parent_nids := [[3; 4; 0]; [0]];
     block_edges := [[(0, 0); (1, 0); (2, 0)]] |}.


Definition table : Embedding :=
  [[1; 0]; [0; 1]; [1; 1]; [2; 0]; [0; 2]; [1; 2]]%R.

Definition update : GraphSageNodeUpdate.t :=
  {| GraphSageNodeUpdate.feature_size := 2;
     GraphSageNodeUpdate.W :=
       {| weight := [[1; 0; 1; 0]; [0; 1; 0; 1]]%R; bias := [0; 0]%R |} |}.

Definition encoder : GraphSageEncoder.t :=
  {| GraphSageEncoder.embedding_size := 2;
     GraphSageEncoder.user_layers := [update];
     GraphSageEncoder.movie_layers := [update];
     GraphSageEncoder.user_emb :=
       {| UserEmbedding.emb_age := table;
          UserEmbedding.emb_gender := table;
          UserEmbedding.emb_occupation := table;
          UserEmbedding.emb_zip := table;
          UserEmbedding.node_emb := table |};
     GraphSageEncoder.movie_emb :=
       {| MovieEmbedding.emb_year := table;
          MovieEmbedding.proj_genre_dense :=
            {| weight := [[1; 0]; [0; 1]]%R; bias := [0; 0]%R |};
          MovieEmbedding.node_emb := table |} |}.

(** A movie embedding block whose genre projection is negative before the
    rectifier. *)
Definition movie_emb_neg : MovieEmbedding.t :=
  {| MovieEmbedding.emb_year := [[0]]%R;
     MovieEmbedding.proj_genre_dense := {| weight := [[-1]]%R; bias := [0]%R |};
     MovieEmbedding.node_emb := [[0]; [0]]%R |}.

Definition movie_neg : NData :=
  {| type := MOVIE; age := 0; gender := 0; occupation := 0; zip := 0;
     year := 0; genre := [1]%R |}.

(** A user embedding block whose tables hold a single entry. *)
Definition user_emb_one : UserEmbedding.t :=
  {| UserEmbedding.emb_age := [[1]]%R;
     UserEmbedding.emb_gender := [[0]]%R;
     UserEmbedding.emb_occupation := [[0]]%R;
     UserEmbedding.emb_zip := [[0]]%R;
     UserEmbedding.node_emb := [[0]; [1]]%R |}.

Definition user_one : NData :=
  {| type := USER; age := 0; gender := 0; occupation := 0; zip := 0;
     year := 0; genre := [] |}.

Definition decoder : DotDecoder.t := {| DotDecoder.biases := [0; 1; 2; 3; 4; 5]%R |}.

End Example.

(** ** Graph Store and Neighbor Sampler *)

Module Sampler.

(** Modelled from the spec: the Graph Store.  The notebook obtains its graph
    from the [movielens] module and only reads it through DGL; the store is
    the sequence [all_edges()] of [(src, dst, rating, is_test)], an
    interaction being recorded as a pair of directed edges. *)
Record GraphStore : Type := mkGraphStore {
  all_edges : list (nat * nat * nat * bool)
}.

(** Modelled from the spec: the endpoints of an edge, [edge_endpoints]. *)
Definition edge_src (e : nat * nat * nat * bool) : nat := fst (fst (fst e)).
Definition edge_dst (e : nat * nat * nat * bool) : nat := snd (fst (fst e)).

(** Modelled from the spec: [neighbors(node_id)], the set of nodes with an
    edge into [v], without repetition. *)
Definition neighbors (g : GraphStore) (v : nat) : list nat :=
  nodup Nat.eq_dec
        (map edge_src (filter (fun e => edge_dst e =? v) (all_edges g))).

(** Modelled from the spec: a Flow, the layers (layer 0 holds the seeds) and,
    between layers [i] and [i+1], the block that lists for every node of
    layer [i] its sampled in-neighbours. *)
Record Flow : Type := mkFlow {
  layers : list (list nat);
  blocks : list (list (nat * list nat))
}.

(** Modelled from the spec: [min(K, |l|)] elements of [l], drawn without
    replacement with the injected random source. *)
Definition sample (K : nat) (l : list nat) (rs : NumpyRandom.RandomState)
  : list nat * NumpyRandom.RandomState :=
  let (shuffled, rs') := NumpyRandom.shuffle l rs in
  (firstn K shuffled, rs').

(** Modelled from the spec: the sampled neighbours united with [v] itself
    (the self-loop). *)
Definition with_self (v : nat) (sampled : list nat) : list nat :=
  if existsb (Nat.eqb v) sampled then sampled else sampled ++ [v].

(** Modelled from the spec: the block of one layer, node by node. *)
Fixpoint sample_layer (g : GraphStore) (K : nat) (layer : list nat)
    (rs : NumpyRandom.RandomState)
  : list (nat * list nat) * NumpyRandom.RandomState :=
  match layer with
  | [] => ([], rs)
  | v :: rest =>
      let (sampled, rs1) := sample K (neighbors g v) rs in
      let (blk, rs2) := sample_layer g K rest rs1 in
      ((v, with_self v sampled) :: blk, rs2)
  end.

(** Modelled from the spec: layers [i+1 ..] and blocks [i ..] from layer [i];
    the next layer is the deduplicated union of the block's lists. *)
Fixpoint build_layers (g : GraphStore) (K L : nat) (layer : list nat)
    (rs : NumpyRandom.RandomState) : Flow * NumpyRandom.RandomState :=
  match L with
  | 0 => ({| layers := [layer]; blocks := [] |}, rs)
  | S L' =>
      let (blk, rs1) := sample_layer g K layer rs in
      let next_layer := nodup Nat.eq_dec (concat (map snd blk)) in
      let (rest, rs2) := build_layers g K L' next_layer rs1 in
      ({| layers := layer :: layers rest; blocks := blk :: blocks rest |}, rs2)
  end.

(** Modelled from the spec: [build_flow(seed_nodes, K, L)] of the Neighbor
    Sampler, which the notebook delegates to DGL's [NeighborSampler] with
    [add_self_loop=True]. *)
Definition build_flow (g : GraphStore) (seed_nodes : list nat) (K L : nat)
    (rs : NumpyRandom.RandomState) : Flow * NumpyRandom.RandomState :=
  build_layers g K L (nodup Nat.eq_dec seed_nodes) rs.

(** The block recorded for [v] between layer [i] and layer [i+1]. *)
Definition block_of (f : Flow) (i v : nat) (blk : list nat) : Prop :=
  In (v, blk) (nth i (blocks f) []).

(** What holds of the entry recorded for a node of a layer: the node
    itself is there, with at most [min(K, |neighbors|)] other nodes, all
    of them neighbours. *)
Definition block_entry_ok (g : GraphStore) (K : nat) (e : nat * list nat) : Prop :=
  length (snd e) <= Nat.min K (length (neighbors g (fst e))) + 1 /\
  In (fst e) (snd e) /\
  forall u, In u (snd e) -> u = fst e \/ In u (neighbors g (fst e)).

(** Modelled from the spec: the graph of the end-to-end scenario; users u1,
    u2, u3 are 0, 1, 2 and items m1, m2 are 3, 4. *)
Definition scenario : GraphStore :=
  {| all_edges :=
       [ (0, 3, 5, false); (3, 0, 5, false);
         (0, 4, 3, false); (4, 0, 3, false);
         (1, 3, 4, false); (3, 1, 4, false) ] |}.

End Sampler.

(** ** The batches as the training loop receives them *)

Module EdgeBatches.
Import Py EdgeSampling.

(** The tuples an iterator will return, in order: position [k] of the three
    batch lists with the [k]-th NodeFlow of the sampler. *)
Fixpoint zip_yield {Rating NodeFlowT : Type} (sb db : list (list nat))
    (rb : list (list Rating)) (nfs : list NodeFlowT)
  : list (Batch Rating NodeFlowT) :=
  match sb, db, rb, nfs with
  | s :: sb', d :: db', r :: rb', nf :: nfs' =>
      (s, d, r, nf) :: zip_yield sb' db' rb' nfs'
  | _, _, _, _ => []
  end.

(** The list [[s, d] for s, d in zip(src_batches, dst_batches)] with each
    pair joined: the seed nodes contributed by each batch. *)
Fixpoint endpoints (sb db : list (list nat)) : list (list nat) :=
  match sb, db with
  | s :: sb', d :: db' => (s ++ d) :: endpoints sb' db'
  | _, _ => []
  end.

(** Groups that all hold [bs] elements, except the last one, which holds
    between 1 and [bs]. *)
Fixpoint full_groups (bs : nat) (gs : list (list nat)) : Prop :=
  match gs with
  | [] => True
  | g :: rest =>
      match rest with
      | [] => 0 < length g <= bs
      | _ :: _ => length g = bs /\ full_groups bs rest
      end
  end.

(** The numpy random state at the start of epoch [k] of a run that starts
    in state [rs]: every epoch before it has drawn one permutation of the
    [E] edge positions. *)
Fixpoint epoch_state (E k : nat) (rs : NumpyRandom.RandomState)
  : NumpyRandom.RandomState :=
  match k with
  | 0 => rs
  | S k' => snd (NumpyRandom.permutation E (epoch_state E k' rs))
  end.

(** The [(src, (dst, rating))] triples of one returned tuple. *)
Definition batch_edges {Rating NodeFlowT : Type} (b : Batch Rating NodeFlowT)
  : list (nat * (nat * Rating)) :=
  triples (fst (fst (fst b))) (snd (fst (fst b))) (snd (fst b)).

End EdgeBatches.

(** ** A small iterator *)

Module ExampleBatches.
Import EdgeSampling.

(** The sampler stand-in that returns the seeds it is given. *)
Definition seeds_of (k : nat) (seeds : list nat) : list nat := seeds.

(** Three edges in batches of two, after the permutation [[1; 2; 0]]. *)
Definition es3 : EdgeSampler nat (list nat) :=
  {| src_batches := [[1; 0]; [0]];
     dst_batches := [[3; 3]; [4]];
     rating_batches := [[4; 5]; [3]];
     sampler := [[1; 0; 3; 3]; [0; 4]];
     i := 0 |}.

End ExampleBatches.

(** ** More small instances *)

Module ExampleMore.
Import Tensor Graph.

(** An encoder built with no GraphSAGE layer at all. *)
Definition encoder_no_layer : GraphSageEncoder.t :=
  {| GraphSageEncoder.embedding_size := 2;
     GraphSageEncoder.user_layers := [];
     GraphSageEncoder.movie_layers := [];
     GraphSageEncoder.user_emb := GraphSageEncoder.user_emb Example.encoder;
     GraphSageEncoder.movie_emb := GraphSageEncoder.movie_emb Example.encoder |}.

End ExampleMore.

(** ** A batch of one user and one movie *)

Module ExamplePair.
Import Tensor Graph.

(** The NodeFlow of the seeds 0 (a user) and 3 (a movie), each with its two
    neighbours and a self-loop. *)
Definition nf : NodeFlow :=
  {| layer_parent_nids := [[3; 4; 0; 1]; [0; 3]];
     block_edges := [[(0, 0); (1, 0); (2, 0); (2, 1); (3, 1); (0, 1)]] |}.

End ExamplePair.

(** ** The recommender, training loss and test error *)

Module GNNRecommender.
Import Tensor Graph Py.

Record t : Type := mk {
  encoder : GraphSageEncoder.t;
  decoder : DotDecoder.t
}.

(** Position of the first occurrence of [p] in [ids]. *)
Fixpoint index_of (p : nat) (ids : list nat) : option nat :=
  match ids with
  | [] => None
  | q :: rest =>
      if q =? p then Some 0
      else match index_of p rest with
           | Some k => Some (S k)
           | None => None
           end
  end.

(** [nf.map_from_parent_nid(-1, parent_nids, True)]: for every parent id
    its position in the seed layer.  DGL has no position for an id that is
    not in the layer; the model stops there with [None]. *)
Fixpoint map_from_parent_nid (nf : NodeFlow) (parent_nids : list nat)
  : option (list nat) :=
  match parent_nids with
  | [] => Some []
  | p :: rest =>
      match index_of p (seed_nodes nf), map_from_parent_nid nf rest with
      | Some k, Some ks => Some (k :: ks)
      | _, _ => None
      end
  end.

(** [GNNRecommender.forward(nf, users, items)]; [ndata] is the node data of
    the parent graph of [nf]. *)
Definition forward (self : t) (ndata : nat -> NData) (nf : NodeFlow)
    (users items : list nat) : option (list R) :=
  match GraphSageEncoder.forward (encoder self) ndata nf with
  | None => None
  | Some h =>
      match map_from_parent_nid nf users, map_from_parent_nid nf items with
      | Some iu, Some ii =>
          match gather h iu, gather h ii with
          | Some h_users, Some h_items =>
              DotDecoder.forward (decoder self) h_users h_items users items
          | _, _ => None
          end
      | _, _ => None
      end
  end.

End GNNRecommender.

Module DotDecoderInit.

(** [DotDecoder.__init__] followed by the initialisation of the parameters:
    [node_biases] has shape [(num_nodes + 1,)] and is filled by
    [mx.init.Zero()]. *)
Definition init (num_nodes : nat) : DotDecoder.t :=
  {| DotDecoder.biases := repeat 0%R (num_nodes + 1) |}.

End DotDecoderInit.

Module Metrics.
Import Tensor Graph Py.

(** [a - b], entry by entry, on arrays of the same length. *)
Fixpoint zip_sub (a b : list R) : list R :=
  match a, b with
  | x :: a', y :: b' => (x - y)%R :: zip_sub a' b'
  | _, _ => []
  end.

(** [a - b] on two one-dimensional arrays.  The operator broadcasts: an
    array of a single entry is subtracted from, or has subtracted from it,
    every entry of a longer one.  On any other two arrays of different
    lengths it raises: [None]. *)
Definition broadcast_sub (a b : list R) : option (list R) :=
  if length a =? length b then Some (zip_sub a b)
  else
    match a, b with
    | [x], _ :: _ :: _ => Some (map (fun y => (x - y)%R) b)
    | _ :: _ :: _, [y] => Some (map (fun x => (x - y)%R) a)
    | _, _ => None
    end.

(** [(score - r) ** 2]. *)
Definition squared_errors (score r : list R) : option (list R) :=
  option_map (map (fun x => (x * x)%R)) (broadcast_sub score r).

(** [x.mean()].  The mean of no entry is not a number: [None]. *)
Definition mean (x : list R) : option R :=
  match x with
  | [] => None
  | _ :: _ => Some (sum_entries x / INR (length x))%R
  end.

(** The loss of one batch in [train]: [((score - r) ** 2).mean()]. *)
Definition mse (score r : list R) : option R :=
  match squared_errors score r with
  | Some sq => mean sq
  | None => None
  end.

(** The error of [test]: [nd.sqrt(((score - rating_test) ** 2).mean())]. *)
Definition rmse (score rating_test : list R) : option R :=
  option_map sqrt (mse score rating_test).

(** The first part of [test]: the encoder is run on every NodeFlow of the
    sampler and the results are concatenated along axis 0. *)
Fixpoint test_embeddings (enc : GraphSageEncoder.t) (ndata : nat -> NData)
    (nfs : list NodeFlow) : option (list vec) :=
  match nfs with
  | [] => Some []
  | nf :: rest =>
      match GraphSageEncoder.forward enc ndata nf,
            test_embeddings enc ndata rest with
      | Some out, Some h => Some (out ++ h)
      | _, _ => None
      end
  end.

(** [test(g, batch_size)]: the sampler runs over all the nodes
    [0 .. num_nodes - 1] in groups of [batch_size], in order; the scores of
    the test edges are computed from rows [src_test] and [dst_test] of the
    concatenated embeddings.  [nd.concat] of no array raises: [None]; so
    does the subtraction of [rating_test] from scores of another length. *)
Definition test (model : GNNRecommender.t) (ndata : nat -> NData)
    (sample_nodeflow : nat -> list nat -> NodeFlow) (batch_size num_nodes : nat)
    (src_test dst_test : list nat) (rating_test : list R) : option R :=
  let sampler :=
    EdgeSampling.NeighborSampler sample_nodeflow batch_size (seq 0 num_nodes) in
  match sampler with
  | [] => None
  | _ :: _ =>
      match test_embeddings (GNNRecommender.encoder model) ndata sampler with
      | None => None
      | Some h =>
          match gather h src_test, gather h dst_test with
          | Some h_src, Some h_dst =>
              match DotDecoder.forward (GNNRecommender.decoder model)
                      h_src h_dst src_test dst_test with
              | Some score => rmse score rating_test
              | None => None
              end
          | _, _ => None
          end
      end
  end.

End Metrics.

Module ExampleModel.

Definition model : GNNRecommender.t :=
  {| GNNRecommender.encoder := Example.encoder;
     GNNRecommender.decoder := Example.decoder |}.

(** A sampler stand-in for [test]: the NodeFlow with the given seeds and no
    block. *)
Definition seeds_only (k : nat) (seeds : list nat) : Graph.NodeFlow :=
  {| Graph.layer_parent_nids := [seeds]; Graph.block_edges := [] |}.

End ExampleModel.

Unset Implicit Arguments.

(** * Properties *)

(** ** Facts about the Python building blocks *)

Module PyFacts.
Import Py.

Lemma ceil_div_0 (b : nat) : ceil_div 0 b = 0.
Proof.
  unfold ceil_div. destruct b as [|b]; [reflexivity|].
  apply Nat.div_small. lia.
Qed.

Lemma ceil_div_step (m b : nat) :
  0 < m -> 0 < b -> ceil_div m b = S (ceil_div (m - b) b).
Proof.
  intros Hm Hb. unfold ceil_div.
  replace (m + b - 1) with ((m - 1) + 1 * b) by lia.
  rewrite Nat.div_add by lia.
  destruct (le_lt_dec m b) as [Hle|Hlt].
  - replace (m - b) with 0 by lia. simpl.
    rewrite (Nat.div_small (m - 1)) by lia.
    rewrite (Nat.div_small (b - 1)) by lia. reflexivity.
  - replace (m - b + b - 1) with (m - 1) by lia. lia.
Qed.

Lemma ceil_div_double (n b : nat) : ceil_div (n + n) (b * 2) = ceil_div n b.
Proof.
  unfold ceil_div. destruct b as [|b]; [reflexivity|].
  replace (S b * 2) with (2 * S b) by lia.
  rewrite <- Nat.Div0.div_div.
  replace (n + n + 2 * S b - 1) with (1 + (n + S b - 1) * 2) by lia.
  rewrite Nat.div_add by lia. simpl. reflexivity.
Qed.

Lemma ceil_div_pos (n b : nat) : 0 < n -> 0 < b -> 0 < ceil_div n b.
Proof. intros Hn Hb. rewrite ceil_div_step by assumption. lia. Qed.

(** [range(i, stop, b)] lists [i, i + b, i + 2b, ...], [ceil((stop - i) / b)]
    values in all. *)
Lemma range_aux_spec (b : nat) :
  0 < b ->
  forall fuel i stop,
    stop - i <= fuel ->
    range_aux fuel i stop b
    = map (fun k => i + k * b) (seq 0 (ceil_div (stop - i) b)).
Proof.
  intros Hb. induction fuel as [|f IH]; intros i stop Hf; simpl.
  - replace (stop - i) with 0 by lia. now rewrite ceil_div_0.
  - destruct (i <? stop) eqn:Hlt.
    + apply Nat.ltb_lt in Hlt.
      rewrite (ceil_div_step (stop - i) b) by lia.
      rewrite IH by lia.
      replace (stop - i - b) with (stop - (i + b)) by lia.
      simpl. f_equal; [lia|].
      rewrite <- seq_shift, map_map.
      apply map_ext. intros k. lia.
    + apply Nat.ltb_ge in Hlt.
      replace (stop - i) with 0 by lia. now rewrite ceil_div_0.
Qed.

Lemma range_spec (stop b : nat) :
  0 < b ->
  range 0 stop b = Some (map (fun k => k * b) (seq 0 (ceil_div stop b))).
Proof.
  intros Hb. unfold range.
  destruct (b =? 0) eqn:E; [apply Nat.eqb_eq in E; lia|].
  rewrite range_aux_spec by lia.
  now rewrite Nat.sub_0_r.
Qed.

Lemma slice_length {A : Type} (i j : nat) (l : list A) :
  length (slice i j l) = Nat.min (j - i) (length l - i).
Proof. unfold slice. now rewrite length_firstn, length_skipn. Qed.

(** A gather succeeds exactly when it reads existing positions, and then
    returns what is at these positions. *)
Lemma gather_Forall2 {A : Type} (xs : list A) (idx : list nat) (l : list A) :
  gather xs idx = Some l <-> Forall2 (fun i x => nth_error xs i = Some x) idx l.
Proof.
  revert l. induction idx as [|i idx IH]; intros l; simpl.
  - split.
    + intros H. inversion H. constructor.
    + intros H. inversion H. reflexivity.
  - split.
    + intros H.
      destruct (nth_error xs i) as [x|] eqn:Hx; [|discriminate].
      destruct (gather xs idx) as [l'|] eqn:Hg; [|discriminate].
      inversion H; subst. constructor; [assumption|]. now apply IH.
    + intros H. inversion H as [|? y ? l' Hy Hrest]; subst.
      rewrite Hy. apply IH in Hrest. now rewrite Hrest.
Qed.

Lemma gather_length {A : Type} (xs : list A) idx l :
  gather xs idx = Some l -> length l = length idx.
Proof.
  intros H. apply gather_Forall2 in H.
  symmetry. eapply Forall2_length; eauto.
Qed.

Lemma gather_in_range {A : Type} (xs : list A) idx :
  Forall (fun i => i < length xs) idx -> exists l, gather xs idx = Some l.
Proof.
  induction 1 as [|i idx Hi _ [l IH]]; simpl.
  - now exists [].
  - destruct (nth_error xs i) as [x|] eqn:Hx.
    + rewrite IH. now exists (x :: l).
    + apply nth_error_None in Hx. lia.
Qed.

Lemma gather_map_Some {A : Type} (xs : list A) idx l :
  gather xs idx = Some l -> map (nth_error xs) idx = map Some l.
Proof.
  intros H. apply gather_Forall2 in H.
  induction H; simpl; congruence.
Qed.

Lemma gather_firstn {A : Type} (xs : list A) idx l n :
  gather xs idx = Some l -> gather xs (firstn n idx) = Some (firstn n l).
Proof.
  rewrite !gather_Forall2. intros H. revert n.
  induction H; intros [|n]; simpl; constructor; auto.
Qed.

Lemma gather_skipn {A : Type} (xs : list A) idx l n :
  gather xs idx = Some l -> gather xs (skipn n idx) = Some (skipn n l).
Proof.
  rewrite !gather_Forall2. intros H. revert n.
  induction H; intros [|n]; simpl; try constructor; auto.
Qed.

Lemma gather_slice {A : Type} (xs : list A) idx l i j :
  gather xs idx = Some l -> gather xs (slice i j idx) = Some (slice i j l).
Proof.
  intros H. unfold slice. now apply gather_firstn, gather_skipn.
Qed.

Lemma gather_combine {A B : Type} (xs : list A) (ys : list B) idx lx ly :
  gather xs idx = Some lx -> gather ys idx = Some ly ->
  gather (combine xs ys) idx = Some (combine lx ly).
Proof.
  rewrite !gather_Forall2. intros Hx. revert ly.
  induction Hx as [|i x idx lx Hi _ IH]; intros ly Hy; inversion Hy; subst; simpl.
  - constructor.
  - constructor; [|now apply IH].
    clear - Hi H1. revert i Hi H1.
    revert ys. induction xs as [|a xs IHxs]; intros [|b ys] [|i] Hi Hj;
      simpl in *; try discriminate.
    + congruence.
    + now apply IHxs.
Qed.

Lemma map_nth_error_seq {A : Type} (xs : list A) :
  map (nth_error xs) (seq 0 (length xs)) = map Some xs.
Proof.
  induction xs as [|x xs IH]; simpl; [reflexivity|].
  f_equal. rewrite <- seq_shift, map_map. exact IH.
Qed.

Lemma map_Some_inj {A : Type} (l1 l2 : list A) :
  map Some l1 = map Some l2 -> l1 = l2.
Proof.
  revert l2. induction l1 as [|a l1 IH]; intros [|b l2] H; simpl in H;
    try discriminate; [reflexivity|].
  inversion H. f_equal. now apply IH.
Qed.

(** Gathering along a permutation of the positions permutes the list. *)
Lemma gather_permutation {A : Type} (xs : list A) idx l :
  Permutation idx (seq 0 (length xs)) ->
  gather xs idx = Some l ->
  Permutation l xs.
Proof.
  intros Hp Hg. apply gather_map_Some in Hg.
  pose proof (Permutation_map (nth_error xs) Hp) as Hm.
  rewrite Hg, map_nth_error_seq in Hm.
  apply Permutation_sym, Permutation_map_inv in Hm.
  destruct Hm as [l3 [Heq Hp3]].
  apply map_Some_inj in Heq. subst l3. now apply Permutation_sym.
Qed.

Lemma gather_permutation_Some {A : Type} (xs : list A) idx :
  Permutation idx (seq 0 (length xs)) -> exists l, gather xs idx = Some l.
Proof.
  intros Hp. apply gather_in_range.
  apply Forall_forall. intros i Hi.
  apply (Permutation_in _ Hp) in Hi. apply in_seq in Hi. lia.
Qed.

End PyFacts.

(** ** Facts about the random source *)

Module NumpyRandomFacts.
Import NumpyRandom.

Lemma remove_nth_length {A : Type} (k : nat) (l : list A) :
  k < length l -> length (remove_nth k l) = length l - 1.
Proof.
  revert k. induction l as [|x l IH]; intros [|k] H; simpl in *; try lia.
  rewrite IH by lia. lia.
Qed.

Lemma remove_nth_perm {A : Type} (k : nat) (l : list A) (d : A) :
  k < length l -> Permutation (nth k l d :: remove_nth k l) l.
Proof.
  revert k. induction l as [|x l IH]; intros [|k] H; simpl in *; try lia.
  - apply Permutation_refl.
  - eapply perm_trans; [apply perm_swap|].
    apply perm_skip. apply IH. lia.
Qed.

(** The shuffle returns a rearrangement of its input, whatever the draws. *)
Lemma shuffle_aux_perm {A : Type} (fuel : nat) :
  forall (l : list A) rs,
    length l <= fuel -> Permutation (fst (shuffle_aux fuel l rs)) l.
Proof.
  induction fuel as [|f IH]; intros l rs Hlen; simpl.
  - destruct l; simpl in *; [constructor|lia].
  - destruct l as [|x l']; [constructor|].
    destruct (draw rs) as [r rs1].
    set (l := x :: l') in *.
    assert (Hk : r mod length l < length l)
      by (apply Nat.mod_upper_bound; subst l; simpl; lia).
    specialize (IH (remove_nth (r mod length l) l) rs1).
    destruct (shuffle_aux f (remove_nth (r mod length l) l) rs1) as [out rs2].
    simpl in *.
    eapply perm_trans; [|apply (remove_nth_perm _ l x Hk)].
    apply perm_skip. apply IH.
    rewrite remove_nth_length by assumption. subst l. simpl in *. lia.
Qed.

Lemma shuffle_perm {A : Type} (l : list A) rs :
  Permutation (fst (shuffle l rs)) l.
Proof. apply shuffle_aux_perm. lia. Qed.

(** [np.random.permutation(n)] is a permutation of [0 .. n-1]. *)
Lemma permutation_perm (n : nat) rs :
  Permutation (fst (permutation n rs)) (seq 0 n).
Proof. apply shuffle_perm. Qed.

End NumpyRandomFacts.

(** ** Facts about rows of reals *)

Module TensorFacts.
Import Tensor.

Local Open Scope R_scope.

Lemma eps_pos : 0 < eps.
Proof. unfold eps. apply Rinv_0_lt_compat. lra. Qed.



Lemma length_vzero (d : nat) : length (vzero d) = d.
Proof. apply repeat_length. Qed.


Lemma dot_self_nonneg (x : vec) : 0 <= dot x x.
Proof.
  unfold dot. induction x as [|a x IH]; simpl; [lra|].
  pose proof (Rle_0_sqr a) as Ha. unfold Rsqr in Ha. lra.
Qed.

Lemma dot_vdiv (x : vec) (c : R) :
  c <> 0 -> dot (vdiv x c) (vdiv x c) = dot x x / (c * c).
Proof.
  intros Hc. unfold dot, vdiv. induction x as [|a x IH]; simpl.
  - unfold Rdiv. now rewrite Rmult_0_l.
  - rewrite IH. field. exact Hc.
Qed.

(** Dividing a row by a positive scalar divides its norm. *)
Lemma norm_vdiv (x : vec) (c : R) : 0 < c -> norm (vdiv x c) = norm x / c.
Proof.
  intros Hc. unfold norm. rewrite dot_vdiv by lra.
  pose proof (dot_self_nonneg x) as Hx.
  pose proof (sqrt_pos (dot x x)) as Hs.
  pose proof (sqrt_sqrt (dot x x) Hx) as Hss.
  assert (Hic : 0 < / c) by (now apply Rinv_0_lt_compat).
  apply sqrt_lem_1.
  - unfold Rdiv. apply Rmult_le_pos; [assumption|].
    left. apply Rinv_0_lt_compat. nra.
  - unfold Rdiv. apply Rmult_le_pos; lra.
  - transitivity (sqrt (dot x x) * sqrt (dot x x) / (c * c)).
    + field. lra.
    + now rewrite Hss.
Qed.

(** The normalised row has norm 1 as soon as the norm exceeds the floor. *)
Lemma norm_normalized (x : vec) :
  eps < norm x -> norm (GraphSageNodeUpdate.normalized x) = 1.
Proof.
  intros H. pose proof eps_pos as He.
  unfold GraphSageNodeUpdate.normalized.
  rewrite Rmax_left by lra.
  rewrite norm_vdiv by lra. field. lra.
Qed.

(** Entry [j] of the message sum is the sum of the entries [j] of the
    messages, when these all have the embedding size. *)
Lemma nth_vadd (a b : vec) (j : nat) :
  length a = length b -> nth j (vadd a b) 0 = nth j a 0 + nth j b 0.
Proof.
  revert b j. induction a as [|x a IH]; intros [|y b] j H; simpl in *;
    try discriminate.
  - destruct j; lra.
  - destruct j as [|j]; [reflexivity|]. apply IH. lia.
Qed.

Lemma length_vadd (a b : vec) :
  length (vadd a b) = Nat.min (length a) (length b).
Proof.
  revert b. induction a as [|x a IH]; intros [|y b]; simpl; auto.
Qed.

Lemma fold_left_vadd_entry (msgs : list vec) (d : nat) :
  Forall (fun m => length m = d) msgs ->
  forall (acc : vec) (j : nat),
    length acc = d ->
    length (fold_left vadd msgs acc) = d /\
    nth j (fold_left vadd msgs acc) 0
    = nth j acc 0 + fold_right Rplus 0 (map (fun m => nth j m 0) msgs).
Proof.
  induction 1 as [|m msgs Hm _ IH]; intros acc j Hacc; simpl.
  - split; [assumption|lra].
  - destruct (IH (vadd acc m) j) as [Hl Hn].
    + rewrite length_vadd. lia.
    + split; [assumption|]. rewrite Hn, nth_vadd by lia. lra.
Qed.

Lemma nth_vzero (d j : nat) : nth j (vzero d) 0 = 0.
Proof.
  unfold vzero. revert j. induction d as [|d IH]; intros [|j]; simpl; auto.
Qed.

Lemma sum_messages_entry (d : nat) (msgs : list vec) (j : nat) :
  Forall (fun m => length m = d) msgs ->
  nth j (Graph.sum_messages d msgs) 0
  = fold_right Rplus 0 (map (fun m => nth j m 0) msgs).
Proof.
  intros H. destruct msgs as [|m msgs]; simpl.
  - apply nth_vzero.
  - inversion H as [|? ? Hm Hrest]; subst.
    destruct (fold_left_vadd_entry msgs (length m) Hrest m j eq_refl) as [_ Hn].
    exact Hn.
Qed.

End TensorFacts.

(** ** Frames of a NodeFlow *)

Module GraphFacts.
Import Tensor Graph.

Lemma nth_error_imap_from {A B : Type} (f : nat -> A -> B) (l : list A) :
  forall id k,
    nth_error (imap_from f id l) k = option_map (f (id + k)) (nth_error l k).
Proof.
  induction l as [|x l IH]; intros id [|k]; simpl; try reflexivity.
  - now rewrite Nat.add_0_r.
  - rewrite IH. now replace (S id + k) with (id + S k) by lia.
Qed.

Lemma length_imap_from {A B : Type} (f : nat -> A -> B) (l : list A) id :
  length (imap_from f id l) = length l.
Proof. revert id. induction l; intros id; simpl; auto. Qed.

Lemma imap_from_id {A : Type} (f : nat -> A -> A) (l : list A) id :
  (forall k x, nth_error l k = Some x -> f (id + k) x = x) ->
  imap_from f id l = l.
Proof.
  revert id. induction l as [|x l IH]; intros id H; simpl; [reflexivity|].
  f_equal.
  - specialize (H 0 x eq_refl). now rewrite Nat.add_0_r in H.
  - apply IH. intros k y Hk. specialize (H (S k) y Hk).
    now replace (S id + k) with (id + S k) by lia.
Qed.

Lemma nth_error_set_layer (i : nat) (rows : list Row) (fr : Frames) (j : nat) :
  nth_error (set_layer i rows fr) j
  = if (j =? i) && (i <? length fr) then Some rows else nth_error fr j.
Proof.
  revert i j. induction fr as [|l fr IH]; intros i j.
  - simpl. rewrite andb_false_r. now destruct i.
  - destruct i as [|i], j as [|j]; simpl; try reflexivity.
    rewrite IH. reflexivity.
Qed.

Lemma length_set_layer (i : nat) (rows : list Row) (fr : Frames) :
  length (set_layer i rows fr) = length fr.
Proof.
  revert i. induction fr as [|l fr IH]; intros [|i]; simpl; auto.
Qed.

Lemma set_layer_same (i : nat) (rows : list Row) (fr : Frames) :
  nth_error fr i = Some rows -> set_layer i rows fr = fr.
Proof.
  revert i. induction fr as [|l fr IH]; intros [|i] H; simpl in *;
    try discriminate.
  - now inversion H.
  - f_equal. now apply IH.
Qed.

Lemma map_length_set_layer (i : nat) (rows rows0 : list Row) (fr : Frames) :
  nth_error fr i = Some rows0 -> length rows = length rows0 ->
  map (@length Row) (set_layer i rows fr) = map (@length Row) fr.
Proof.
  revert i. induction fr as [|l fr IH]; intros [|i] H Hl; simpl in *;
    try discriminate.
  - inversion H; subst. now rewrite Hl.
  - f_equal. now apply IH.
Qed.

(** Cells of a frame after one layer has been replaced. *)
Lemma cell_set_layer_other (i j k : nat) (rows : list Row) (fr : Frames) :
  j <> i -> cell (set_layer i rows fr) j k = cell fr j k.
Proof.
  intros Hne. unfold cell. rewrite nth_error_set_layer.
  destruct (j =? i) eqn:E; [apply Nat.eqb_eq in E; contradiction|reflexivity].
Qed.

Lemma cell_set_layer_same (i k : nat) (rows rows0 : list Row) (fr : Frames) :
  nth_error fr i = Some rows0 ->
  cell (set_layer i rows fr) i k = nth_error rows k.
Proof.
  intros H. unfold cell. rewrite nth_error_set_layer, Nat.eqb_refl.
  assert (Hlt : i < length fr) by (apply nth_error_Some; congruence).
  apply Nat.ltb_lt in Hlt. now rewrite Hlt.
Qed.

Lemma same_shape_layer (nf : NodeFlow) (fr : Frames) (i : nat) rows :
  same_shape nf fr -> nth_error fr i = Some rows ->
  length rows = layer_size nf i /\ i < num_layers nf.
Proof.
  unfold same_shape, layer_size, layer_parent_nid, num_layers. intros Hs Hr.
  assert (Hm : nth_error (map (@length Row) fr) i = Some (length rows))
    by (rewrite nth_error_map, Hr; reflexivity).
  rewrite Hs, nth_error_map in Hm.
  destruct (nth_error (layer_parent_nids nf) i) as [ps|] eqn:Hp;
    [|discriminate].
  inversion Hm as [Hl]. split.
  - now rewrite (nth_error_nth _ _ _ Hp).
  - apply nth_error_Some. congruence.
Qed.

Lemma same_shape_exists (nf : NodeFlow) (fr : Frames) (i : nat) :
  same_shape nf fr -> i < num_layers nf -> exists rows, nth_error fr i = Some rows.
Proof.
  unfold same_shape, num_layers. intros Hs Hi.
  destruct (nth_error fr i) as [rows|] eqn:Hr; [now exists rows|].
  apply nth_error_None in Hr.
  assert (length fr = length (layer_parent_nids nf))
    by (rewrite <- (length_map (@length Row)), Hs; apply length_map).
  lia.
Qed.

Lemma same_shape_set_layer (nf : NodeFlow) (fr : Frames) i rows rows0 :
  same_shape nf fr -> nth_error fr i = Some rows0 ->
  length rows = length rows0 ->
  same_shape nf (set_layer i rows fr).
Proof.
  unfold same_shape. intros Hs Hr Hl.
  now rewrite (map_length_set_layer i rows rows0 fr Hr Hl).
Qed.

Lemma same_shape_copy_from_parent ndata nf :
  same_shape nf (copy_from_parent ndata nf).
Proof.
  unfold same_shape, copy_from_parent. rewrite map_map.
  apply map_ext. intros ps. apply length_map.
Qed.

Lemma cell_copy_from_parent ndata nf i k :
  cell (copy_from_parent ndata nf) i k
  = option_map (fun p => {| data := ndata p; h := None; h_agg := None; deg := None |})
               (nth_error (layer_parent_nid nf i) k).
Proof.
  unfold cell, copy_from_parent, layer_parent_nid.
  rewrite nth_error_map.
  destruct (nth_error (layer_parent_nids nf) i) as [ps|] eqn:Hp; simpl.
  - rewrite (nth_error_nth _ _ _ Hp). apply nth_error_map.
  - rewrite nth_overflow by (now apply nth_error_None). now destruct k.
Qed.

(** [apply_rows] with a node function that succeeds on the selected rows
    is a row-wise map. *)
Lemma apply_rows_imap (func : nat -> Row -> option Row) (g : nat -> Row -> Row)
    (v : list nat) (rows : list Row) :
  forall id,
    (forall k r, nth_error rows k = Some r ->
                 existsb (Nat.eqb (id + k)) v = true ->
                 func (id + k) r = Some (g (id + k) r)) ->
    apply_rows func v id rows
    = Some (imap_from (fun j r => if existsb (Nat.eqb j) v then g j r else r) id rows).
Proof.
  induction rows as [|r rows IH]; intros id H; simpl; [reflexivity|].
  rewrite IH.
  - destruct (existsb (Nat.eqb id) v) eqn:E; [|reflexivity].
    specialize (H 0 r eq_refl). rewrite Nat.add_0_r in H.
    now rewrite (H E).
  - intros k r' Hk Hv. replace (S id + k) with (id + S k) in * by lia.
    now apply H.
Qed.

Lemma nodes_of_type_In (t : NodeType) (ids : list nat) (rows : list Row) x :
  In x (nodes_of_type t ids rows) -> In x ids.
Proof.
  unfold nodes_of_type. intros H. apply in_map_iff in H.
  destruct H as [[y r] [Hx Hin]]. simpl in Hx. subst y.
  apply filter_In in Hin. destruct Hin as [Hin _].
  now apply in_combine_l in Hin.
Qed.

Lemma nodes_of_type_cons (t : NodeType) (id : nat) (ids : list nat)
    (r : Row) (rows : list Row) :
  nodes_of_type t (id :: ids) (r :: rows)
  = if type_eqb (type (data r)) t
    then id :: nodes_of_type t ids rows
    else nodes_of_type t ids rows.
Proof. unfold nodes_of_type. simpl. now destruct (type_eqb (type (data r)) t). Qed.

(** The NodeFlow id of a row is selected for its own type, and for no other. *)
Lemma existsb_nodes_of_type (t : NodeType) (rows : list Row) :
  forall off k r,
    nth_error rows k = Some r ->
    existsb (Nat.eqb (off + k)) (nodes_of_type t (seq off (length rows)) rows)
    = type_eqb (type (data r)) t.
Proof.
  induction rows as [|r0 rows IH]; intros off k r Hk; [now destruct k|].
  cbn [length seq]. rewrite nodes_of_type_cons.
  destruct k as [|k]; cbn [nth_error] in Hk.
  - inversion Hk; subst r0. rewrite Nat.add_0_r.
    destruct (type_eqb (type (data r)) t) eqn:E; cbn [existsb].
    + now rewrite Nat.eqb_refl.
    + destruct (existsb _ _) eqn:Ex; [|reflexivity].
      apply existsb_exists in Ex. destruct Ex as [x [Hin Hx]].
      apply Nat.eqb_eq in Hx. subst x.
      apply (nodes_of_type_In t (seq (S off) (length rows)) rows) in Hin.
      apply in_seq in Hin. lia.
  - replace (off + S k) with (S off + k) by lia.
    destruct (type_eqb (type (data r0)) t); cbn [existsb].
    + replace (S off + k =? off) with false
        by (symmetry; apply Nat.eqb_neq; lia).
      cbn [orb]. now apply IH.
    + now apply IH.
Qed.

Lemma type_eqb_true (a b : NodeType) : type_eqb a b = true <-> a = b.
Proof. destruct a, b; simpl; split; intros H; try reflexivity; discriminate. Qed.

Lemma assign_deg_imap (nf : NodeFlow) (i : nat) (rows : list Row) :
  forall v,
    assign_deg nf i v rows
    = imap_from (fun u r => set_deg r (INR (in_degree nf i u))) v rows.
Proof. induction rows as [|r rows IH]; intros v; simpl; [|rewrite IH]; reflexivity. Qed.

(** Reading the [h] of in-range rows that all have one. *)
Lemma read_h_messages (src_rows : list Row) (us : list nat) :
  (forall u, In u us -> exists r x, nth_error src_rows u = Some r /\ h r = Some x) ->
  read_h src_rows us
  = Some (map (fun u => match nth_error src_rows u with
                        | Some r => h_of r
                        | None => []
                        end) us).
Proof.
  induction us as [|u us IH]; intros H; simpl; [reflexivity|].
  destruct (H u (or_introl eq_refl)) as (r & x & Hr & Hx).
  rewrite IH by (intros u' Hu'; apply H; now right).
  rewrite Hr. unfold h_of. now rewrite Hx.
Qed.

Lemma aggregate_rows_imap (nf : NodeFlow) (d i : nat) (src_rows rows : list Row) :
  (forall v u, In u (in_neighbors nf i v) ->
               exists r x, nth_error src_rows u = Some r /\ h r = Some x) ->
  forall v,
    aggregate_rows nf d i src_rows v rows
    = Some (imap_from
              (fun u r => set_h_agg r (sum_messages d (messages nf i src_rows u)))
              v rows).
Proof.
  intros H. induction rows as [|r rows IH]; intros v; simpl; [reflexivity|].
  rewrite (read_h_messages src_rows (in_neighbors nf i v)) by (apply H).
  rewrite IH. reflexivity.
Qed.

(** In a well-formed block every edge joins two existing rows. *)
Lemma block_ok_in_neighbors (nf : NodeFlow) (i v u : nat) :
  block_ok nf i = true -> In u (in_neighbors nf i v) ->
  u < layer_size nf i.
Proof.
  unfold block_ok, in_neighbors. intros Hok Hin.
  apply in_map_iff in Hin. destruct Hin as [[a b] [Ha Hin]].
  simpl in Ha. subst a. apply filter_In in Hin. destruct Hin as [Hin _].
  rewrite forallb_forall in Hok. specialize (Hok _ Hin). simpl in Hok.
  apply andb_prop in Hok. destruct Hok as [Hu _]. now apply Nat.ltb_lt.
Qed.

Lemma well_formed_block_ok (nf : NodeFlow) (i : nat) :
  well_formed nf = true -> i < num_blocks nf -> block_ok nf i = true.
Proof.
  unfold well_formed. intros H Hi. apply andb_prop in H. destruct H as [_ H].
  rewrite forallb_forall in H. apply H. apply in_seq. lia.
Qed.

End GraphFacts.

(** ** The encoder *)

Module EncoderFacts.
Import Tensor Graph GraphFacts GraphSageEncoder.

Lemma set_layer_twice (i : nat) (rows rows' : list Row) (fr : Frames) :
  set_layer i rows (set_layer i rows' fr) = set_layer i rows fr.
Proof.
  revert i. induction fr as [|l fr IH]; intros [|i]; simpl; try reflexivity.
  now rewrite IH.
Qed.

(** A guarded [apply_layer]: skipped when no row is selected, which changes
    nothing either. *)
Lemma guarded_apply_layer (nf : NodeFlow) (i : nat)
    (func : nat -> Row -> option Row) (g : nat -> Row -> Row)
    (v : list nat) (fr : Frames) (rows : list Row) :
  nth_error fr i = Some rows ->
  (forall k r, nth_error rows k = Some r ->
               existsb (Nat.eqb (layer_offset nf i + k)) v = true ->
               func (layer_offset nf i + k) r = Some (g (layer_offset nf i + k) r)) ->
  (if 0 <? length v then apply_layer nf i func v fr else Some fr)
  = Some (set_layer i
            (imap_from (fun j r => if existsb (Nat.eqb j) v then g j r else r)
                       (layer_offset nf i) rows)
            fr).
Proof.
  intros Hr Hf. destruct v as [|x v].
  - simpl. rewrite imap_from_id by reflexivity.
    now rewrite (set_layer_same i rows fr Hr).
  - cbn [length Nat.ltb Nat.leb]. unfold apply_layer. rewrite Hr.
    now rewrite (apply_rows_imap func g (x :: v) rows _ Hf).
Qed.

(** The first loop, one layer: every row receives the embedding of its
    node type, computed from its features and its NodeFlow id. *)
Lemma embed_layer_spec (enc : t) (nf : NodeFlow) (i : nat) (fr : Frames)
    (rows : list Row) :
  same_shape nf fr ->
  nth_error fr i = Some rows ->
  embed_layer enc nf i fr
  = Some (set_layer i
            (imap_from (fun nid r => set_h r (initial_embedding enc nid (data r)))
                       (layer_offset nf i) rows)
            fr).
Proof.
  intros Hs Hr. unfold embed_layer. rewrite Hr.
  destruct (same_shape_layer nf fr i rows Hs Hr) as [Hlen Hi].
  unfold layer_nid. rewrite <- Hlen.
  set (off := layer_offset nf i).
  set (users := nodes_of_type USER (seq off (length rows)) rows).
  set (movies := nodes_of_type MOVIE (seq off (length rows)) rows).
  rewrite (guarded_apply_layer nf i _
             (fun nid r => set_h r (UserEmbedding.forward (user_emb enc) (data r) nid))
             users fr rows Hr) by reflexivity.
  fold off.
  set (rowsU := imap_from _ off rows).
  assert (HrU : nth_error (set_layer i rowsU fr) i = Some rowsU).
  { rewrite nth_error_set_layer, Nat.eqb_refl.
    assert (Hlt : i < length fr) by (apply nth_error_Some; congruence).
    apply Nat.ltb_lt in Hlt. now rewrite Hlt. }
  rewrite (guarded_apply_layer nf i _
             (fun nid r => set_h r (MovieEmbedding.forward (movie_emb enc) (data r) nid))
             movies _ rowsU HrU) by reflexivity.
  fold off. rewrite set_layer_twice. do 2 f_equal.
  apply nth_error_ext. intros k. subst rowsU.
  rewrite !nth_error_imap_from.
  destruct (nth_error rows k) as [r|] eqn:Hk; [|reflexivity].
  cbn [option_map]. f_equal. subst users movies.
  rewrite !(existsb_nodes_of_type _ rows off k r Hk).
  unfold initial_embedding.
  destruct (type (data r)); reflexivity.
Qed.

Lemma for_each_app (body : nat -> Frames -> option Frames) (l1 l2 : list nat)
    (fr : Frames) :
  for_each body (l1 ++ l2) fr
  = match for_each body l1 fr with
    | Some fr' => for_each body l2 fr'
    | None => None
    end.
Proof.
  revert fr. induction l1 as [|x l1 IH]; intros fr; simpl; [reflexivity|].
  destruct (body x fr); [apply IH|reflexivity].
Qed.

(** The frames after the first loop: every row of every layer has its
    parent's features and, as [h], its initial embedding; [h_agg] and [deg]
    do not exist yet. *)
Lemma embedded_spec (enc : t) (ndata : nat -> NData) (nf : NodeFlow) :
  exists fr0,
    embedded enc ndata nf = Some fr0 /\
    same_shape nf fr0 /\
    forall i k,
      cell fr0 i k
      = option_map
          (fun p => {| data := ndata p;
                       h := Some (initial_embedding enc (layer_offset nf i + k) (ndata p));
                       h_agg := None;
                       deg := None |})
          (nth_error (layer_parent_nid nf i) k).
Proof.
  unfold embedded.
  assert (H : forall m, m <= num_layers nf ->
    exists fr,
      for_each (embed_layer enc nf) (seq 0 m) (copy_from_parent ndata nf) = Some fr /\
      same_shape nf fr /\
      forall i k,
        cell fr i k
        = option_map
            (fun p => {| data := ndata p;
                         h := if i <? m
                              then Some (initial_embedding enc (layer_offset nf i + k) (ndata p))
                              else None;
                         h_agg := None;
                         deg := None |})
            (nth_error (layer_parent_nid nf i) k)).
  { induction m as [|m IH]; intros Hm.
    - exists (copy_from_parent ndata nf). split; [reflexivity|]. split.
      + apply same_shape_copy_from_parent.
      + intros i k. apply cell_copy_from_parent.
    - destruct IH as (fr & Hfr & Hs & Hc); [lia|].
      rewrite seq_S, for_each_app, Hfr. cbn [for_each Nat.add].
      destruct (same_shape_exists nf fr m Hs) as [rows Hr]; [lia|].
      rewrite (embed_layer_spec enc nf m fr rows Hs Hr).
      eexists. split; [reflexivity|]. split.
      + apply (same_shape_set_layer nf fr m _ rows Hs Hr).
        apply length_imap_from.
      + intros i k. destruct (Nat.eq_dec i m) as [->|Hne].
        * rewrite (cell_set_layer_same m k _ rows fr Hr).
          rewrite nth_error_imap_from.
          specialize (Hc m k). unfold cell in Hc. rewrite Hr in Hc. rewrite Hc.
          replace (m <? S m) with true by (symmetry; apply Nat.ltb_lt; lia).
          destruct (nth_error (layer_parent_nid nf m) k); reflexivity.
        * rewrite cell_set_layer_other by assumption. rewrite Hc.
          replace (i <? S m) with (i <? m); [reflexivity|].
          destruct (i <? m) eqn:E1, (i <? S m) eqn:E2; try reflexivity.
          -- apply Nat.ltb_lt in E1. apply Nat.ltb_ge in E2. lia.
          -- apply Nat.ltb_ge in E1. apply Nat.ltb_lt in E2. lia. }
  destruct (H (num_layers nf) (le_n _)) as (fr & Hfr & Hs & Hc).
  exists fr. split; [assumption|]. split; [assumption|].
  intros i k. rewrite Hc.
  destruct (nth_error (layer_parent_nid nf i) k) as [p|] eqn:Hp; [|reflexivity].
  cbn [option_map]. do 2 f_equal.
  assert (Hi : i < num_layers nf).
  { unfold layer_parent_nid, num_layers in *.
    destruct (le_lt_dec (length (layer_parent_nids nf)) i) as [Hge|]; [|assumption].
    rewrite nth_overflow in Hp by assumption. now destruct k. }
  apply Nat.ltb_lt in Hi. now rewrite Hi.
Qed.

Lemma forward_columns (upd : GraphSageNodeUpdate.t) (r : Row) :
  h r <> None -> h_agg r <> None -> deg r <> None ->
  GraphSageNodeUpdate.forward upd r
  = Some (set_h r (GraphSageNodeUpdate.normalized
                     (GraphSageNodeUpdate.h_new upd (h_of r) (h_agg_of r) (deg_of r)))).
Proof.
  unfold GraphSageNodeUpdate.forward, h_of, h_agg_of, deg_of.
  destruct (h r), (h_agg r), (deg r); intros; try contradiction; reflexivity.
Qed.

Lemma nth_error_set_layer_same (i : nat) (rows rows0 : list Row) (fr : Frames) :
  nth_error fr i = Some rows0 -> nth_error (set_layer i rows fr) i = Some rows.
Proof.
  intros H. rewrite nth_error_set_layer, Nat.eqb_refl.
  assert (Hlt : i < length fr) by (apply nth_error_Some; congruence).
  apply Nat.ltb_lt in Hlt. now rewrite Hlt.
Qed.

(** The second loop, one block: every row of layer [i+1] receives its
    degree, the sum of the [h] of its in-neighbours in layer [i], and the
    normalised update of its own previous [h] by the block of its node
    type.  No other layer changes. *)
Lemma block_step_spec (enc : t) (nf : NodeFlow) (i : nat) (fr : Frames)
    (src_rows dst_rows : list Row) (updU updM : GraphSageNodeUpdate.t) :
  same_shape nf fr ->
  nth_error fr i = Some src_rows ->
  nth_error fr (S i) = Some dst_rows ->
  block_ok nf i = true ->
  (forall u r, nth_error src_rows u = Some r -> h r <> None) ->
  (forall k r, nth_error dst_rows k = Some r -> h r <> None) ->
  nth_error (user_layers enc) i = Some updU ->
  nth_error (movie_layers enc) i = Some updM ->
  block_step enc nf i fr
  = Some (set_layer (S i)
            (imap_from
               (fun v r =>
                  updated_row enc
                    (match type (data r) with USER => updU | MOVIE => updM end)
                    nf i src_rows v r)
               0 dst_rows)
            fr).
Proof.
  intros Hs Hsrc Hdst Hok Hhs Hhd HU HM.
  destruct (same_shape_layer nf fr i src_rows Hs Hsrc) as [Lsrc _].
  destruct (same_shape_layer nf fr (S i) dst_rows Hs Hdst) as [Ldst _].
  unfold block_step, set_layer_deg. rewrite Hdst, assign_deg_imap.
  set (rowsD := imap_from _ 0 dst_rows).
  assert (HrD : nth_error (set_layer (S i) rowsD fr) (S i) = Some rowsD)
    by (now apply (nth_error_set_layer_same (S i) rowsD dst_rows fr)).
  rewrite HrD.
  assert (LD : length rowsD = length dst_rows) by apply length_imap_from.
  unfold layer_nid. rewrite <- Ldst, <- LD.
  set (off := layer_offset nf (S i)).
  set (users := nodes_of_type USER (seq off (length rowsD)) rowsD).
  set (movies := nodes_of_type MOVIE (seq off (length rowsD)) rowsD).
  (* the message sum *)
  unfold block_compute. rewrite HrD.
  assert (Hsrc1 : nth_error (set_layer (S i) rowsD fr) i = Some src_rows).
  { rewrite nth_error_set_layer.
    replace (i =? S i) with false by (symmetry; apply Nat.eqb_neq; lia).
    exact Hsrc. }
  rewrite Hsrc1.
  rewrite (aggregate_rows_imap nf (embedding_size enc) i src_rows rowsD).
  2:{ intros v u Hin.
      pose proof (block_ok_in_neighbors nf i v u Hok Hin) as Hu.
      rewrite <- Lsrc in Hu.
      destruct (nth_error src_rows u) as [r|] eqn:Er;
        [|apply nth_error_None in Er; lia].
      specialize (Hhs u r Er). destruct (h r) as [x|] eqn:Ex; [|contradiction].
      now exists r, x. }
  set (rowsA := imap_from _ 0 rowsD).
  rewrite set_layer_twice.
  assert (HrA : nth_error (set_layer (S i) rowsA fr) (S i) = Some rowsA)
    by (now apply (nth_error_set_layer_same (S i) rowsA dst_rows fr)).
  (* what a row looks like after degree and message sum *)
  assert (HA : forall k rA, nth_error rowsA k = Some rA ->
            exists r0, nth_error dst_rows k = Some r0 /\
              rA = set_h_agg (set_deg r0 (INR (in_degree nf i k)))
                     (sum_messages (embedding_size enc) (messages nf i src_rows k))).
  { intros k rA Hk. subst rowsA rowsD.
    rewrite !nth_error_imap_from in Hk.
    destruct (nth_error dst_rows k) as [r0|]; [|discriminate].
    simpl in Hk. inversion Hk. now exists r0. }
  (* the user rows *)
  rewrite HU.
  rewrite (guarded_apply_layer nf (S i) _
             (fun _ r => set_h r (GraphSageNodeUpdate.normalized
                (GraphSageNodeUpdate.h_new updU (h_of r) (h_agg_of r) (deg_of r))))
             users _ rowsA HrA).
  2:{ intros k rA Hk _. destruct (HA k rA Hk) as (r0 & Hr0 & ->).
      apply forward_columns; simpl; try discriminate. now apply (Hhd k). }
  fold off. set (rowsU := imap_from _ off rowsA).
  rewrite set_layer_twice.
  assert (HrU : nth_error (set_layer (S i) rowsU fr) (S i) = Some rowsU)
    by (now apply (nth_error_set_layer_same (S i) rowsU dst_rows fr)).
  (* the movie rows *)
  rewrite HM.
  rewrite (guarded_apply_layer nf (S i) _
             (fun _ r => set_h r (GraphSageNodeUpdate.normalized
                (GraphSageNodeUpdate.h_new updM (h_of r) (h_agg_of r) (deg_of r))))
             movies _ rowsU HrU).
  2:{ intros k rU Hk _. subst rowsU.
      rewrite nth_error_imap_from in Hk.
      destruct (nth_error rowsA k) as [rA|] eqn:EA; [|discriminate].
      destruct (HA k rA EA) as (r0 & Hr0 & ->).
      simpl in Hk. inversion Hk as [Heq]. clear Hk.
      destruct (existsb _ users); apply forward_columns; simpl;
        try discriminate; now apply (Hhd k). }
  fold off. rewrite set_layer_twice. do 2 f_equal.
  (* row by row *)
  apply nth_error_ext. intros k.
  rewrite nth_error_imap_from. subst rowsU. rewrite nth_error_imap_from.
  destruct (nth_error rowsA k) as [rA|] eqn:EA.
  - destruct (HA k rA EA) as (r0 & Hr0 & ->). rewrite nth_error_imap_from, Hr0.
    assert (HkD : nth_error rowsD k = Some (set_deg r0 (INR (in_degree nf i k)))).
    { subst rowsD. rewrite nth_error_imap_from, Hr0. reflexivity. }
    cbn [option_map]. f_equal. subst users movies.
    rewrite !(existsb_nodes_of_type _ rowsD off k _ HkD). simpl.
    unfold updated_row.
    destruct (type (data r0)); reflexivity.
  - rewrite nth_error_imap_from.
    subst rowsA rowsD. rewrite !nth_error_imap_from in EA.
    destruct (nth_error dst_rows k); [discriminate|reflexivity].
Qed.

Lemma after_blocks_S (enc : t) (ndata : nat -> NData) (nf : NodeFlow) (n : nat) :
  after_blocks enc ndata nf (S n)
  = match after_blocks enc ndata nf n with
    | Some fr => block_step enc nf n fr
    | None => None
    end.
Proof.
  unfold after_blocks. destruct (embedded enc ndata nf) as [fr0|]; [|reflexivity].
  rewrite seq_S, for_each_app. cbn [Nat.add].
  destruct (for_each (block_step enc nf) (seq 0 n) fr0) as [fr|]; [|reflexivity].
  cbn [for_each]. now destruct (block_step enc nf n fr).
Qed.

Lemma cell_some_layer (fr : Frames) (i k : nat) (r : Row) :
  cell fr i k = Some r ->
  exists rows, nth_error fr i = Some rows /\ nth_error rows k = Some r.
Proof.
  unfold cell. destruct (nth_error fr i) as [rows|]; [|discriminate].
  intros H. now exists rows.
Qed.

Section Blocks.

Variable enc : t.
Variable ndata : nat -> NData.
Variable nf : NodeFlow.

Hypothesis Hwf : well_formed nf = true.
Hypothesis HlenU : num_blocks nf <= length (user_layers enc).
Hypothesis HlenM : num_blocks nf <= length (movie_layers enc).

(** The state of the second loop after [n] blocks: the frames exist, every
    row has an [h], and the layers above [n] are as the first loop left
    them. *)
Lemma after_blocks_spec (n : nat) :
  n <= num_blocks nf ->
  exists fr0 fr,
    embedded enc ndata nf = Some fr0 /\
    after_blocks enc ndata nf n = Some fr /\
    same_shape nf fr /\
    (forall j k r, cell fr j k = Some r -> h r <> None) /\
    (forall j k, n < j -> cell fr j k = cell fr0 j k) /\
    (forall k, cell fr 0 k = cell fr0 0 k).
Proof.
  destruct (embedded_spec enc ndata nf) as (fr0 & Hemb & Hs0 & Hc0).
  induction n as [|n IH]; intros Hn.
  - exists fr0, fr0. unfold after_blocks. rewrite Hemb. cbn [seq for_each].
    repeat split; auto.
    intros j k r Hr. rewrite Hc0 in Hr.
    destruct (nth_error (layer_parent_nid nf j) k); [|discriminate].
    inversion Hr. simpl. discriminate.
  - destruct IH as (fr0' & fr & Hemb' & Hfr & Hs & Hh & Hrest & Hzero); [lia|].
    rewrite Hemb in Hemb'. inversion Hemb'; subst fr0'. clear Hemb'.
    unfold num_blocks in *.
    destruct (same_shape_exists nf fr n Hs) as [src_rows Hsrc]; [lia|].
    destruct (same_shape_exists nf fr (S n) Hs) as [dst_rows Hdst]; [lia|].
    destruct (nth_error (user_layers enc) n) as [updU|] eqn:EU;
      [|apply nth_error_None in EU; lia].
    destruct (nth_error (movie_layers enc) n) as [updM|] eqn:EM;
      [|apply nth_error_None in EM; lia].
    assert (Hok : block_ok nf n = true)
      by (apply well_formed_block_ok; [assumption|unfold num_blocks; lia]).
    assert (Hhs : forall u r, nth_error src_rows u = Some r -> h r <> None).
    { intros u r Hr. apply (Hh n u). unfold cell. now rewrite Hsrc. }
    assert (Hhd : forall k r, nth_error dst_rows k = Some r -> h r <> None).
    { intros k r Hr. apply (Hh (S n) k). unfold cell. now rewrite Hdst. }
    exists fr0. eexists. split; [assumption|]. split.
    { rewrite after_blocks_S, Hfr.
      apply (block_step_spec enc nf n fr src_rows dst_rows updU updM);
        assumption. }
    split.
    { apply (same_shape_set_layer nf fr (S n) _ dst_rows Hs Hdst).
      apply length_imap_from. }
    split.
    { intros j k r. destruct (Nat.eq_dec j (S n)) as [->|Hne].
      - rewrite (cell_set_layer_same (S n) k _ dst_rows fr Hdst).
        rewrite nth_error_imap_from.
        destruct (nth_error dst_rows k); [|discriminate].
        intros Hr. inversion Hr. simpl. discriminate.
      - rewrite cell_set_layer_other by assumption. apply Hh. }
    split.
    { intros j k Hj. rewrite cell_set_layer_other by lia. apply Hrest. lia. }
    { intros k. rewrite cell_set_layer_other by lia. apply Hzero. }
Qed.

(** One turn of the second loop, row by row. *)
Lemma after_blocks_step (n : nat) :
  n < num_blocks nf ->
  exists fr fr' src_rows,
    after_blocks enc ndata nf n = Some fr /\
    after_blocks enc ndata nf (S n) = Some fr' /\
    nth_error fr n = Some src_rows /\
    (forall u r, nth_error src_rows u = Some r -> h r <> None) /\
    (forall j k, j <> S n -> cell fr' j k = cell fr j k) /\
    forall k r,
      cell fr (S n) k = Some r ->
      exists upd,
        layer_update enc (type (data r)) n = Some upd /\
        cell fr' (S n) k = Some (updated_row enc upd nf n src_rows k r).
Proof.
  intros Hn.
  destruct (after_blocks_spec n) as (fr0 & fr & Hemb & Hfr & Hs & Hh & Hrest & _);
    [lia|].
  unfold num_blocks in *.
  destruct (same_shape_exists nf fr n Hs) as [src_rows Hsrc]; [lia|].
  destruct (same_shape_exists nf fr (S n) Hs) as [dst_rows Hdst]; [lia|].
  destruct (nth_error (user_layers enc) n) as [updU|] eqn:EU;
    [|apply nth_error_None in EU; lia].
  destruct (nth_error (movie_layers enc) n) as [updM|] eqn:EM;
    [|apply nth_error_None in EM; lia].
  assert (Hok : block_ok nf n = true)
    by (apply well_formed_block_ok; [assumption|unfold num_blocks; lia]).
  assert (Hhs : forall u r, nth_error src_rows u = Some r -> h r <> None).
  { intros u r Hr. apply (Hh n u). unfold cell. now rewrite Hsrc. }
  assert (Hhd : forall k r, nth_error dst_rows k = Some r -> h r <> None).
  { intros k r Hr. apply (Hh (S n) k). unfold cell. now rewrite Hdst. }
  exists fr. eexists. exists src_rows.
  split; [assumption|]. split.
  { rewrite after_blocks_S, Hfr.
    apply (block_step_spec enc nf n fr src_rows dst_rows updU updM); assumption. }
  split; [assumption|]. split; [assumption|]. split.
  { intros j k Hj. now rewrite cell_set_layer_other. }
  intros k r Hr. unfold cell in Hr. rewrite Hdst in Hr.
  exists (match type (data r) with USER => updU | MOVIE => updM end). split.
  - unfold layer_update. now destruct (type (data r)).
  - rewrite (cell_set_layer_same (S n) k _ dst_rows fr Hdst).
    rewrite nth_error_imap_from, Hr. reflexivity.
Qed.

End Blocks.

End EncoderFacts.

(** ** The edge batch iterator *)

Module EdgeSamplingFacts.
Import Py PyFacts EdgeSampling.

Lemma lt_ceil_div (k E B : nat) : 0 < B -> (k < ceil_div E B <-> k * B < E).
Proof.
  intros HB. unfold ceil_div. split; intros H.
  - destruct (le_lt_dec E (k * B)) as [Hle|]; [|assumption].
    exfalso. apply (Nat.lt_irrefl k).
    eapply Nat.lt_le_trans; [exact H|].
    apply Nat.lt_succ_r. apply Nat.Div0.div_lt_upper_bound. lia.
  - apply Nat.lt_le_trans with (m := S k); [lia|].
    apply Nat.div_le_lower_bound; lia.
Qed.

(** The chunks of a list, taken at the starts [range] produces, give the
    list back when put end to end. *)
Lemma concat_chunks_from {A : Type} (B : nat) (l : list A) :
  0 < B ->
  forall fuel i,
    length l - i <= fuel ->
    concat (map (chunk B (length l) l) (range_aux fuel i (length l) B))
    = skipn i l.
Proof.
  intros HB. induction fuel as [|f IH]; intros i Hf; simpl.
  - symmetry. apply skipn_all2. lia.
  - destruct (i <? length l) eqn:Hlt.
    + apply Nat.ltb_lt in Hlt. simpl. rewrite IH by lia.
      unfold chunk, slice.
      destruct (le_lt_dec (length l) (i + B)) as [Hle|Hgt].
      * rewrite Nat.min_r by lia.
        rewrite (skipn_all2 (n := i + B) l) by lia.
        rewrite app_nil_r. apply firstn_all2.
        rewrite length_skipn. lia.
      * rewrite Nat.min_l by lia.
        replace (i + B - i) with B by lia.
        replace (i + B) with (B + i) by lia.
        rewrite <- skipn_skipn. apply firstn_skipn.
    + apply Nat.ltb_ge in Hlt. symmetry. apply skipn_all2. lia.
Qed.

Lemma concat_chunks {A : Type} (B : nat) (l : list A) starts :
  0 < B ->
  range 0 (length l) B = Some starts ->
  concat (map (chunk B (length l) l) starts) = l.
Proof.
  intros HB Hr. unfold range in Hr.
  destruct (B =? 0); [discriminate|]. inversion Hr; subst.
  rewrite concat_chunks_from by lia. reflexivity.
Qed.

Lemma concat_chunks_E {A : Type} (B E : nat) (l : list A) starts :
  0 < B -> length l = E ->
  range 0 E B = Some starts ->
  concat (map (chunk B E l) starts) = l.
Proof. intros HB HE. subst E. now apply concat_chunks. Qed.

(** A chunk holds [B] elements, or what is left of the list. *)
Lemma chunk_length {A : Type} (B : nat) (l : list A) (k : nat) :
  length (chunk B (length l) l (k * B)) = Nat.min B (length l - k * B).
Proof. unfold chunk. rewrite slice_length. lia. Qed.

Section Batches.

Variable batch_size : nat.

(** The batches of the constructor are the chunks of the list shuffled
    twice: [xs_shuffled] is gathered once more along [shuffle_idx]. *)
Lemma make_batches_chunks {A : Type} (E : nat) (shuffle_idx : list nat)
    (xs_shuffled xs_twice : list A) (starts : list nat) :
  gather xs_shuffled shuffle_idx = Some xs_twice ->
  make_batches batch_size E shuffle_idx xs_shuffled starts
  = Some (map (fun i => slice i (Nat.min (i + batch_size) E) xs_twice) starts).
Proof.
  intros Hg. induction starts as [|i starts IH]; simpl; [reflexivity|].
  erewrite gather_slice by exact Hg. rewrite IH. reflexivity.
Qed.

Lemma make_batches_length {A : Type} (E : nat) idx (xs : list A) starts bs :
  make_batches batch_size E idx xs starts = Some bs -> length bs = length starts.
Proof.
  revert bs. induction starts as [|i starts IH]; intros bs H; simpl in H.
  - inversion H. reflexivity.
  - destruct (gather xs _); [|discriminate].
    destruct (make_batches _ _ _ _ starts) as [bs'|]; [|discriminate].
    inversion H. simpl. f_equal. now apply IH.
Qed.

End Batches.

Lemma combine_skipn {A B : Type} (l : list A) (l' : list B) (n : nat) :
  skipn n (combine l l') = combine (skipn n l) (skipn n l').
Proof.
  revert l l'. induction n as [|n IH]; intros [|a l] [|b l']; simpl;
    try reflexivity.
  - now destruct (skipn n l).
  - apply IH.
Qed.

Lemma nth_map_seq {A : Type} (f : nat -> A) (g : nat -> nat) (c k : nat) (d : A) :
  k < c -> nth k (map f (map g (seq 0 c))) d = f (g k).
Proof.
  intros Hk. rewrite map_map.
  rewrite (nth_indep _ d (f (g 0))) by (now rewrite length_map, length_seq).
  rewrite (map_nth (fun x => f (g x))). now rewrite seq_nth.
Qed.

Lemma combine_chunk {A B : Type} (Bs E : nat) (l : list A) (l' : list B) k :
  chunk Bs E (combine l l') k = combine (chunk Bs E l k) (chunk Bs E l' k).
Proof. unfold chunk, slice. now rewrite combine_skipn, combine_firstn. Qed.

Section Iterator.

Variable Rating : Type.
Variable NodeFlowT : Type.
Variable sample_nodeflow : nat -> list nat -> NodeFlowT.
Variable batch_size : nat.

Local Abbreviation init_with := (@init_with Rating NodeFlowT sample_nodeflow batch_size).
Local Abbreviation ES := (EdgeSampler Rating NodeFlowT).

Lemma zip_batches_chunks (E : nat) (s d : list nat) (r : list Rating) starts :
  zip_batches (map (chunk batch_size E s) starts)
              (map (chunk batch_size E d) starts)
              (map (chunk batch_size E r) starts)
  = map (chunk batch_size E (triples s d r)) starts.
Proof.
  induction starts as [|k starts IH]; simpl; [reflexivity|].
  rewrite IH. f_equal. unfold triples. now rewrite !combine_chunk.
Qed.

Lemma interleave_concat_length (ss ds : list (list nat)) :
  length ss = length ds ->
  length (interleave_concat ss ds) = length (concat ss) + length (concat ds).
Proof.
  revert ds. induction ss as [|s ss IH]; intros [|d ds] H; simpl in *;
    try discriminate; [reflexivity|].
  rewrite !length_app, IH by lia. lia.
Qed.

Lemma sample_groups_length k (groups : list (list nat)) :
  length (sample_groups sample_nodeflow k groups) = length groups.
Proof.
  revert k. induction groups as [|g groups IH]; intros k; simpl;
    [reflexivity|]. now rewrite IH.
Qed.

(** DGL's sampler yields one NodeFlow per group of seeds. *)
Lemma NeighborSampler_length (bs : nat) (seeds : list nat) :
  0 < bs ->
  length (NeighborSampler sample_nodeflow bs seeds) = ceil_div (length seeds) bs.
Proof.
  intros Hbs. unfold NeighborSampler, seed_groups.
  rewrite sample_groups_length, range_spec by assumption.
  now rewrite !length_map, length_seq.
Qed.

(** What the constructor builds from a permutation of the edge positions:
    the batches are the chunks of the three arrays gathered twice along
    [shuffle_idx]. *)
Lemma init_with_spec (shuffle_idx : list nat) (E : nat)
    (src dst : list nat) (rating : list Rating) :
  0 < batch_size -> 0 < E ->
  length src = E -> length dst = E -> length rating = E ->
  Permutation shuffle_idx (seq 0 E) ->
  exists src1 dst1 rating1 src2 dst2 rating2 starts,
    gather src shuffle_idx = Some src1 /\
    gather dst shuffle_idx = Some dst1 /\
    gather rating shuffle_idx = Some rating1 /\
    gather src1 shuffle_idx = Some src2 /\
    gather dst1 shuffle_idx = Some dst2 /\
    gather rating1 shuffle_idx = Some rating2 /\
    range 0 E batch_size = Some starts /\
    length starts = ceil_div E batch_size /\
    init_with shuffle_idx E src dst rating
    = Some {| src_batches := map (chunk batch_size E src2) starts;
              dst_batches := map (chunk batch_size E dst2) starts;
              rating_batches := map (chunk batch_size E rating2) starts;
              sampler :=
                NeighborSampler sample_nodeflow (batch_size * 2)
                  (interleave_concat (map (chunk batch_size E src2) starts)
                                     (map (chunk batch_size E dst2) starts));
              i := 0 |}.
Proof.
  intros HB HE Hs Hd Hr Hp.
  assert (Hlen : length shuffle_idx = E)
    by (rewrite (Permutation_length Hp); apply length_seq).
  destruct (gather_permutation_Some src shuffle_idx) as [src1 Hs1];
    [now rewrite Hs|].
  destruct (gather_permutation_Some dst shuffle_idx) as [dst1 Hd1];
    [now rewrite Hd|].
  destruct (gather_permutation_Some rating shuffle_idx) as [rating1 Hr1];
    [now rewrite Hr|].
  pose proof (gather_length _ _ _ Hs1) as Ls1.
  pose proof (gather_length _ _ _ Hd1) as Ld1.
  pose proof (gather_length _ _ _ Hr1) as Lr1.
  destruct (gather_permutation_Some src1 shuffle_idx) as [src2 Hs2];
    [now rewrite Ls1, Hlen|].
  destruct (gather_permutation_Some dst1 shuffle_idx) as [dst2 Hd2];
    [now rewrite Ld1, Hlen|].
  destruct (gather_permutation_Some rating1 shuffle_idx) as [rating2 Hr2];
    [now rewrite Lr1, Hlen|].
  exists src1, dst1, rating1, src2, dst2, rating2.
  exists (map (fun k => k * batch_size) (seq 0 (ceil_div E batch_size))).
  repeat split; try assumption.
  - now apply range_spec.
  - now rewrite length_map, length_seq.
  - unfold EdgeSampling.init_with.
    rewrite Hs1, Hd1, Hr1, (range_spec E _ HB).
    rewrite (make_batches_chunks batch_size E _ _ _ _ Hs2).
    rewrite (make_batches_chunks batch_size E _ _ _ _ Hd2).
    rewrite (make_batches_chunks batch_size E _ _ _ _ Hr2).
    pose proof (ceil_div_pos _ _ HE HB) as Hpos.
    destruct (ceil_div E batch_size) as [|c]; [lia|]. reflexivity.
Qed.

(** The batches of a fresh iterator hold every edge exactly once, each with
    its own rating: put end to end, the batch triples are a rearrangement
    of the edge triples. *)
Lemma batches_partition (shuffle_idx : list nat) (E : nat)
    (src dst : list nat) (rating : list Rating) (es : ES) :
  0 < batch_size -> 0 < E ->
  length src = E -> length dst = E -> length rating = E ->
  Permutation shuffle_idx (seq 0 E) ->
  init_with shuffle_idx E src dst rating = Some es ->
  Permutation (concat (batch_triples es)) (triples src dst rating).
Proof.
  intros HB HE Hs Hd Hr Hp Hinit.
  destruct (init_with_spec shuffle_idx E src dst rating HB HE Hs Hd Hr Hp)
    as (src1 & dst1 & rating1 & src2 & dst2 & rating2 & starts &
        Hs1 & Hd1 & Hr1 & Hs2 & Hd2 & Hr2 & Hrange & _ & Heq).
  rewrite Heq in Hinit. inversion Hinit; subst es; clear Hinit.
  unfold batch_triples; simpl. rewrite zip_batches_chunks.
  pose proof (gather_combine _ _ _ _ _ Hd1 Hr1) as Hdr1.
  pose proof (gather_combine _ _ _ _ _ Hs1 Hdr1) as Ht1.
  pose proof (gather_combine _ _ _ _ _ Hd2 Hr2) as Hdr2.
  pose proof (gather_combine _ _ _ _ _ Hs2 Hdr2) as Ht2.
  fold (triples src dst rating) in Ht1.
  fold (triples src1 dst1 rating1) in Ht1, Ht2.
  fold (triples src2 dst2 rating2) in Ht2.
  assert (LT : length (triples src dst rating) = E)
    by (unfold triples; rewrite !length_combine; lia).
  assert (LT1 : length (triples src1 dst1 rating1) = E).
  { rewrite (gather_length _ _ _ Ht1), (Permutation_length Hp). apply length_seq. }
  assert (LT2 : length (triples src2 dst2 rating2) = E).
  { rewrite (gather_length _ _ _ Ht2), (Permutation_length Hp). apply length_seq. }
  rewrite (concat_chunks_E batch_size E _ starts HB LT2 Hrange).
  apply perm_trans with (l' := triples src1 dst1 rating1).
  - apply (gather_permutation _ shuffle_idx); [now rewrite LT1|assumption].
  - apply (gather_permutation _ shuffle_idx); [now rewrite LT|assumption].
Qed.

(** There are [ceil(E / batch_size)] batches; batch [k] holds
    [min(batch_size, E - k * batch_size)] sources, destinations and ratings,
    that is [batch_size] of each unless it is the last one. *)
Lemma batch_sizes (shuffle_idx : list nat) (E : nat)
    (src dst : list nat) (rating : list Rating) (es : ES) :
  0 < batch_size -> 0 < E ->
  length src = E -> length dst = E -> length rating = E ->
  Permutation shuffle_idx (seq 0 E) ->
  init_with shuffle_idx E src dst rating = Some es ->
  length (src_batches es) = ceil_div E batch_size /\
  length (dst_batches es) = ceil_div E batch_size /\
  length (rating_batches es) = ceil_div E batch_size /\
  forall k, k < ceil_div E batch_size ->
    let n := Nat.min batch_size (E - k * batch_size) in
    length (nth k (src_batches es) []) = n /\
    length (nth k (dst_batches es) []) = n /\
    length (nth k (rating_batches es) []) = n /\
    0 < n /\
    (S k < ceil_div E batch_size -> n = batch_size).
Proof.
  intros HB HE Hs Hd Hr Hp Hinit.
  destruct (init_with_spec shuffle_idx E src dst rating HB HE Hs Hd Hr Hp)
    as (src1 & dst1 & rating1 & src2 & dst2 & rating2 & starts &
        Hs1 & Hd1 & Hr1 & Hs2 & Hd2 & Hr2 & Hrange & Hlen & Heq).
  rewrite Heq in Hinit. inversion Hinit; subst es; clear Hinit. simpl.
  rewrite !length_map. repeat split; try assumption.
  all: rewrite (range_spec E batch_size HB) in Hrange; inversion Hrange; subst starts.
  all: assert (LE : length shuffle_idx = E)
         by (rewrite (Permutation_length Hp); apply length_seq).
  all: pose proof (gather_length _ _ _ Hs1) as Ls1;
       pose proof (gather_length _ _ _ Hd1) as Ld1;
       pose proof (gather_length _ _ _ Hr1) as Lr1;
       pose proof (gather_length _ _ _ Hs2) as Ls2;
       pose proof (gather_length _ _ _ Hd2) as Ld2;
       pose proof (gather_length _ _ _ Hr2) as Lr2.
  1-3: rewrite nth_map_seq by assumption;
       unfold chunk; rewrite slice_length; lia.
  - apply lt_ceil_div in H; [lia|assumption].
  - intros HS. apply lt_ceil_div in HS; [|assumption]. simpl in HS. lia.
Qed.

(** Running the loop on an iterator whose cursor is [m] batches from the
    end yields these [m] batches and stops by [StopIteration], with the
    cursor at the end. *)
Lemma for_loop_run (m : nat) :
  forall es : ES,
    i es + m = length (src_batches es) ->
    length (dst_batches es) = length (src_batches es) ->
    length (rating_batches es) = length (src_batches es) ->
    m <= length (sampler es) ->
    exists bs es',
      for_loop (S m) es = Some (bs, true, es') /\
      length bs = m /\
      i es' = length (src_batches es').
Proof.
  induction m as [|m IH]; intros es Hi Hd Hr Hs.
  - exists [], es. simpl. unfold next.
    replace (i es =? length (src_batches es)) with true
      by (symmetry; apply Nat.eqb_eq; lia).
    repeat split. lia.
  - remember (S m) as fuel eqn:Hfuel. simpl. unfold next.
    replace (i es =? length (src_batches es)) with false
      by (symmetry; apply Nat.eqb_neq; lia).
    destruct (nth_error (src_batches es) (i es)) as [s|] eqn:Es;
      [|apply nth_error_None in Es; lia].
    destruct (nth_error (dst_batches es) (i es)) as [d|] eqn:Ed;
      [|apply nth_error_None in Ed; lia].
    destruct (nth_error (rating_batches es) (i es)) as [r|] eqn:Er;
      [|apply nth_error_None in Er; lia].
    destruct (sampler es) as [|nf rest] eqn:Esam; [simpl in Hs; lia|].
    match goal with
    | |- context [for_loop fuel ?e] => destruct (IH e) as (bs & es' & Hl & Hn & Hc)
    end; simpl in *; try lia.
    subst fuel. rewrite Hl.
    exists ((s, d, r, nf) :: bs), es'. repeat split; simpl; auto.
Qed.

(** An iterator whose cursor is at the end only raises [StopIteration]. *)
Lemma exhausted_stays (es : ES) :
  i es = length (src_batches es) ->
  next es = (StopIteration Rating NodeFlowT, es) /\
  forall fuel, for_loop (S fuel) es = Some ([], true, es).
Proof.
  intros H.
  assert (Hn : next es = (StopIteration Rating NodeFlowT, es)).
  { unfold next. now rewrite H, Nat.eqb_refl. }
  split; [assumption|]. intros fuel. simpl. now rewrite Hn.
Qed.

(** The NodeFlow iterator of a fresh [EdgeSampler] holds as many NodeFlows
    as there are batches: the [2E] seeds are cut in groups of
    [2 * batch_size]. *)
Lemma sampler_length (shuffle_idx : list nat) (E : nat)
    (src dst : list nat) (rating : list Rating) (es : ES) :
  0 < batch_size -> 0 < E ->
  length src = E -> length dst = E -> length rating = E ->
  Permutation shuffle_idx (seq 0 E) ->
  init_with shuffle_idx E src dst rating = Some es ->
  i es = 0 /\ length (sampler es) = ceil_div E batch_size.
Proof.
  intros HB HE Hs Hd Hr Hp Hinit.
  destruct (init_with_spec shuffle_idx E src dst rating HB HE Hs Hd Hr Hp)
    as (src1 & dst1 & rating1 & src2 & dst2 & rating2 & starts &
        Hs1 & Hd1 & Hr1 & Hs2 & Hd2 & Hr2 & Hrange & Hlen & Heq).
  rewrite Heq in Hinit. inversion Hinit; subst es; clear Hinit. simpl.
  split; [reflexivity|].
  assert (LE : length shuffle_idx = E)
    by (rewrite (Permutation_length Hp); apply length_seq).
  assert (Ls2 : length src2 = E) by (now rewrite (gather_length _ _ _ Hs2)).
  assert (Ld2 : length dst2 = E) by (now rewrite (gather_length _ _ _ Hd2)).
  rewrite NeighborSampler_length by lia.
  rewrite interleave_concat_length by (now rewrite !length_map).
  rewrite (concat_chunks_E batch_size E src2 starts HB Ls2 Hrange).
  rewrite (concat_chunks_E batch_size E dst2 starts HB Ld2 Hrange).
  rewrite Ls2, Ld2. apply ceil_div_double.
Qed.

End Iterator.

(** The constructor indexes the shuffled arrays by [shuffle_idx] again.
    Three edges, the permutation [[1; 2; 0]] and [batch_size = 1024]: the
    arrays gathered once are [[0; 1; 0]], [[4; 3; 3]], [[3; 4; 5]], and the
    batch the constructor stores is [[1; 0; 0]], [[3; 3; 4]], [[4; 5; 3]],
    the arrays gathered along the permutation applied twice. *)
Lemma EdgeSampler_batches_shuffled_twice :
  let shuffle_idx := [1; 2; 0] in
  let src := [0; 0; 1] in
  let dst := [3; 4; 3] in
  let rating := [5; 3; 4] in
  gather src shuffle_idx = Some [0; 1; 0] /\
  gather dst shuffle_idx = Some [4; 3; 3] /\
  gather rating shuffle_idx = Some [3; 4; 5] /\
  chunk 1024 3 [0; 1; 0] 0 = [0; 1; 0] /\
  exists es,
    init_with (fun _ seeds => seeds) 1024 shuffle_idx 3 src dst rating = Some es /\
    src_batches es = [[1; 0; 0]] /\
    dst_batches es = [[3; 3; 4]] /\
    rating_batches es = [[4; 5; 3]] /\
    src_batches es <> [chunk 1024 3 [0; 1; 0] 0].
Proof.
  cbv zeta. repeat split.
  eexists. split; [reflexivity|]. simpl. repeat split. discriminate.
Qed.

(** Two epochs in a row draw two different permutations from the random
    state, and visit the edges in two different orders. *)
Example epochs_reshuffle :
  exists b1 b2 rs',
    epochs (fun _ seeds => seeds) 2 2 [1; 0; 0; 2; 0; 0] 3 [0; 0; 1] [3; 4; 3] [5; 3; 4]
    = (Some [b1; b2], rs') /\
    map (fun b => fst (fst (fst b))) b1 <> map (fun b => fst (fst (fst b))) b2.
Proof.
  do 3 eexists. split; [reflexivity|]. simpl. discriminate.
Qed.

End EdgeSamplingFacts.

(** ** The claims about the encoder *)

Module EncoderClaims.
Import Tensor Graph GraphFacts GraphSageEncoder EncoderFacts TensorFacts.

Lemma column_h_spec (rows : list Row) :
  (forall k r, nth_error rows k = Some r -> h r <> None) ->
  column_h rows = Some (map h_of rows).
Proof.
  induction rows as [|r rows IH]; intros H; simpl; [reflexivity|].
  rewrite IH by (intros k r' Hk; apply (H (S k)); exact Hk).
  pose proof (H 0 r eq_refl) as Hr. unfold h_of.
  destruct (h r); [reflexivity|contradiction].
Qed.

(** Everything the second loop does to row [k] of layer [n+1]. *)
Lemma block_row (enc : t) (ndata : nat -> NData) (nf : NodeFlow) (n k : nat) :
  well_formed nf = true ->
  num_blocks nf <= length (user_layers enc) ->
  num_blocks nf <= length (movie_layers enc) ->
  n < num_blocks nf ->
  k < layer_size nf (S n) ->
  exists fr0 fr fr' src_rows p upd,
    embedded enc ndata nf = Some fr0 /\
    after_blocks enc ndata nf n = Some fr /\
    after_blocks enc ndata nf (S n) = Some fr' /\
    nth_error fr n = Some src_rows /\
    nth_error (layer_parent_nid nf (S n)) k = Some p /\
    let r := {| data := ndata p;
                h := Some (initial_embedding enc (layer_offset nf (S n) + k) (ndata p));
                h_agg := None;
                deg := None |} in
    cell fr0 (S n) k = Some r /\
    cell fr (S n) k = Some r /\
    layer_update enc (type (ndata p)) n = Some upd /\
    cell fr' (S n) k = Some (updated_row enc upd nf n src_rows k r) /\
    read_h src_rows (in_neighbors nf n k) = Some (messages nf n src_rows k) /\
    (forall j, cell fr' 0 j = cell fr0 0 j) /\
    (forall j m, j <> S n -> cell fr' j m = cell fr j m).
Proof.
  intros Hwf HU HM Hn Hk.
  destruct (embedded_spec enc ndata nf) as (fr0 & Hemb & Hs0 & Hc0).
  destruct (after_blocks_spec enc ndata nf Hwf HU HM n)
    as (fr0a & fr & Hemb_a & Hfr & Hs & Hh & Hrest & _); [lia|].
  destruct (after_blocks_spec enc ndata nf Hwf HU HM (S n))
    as (fr0b & fr' & Hemb_b & Hfr' & _ & _ & _ & Hzero); [lia|].
  rewrite Hemb in Hemb_a, Hemb_b.
  inversion Hemb_a; subst fr0a. inversion Hemb_b; subst fr0b.
  destruct (after_blocks_step enc ndata nf Hwf HU HM n Hn)
    as (fr1 & fr1' & src_rows & Hfr1 & Hfr1' & Hsrc & Hhs & Hother & Hrow).
  rewrite Hfr in Hfr1. inversion Hfr1; subst fr1.
  rewrite Hfr' in Hfr1'. inversion Hfr1'; subst fr1'.
  destruct (nth_error (layer_parent_nid nf (S n)) k) as [p|] eqn:Hp;
    [|apply nth_error_None in Hp; unfold layer_size in Hk; lia].
  pose proof (Hc0 (S n) k) as Hcell0. rewrite Hp in Hcell0. cbn [option_map] in Hcell0.
  pose proof (Hrest (S n) k (Nat.lt_succ_diag_r n)) as Hcell. rewrite Hcell0 in Hcell.
  destruct (Hrow k _ Hcell) as (upd & Hupd & Hcell').
  exists fr0, fr, fr', src_rows, p, upd.
  repeat (split; [first [assumption|reflexivity]|]). cbn zeta.
  repeat (split; [assumption|]).
  split; [|split; assumption].
  apply read_h_messages. intros u Hin.
  assert (Hok : block_ok nf n = true) by (now apply well_formed_block_ok).
  pose proof (block_ok_in_neighbors nf n k u Hok Hin) as Hu.
  destruct (same_shape_layer nf fr n src_rows Hs Hsrc) as [Lsrc _].
  rewrite <- Lsrc in Hu.
  destruct (nth_error src_rows u) as [r|] eqn:Er;
    [|apply nth_error_None in Er; lia].
  pose proof (Hhs u r Er) as Hr. destruct (h r) as [x|] eqn:Ex; [|contradiction].
  now exists r, x.
Qed.

(** C10.  Before any block is processed the encoder has stored, as [h], the
    initial embedding of every row of every layer of the NodeFlow.  When
    block [n] is processed, the row of layer [n+1] still holds that value:
    the [h] that enters the concatenation of its update is the row's
    initial embedding, whatever earlier blocks have computed. *)
Theorem update_reads_initial_embedding (enc : t) (ndata : nat -> NData)
    (nf : NodeFlow) (n k : nat) :
  well_formed nf = true ->
  num_blocks nf <= length (user_layers enc) ->
  num_blocks nf <= length (movie_layers enc) ->
  n < num_blocks nf ->
  k < layer_size nf (S n) ->
  exists fr0 fr fr' src_rows p upd r',
    embedded enc ndata nf = Some fr0 /\
    (forall i j q,
        nth_error (layer_parent_nid nf i) j = Some q ->
        exists r0,
          cell fr0 i j = Some r0 /\
          h r0 = Some (initial_embedding enc (layer_offset nf i + j) (ndata q))) /\
    after_blocks enc ndata nf n = Some fr /\
    after_blocks enc ndata nf (S n) = Some fr' /\
    nth_error fr n = Some src_rows /\
    nth_error (layer_parent_nid nf (S n)) k = Some p /\
    cell fr (S n) k = cell fr0 (S n) k /\
    layer_update enc (type (ndata p)) n = Some upd /\
    cell fr' (S n) k = Some r' /\
    h r' = Some (GraphSageNodeUpdate.normalized
                   (GraphSageNodeUpdate.h_new upd
                      (initial_embedding enc (layer_offset nf (S n) + k) (ndata p))
                      (sum_messages (embedding_size enc) (messages nf n src_rows k))
                      (INR (in_degree nf n k)))).
Proof.
  intros Hwf HU HM Hn Hk.
  destruct (block_row enc ndata nf n k Hwf HU HM Hn Hk)
    as (fr0 & fr & fr' & src_rows & p & upd & Hemb & Hfr & Hfr' & Hsrc & Hp &
        Hc0 & Hc & Hupd & Hc' & _).
  cbn zeta in *.
  exists fr0, fr, fr', src_rows, p, upd. eexists.
  split; [assumption|]. split.
  { destruct (embedded_spec enc ndata nf) as (fr0' & Hemb' & _ & Hcells).
    rewrite Hemb in Hemb'. inversion Hemb'; subst fr0'.
    intros i j q Hq. rewrite Hcells, Hq. cbn [option_map].
    eexists. split; reflexivity. }
  repeat (split; [assumption|]).
  split; [now rewrite Hc, Hc0|].
  split; [assumption|]. split; [exact Hc'|]. reflexivity.
Qed.

(** C3.  When block [n] is processed, the row [k] of layer [n+1] receives
    as [h_agg] the sum of the embeddings that its in-neighbours of layer
    [n] hold at that moment, as [deg] the number of these in-neighbours,
    and as [h] the normalised value of
    [LeakyReLU(W(concat(h_prev, h_agg / max(deg, eps))))], [W] being the
    dense layer of block [n] for the node type of the row.  The sum is
    elementwise. *)
Theorem node_update_formula (enc : t) (ndata : nat -> NData)
    (nf : NodeFlow) (n k : nat) :
  well_formed nf = true ->
  num_blocks nf <= length (user_layers enc) ->
  num_blocks nf <= length (movie_layers enc) ->
  n < num_blocks nf ->
  k < layer_size nf (S n) ->
  exists fr fr' src_rows r r' upd msgs h_prev,
    after_blocks enc ndata nf n = Some fr /\
    after_blocks enc ndata nf (S n) = Some fr' /\
    nth_error fr n = Some src_rows /\
    cell fr (S n) k = Some r /\
    cell fr' (S n) k = Some r' /\
    read_h src_rows (in_neighbors nf n k) = Some msgs /\
    h r = Some h_prev /\
    layer_update enc (type (data r)) n = Some upd /\
    h_agg r' = Some (sum_messages (embedding_size enc) msgs) /\
    (Forall (fun m => length m = embedding_size enc) msgs ->
     forall j, nth j (sum_messages (embedding_size enc) msgs) 0%R
               = fold_right Rplus 0%R (map (fun m => nth j m 0%R) msgs)) /\
    deg r' = Some (INR (length (in_neighbors nf n k))) /\
    h r' = Some (GraphSageNodeUpdate.normalized
                   (LeakyReLU slope
                      (dense (GraphSageNodeUpdate.W upd)
                         (h_prev ++
                          vdiv (sum_messages (embedding_size enc) msgs)
                               (Rmax (INR (length (in_neighbors nf n k))) eps))))).
Proof.
  intros Hwf HU HM Hn Hk.
  destruct (block_row enc ndata nf n k Hwf HU HM Hn Hk)
    as (fr0 & fr & fr' & src_rows & p & upd & Hemb & Hfr & Hfr' & Hsrc & Hp &
        Hc0 & Hc & Hupd & Hc' & Hread & _).
  cbn zeta in *.
  exists fr, fr', src_rows. do 2 eexists.
  exists upd, (messages nf n src_rows k). eexists.
  split; [assumption|]. split; [assumption|]. split; [assumption|].
  split; [exact Hc|]. split; [exact Hc'|]. split; [assumption|].
  split; [reflexivity|]. split; [exact Hupd|]. split; [reflexivity|].
  split; [intros HF j; now apply sum_messages_entry|].
  split; reflexivity.
Qed.


(** The embedding of a user need not be a unit vector. *)
Lemma initial_embedding_not_unit :
  norm (UserEmbedding.forward Example.user_emb_one Example.user_one 0) = 2%R.
Proof.
  unfold UserEmbedding.forward, norm, dot. simpl.
  replace ((1 + (1 + 0 + 0 + 0)) * (1 + (1 + 0 + 0 + 0)) + 0)%R with (2 * 2)%R by ring.
  apply sqrt_square. lra.
Qed.

(** C4.  The [h] stored by the update of block [n] is the updated row
    divided by the larger of its norm and [eps]; when the norm exceeds
    [eps] the stored row has norm 1.  The embeddings stored by the first
    loop are the sums as computed, and layer 0, which no block updates,
    keeps them; such a sum can have norm 2. *)
Theorem post_update_embedding_unit_norm (enc : t) (ndata : nat -> NData)
    (nf : NodeFlow) (n k : nat) :
  well_formed nf = true ->
  num_blocks nf <= length (user_layers enc) ->
  num_blocks nf <= length (movie_layers enc) ->
  n < num_blocks nf ->
  k < layer_size nf (S n) ->
  exists fr0 fr fr' src_rows r r' upd x,
    embedded enc ndata nf = Some fr0 /\
    after_blocks enc ndata nf n = Some fr /\
    after_blocks enc ndata nf (S n) = Some fr' /\
    nth_error fr n = Some src_rows /\
    cell fr (S n) k = Some r /\
    cell fr' (S n) k = Some r' /\
    layer_update enc (type (data r)) n = Some upd /\
    x = GraphSageNodeUpdate.h_new upd (h_of r)
          (sum_messages (embedding_size enc) (messages nf n src_rows k))
          (INR (in_degree nf n k)) /\
    h r' = Some (vdiv x (Rmax (norm x) eps)) /\
    ((eps < norm x)%R -> norm (vdiv x (Rmax (norm x) eps)) = 1%R) /\
    (forall i j q,
        nth_error (layer_parent_nid nf i) j = Some q ->
        exists r0,
          cell fr0 i j = Some r0 /\
          h r0 = Some (initial_embedding enc (layer_offset nf i + j) (ndata q))) /\
    (forall j, cell fr' 0 j = cell fr0 0 j) /\
    norm (UserEmbedding.forward Example.user_emb_one Example.user_one 0) = 2%R.
Proof.
  intros Hwf HU HM Hn Hk.
  destruct (block_row enc ndata nf n k Hwf HU HM Hn Hk)
    as (fr0 & fr & fr' & src_rows & p & upd & Hemb & Hfr & Hfr' & Hsrc & Hp &
        Hc0 & Hc & Hupd & Hc' & Hread & Hzero & _).
  cbn zeta in *.
  exists fr0, fr, fr', src_rows. do 2 eexists. exists upd. eexists.
  split; [assumption|]. split; [assumption|]. split; [assumption|].
  split; [assumption|]. split; [exact Hc|]. split; [exact Hc'|].
  split; [exact Hupd|]. split; [reflexivity|]. split; [reflexivity|].
  split; [apply norm_normalized|]. split.
  { destruct (embedded_spec enc ndata nf) as (fr0' & Hemb' & _ & Hcells).
    rewrite Hemb in Hemb'. inversion Hemb'; subst fr0'.
    intros i j q Hq. rewrite Hcells, Hq. cbn [option_map].
    eexists. split; reflexivity. }
  split; [assumption|apply initial_embedding_not_unit].
Qed.

(** C2.  The second loop starts from the frames of the first loop and
    processes block 0, then block 1, and so on up to the last block.  Block
    [n] reads the rows of layer [n] as the blocks before it left them and
    rewrites every row of layer [n+1], and no other layer, with the update
    of that row: the computation moves from the input layer, the sampled
    nodes farthest from the seeds, towards the seed layer.  The result is
    the column [h] of the seed layer after all the blocks: one row for each
    seed node, none missing and none added; when there is a block, row [k]
    is the update that the last block computed for seed [k] from the rows
    of the layer before. *)
Theorem forward_output_on_seeds (enc : t) (ndata : nat -> NData) (nf : NodeFlow) :
  well_formed nf = true ->
  num_blocks nf <= length (user_layers enc) ->
  num_blocks nf <= length (movie_layers enc) ->
  0 < num_layers nf ->
  exists frL out,
    after_blocks enc ndata nf 0 = embedded enc ndata nf /\
    after_blocks enc ndata nf (num_blocks nf) = Some frL /\
    forward enc ndata nf = Some out /\
    length out = length (seed_nodes nf) /\
    map fst (embedding_mapping nf out) = seed_nodes nf /\
    (forall k, k < length (seed_nodes nf) ->
       exists r x,
         cell frL (num_layers nf - 1) k = Some r /\
         h r = Some x /\
         nth_error out k = Some x) /\
    (forall n, n < num_blocks nf ->
       exists fr fr' src_rows,
         after_blocks enc ndata nf n = Some fr /\
         block_step enc nf n fr = Some fr' /\
         after_blocks enc ndata nf (S n) = Some fr' /\
         nth_error fr n = Some src_rows /\
         (forall j k, j <> S n -> cell fr' j k = cell fr j k) /\
         (forall k, k < layer_size nf (S n) ->
            exists r upd,
              cell fr (S n) k = Some r /\
              layer_update enc (type (data r)) n = Some upd /\
              cell fr' (S n) k = Some (updated_row enc upd nf n src_rows k r))) /\
    (0 < num_blocks nf ->
     forall k p, nth_error (seed_nodes nf) k = Some p ->
       exists fr src_rows upd,
         after_blocks enc ndata nf (num_blocks nf - 1) = Some fr /\
         nth_error fr (num_blocks nf - 1) = Some src_rows /\
         layer_update enc (type (ndata p)) (num_blocks nf - 1) = Some upd /\
         nth_error out k
         = Some (GraphSageNodeUpdate.normalized
                   (GraphSageNodeUpdate.h_new upd
                      (initial_embedding enc (layer_offset nf (num_blocks nf) + k)
                         (ndata p))
                      (sum_messages (embedding_size enc)
                         (messages nf (num_blocks nf - 1) src_rows k))
                      (INR (in_degree nf (num_blocks nf - 1) k))))).
Proof.
  intros Hwf HU HM HL.
  destruct (after_blocks_spec enc ndata nf Hwf HU HM (num_blocks nf) (le_n _))
    as (fr0 & frL & Hemb & HfrL & Hs & Hh & _ & _).
  destruct (same_shape_exists nf frL (num_layers nf - 1) Hs) as [rows Hrows];
    [lia|].
  destruct (same_shape_layer nf frL _ rows Hs Hrows) as [Lrows _].
  assert (Hall : forall k r, nth_error rows k = Some r -> h r <> None).
  { intros k r Hr. apply (Hh (num_layers nf - 1) k). unfold cell. now rewrite Hrows. }
  assert (Lout : length (map h_of rows) = length (seed_nodes nf)).
  { rewrite length_map. exact Lrows. }
  assert (Hout : forall k, k < length (seed_nodes nf) ->
            exists r x,
              cell frL (num_layers nf - 1) k = Some r /\
              h r = Some x /\
              nth_error (map h_of rows) k = Some x).
  { intros k Hk. unfold cell. rewrite Hrows.
    destruct (nth_error rows k) as [r|] eqn:Er.
    - pose proof (Hall k r Er) as Hr.
      destruct (h r) as [x|] eqn:Ex; [|contradiction].
      exists r, x. split; [reflexivity|]. split; [assumption|].
      rewrite nth_error_map, Er. cbn [option_map]. unfold h_of.
      rewrite Ex. reflexivity.
    - apply nth_error_None in Er. unfold seed_nodes in Hk.
      unfold layer_size in Lrows. lia. }
  exists frL, (map h_of rows).
  split.
  { unfold after_blocks. destruct (embedded enc ndata nf); reflexivity. }
  split; [assumption|]. split.
  { unfold forward. rewrite HfrL, Hrows. now apply column_h_spec. }
  split; [assumption|]. split.
  { unfold embedding_mapping.
    remember (seed_nodes nf) as seeds. remember (map h_of rows) as out.
    clear - Lout. revert out Lout.
    induction seeds as [|s seeds IH]; intros [|o out] H; simpl in *;
      try discriminate; [reflexivity|]. f_equal. apply IH. lia. }
  split; [exact Hout|]. split.
  { intros n Hn.
    destruct (after_blocks_step enc ndata nf Hwf HU HM n Hn)
      as (fr & fr' & src_rows & Hfr & Hfr' & Hsrc & _ & Hother & _).
    exists fr, fr', src_rows. split; [assumption|]. split.
    { rewrite after_blocks_S, Hfr in Hfr'. exact Hfr'. }
    split; [assumption|]. split; [assumption|]. split; [assumption|].
    intros k Hk.
    destruct (block_row enc ndata nf n k Hwf HU HM Hn Hk)
      as (fr0b & frb & frb' & srcb & p & upd & _ & Hfrb & Hfrb' & Hsrcb & Hp &
          _ & Hc & Hupd & Hc' & _).
    cbn zeta in *.
    rewrite Hfr in Hfrb. inversion Hfrb; subst frb.
    rewrite Hfr' in Hfrb'. inversion Hfrb'; subst frb'.
    rewrite Hsrc in Hsrcb. inversion Hsrcb; subst srcb.
    eexists. exists upd. split; [exact Hc|]. split; [exact Hupd|exact Hc']. }
  intros Hpos k p Hp.
  assert (Hk : k < length (seed_nodes nf))
    by (apply nth_error_Some; congruence).
  assert (Hn : num_blocks nf - 1 < num_blocks nf) by lia.
  assert (HS : S (num_blocks nf - 1) = num_blocks nf) by lia.
  assert (HLn : num_layers nf - 1 = num_blocks nf) by reflexivity.
  unfold seed_nodes in Hk, Hp. rewrite HLn in Hk, Hp.
  assert (Hk' : k < layer_size nf (S (num_blocks nf - 1)))
    by (rewrite HS; exact Hk).
  destruct (block_row enc ndata nf (num_blocks nf - 1) k Hwf HU HM Hn Hk')
    as (fr0b & fr & fr' & src_rows & q & upd & _ & Hfr & Hfr' & Hsrc & Hq &
        _ & _ & Hupd & Hc' & _).
  cbn zeta in *. rewrite HS in Hfr', Hq, Hc'.
  rewrite Hp in Hq. inversion Hq; subst q.
  rewrite HfrL in Hfr'. inversion Hfr'; subst fr'.
  exists fr, src_rows, upd.
  split; [assumption|]. split; [assumption|]. split; [exact Hupd|].
  destruct (Hout k) as (r & x & Hr & Hx & Hnth);
    [unfold seed_nodes; rewrite HLn; exact Hk|].
  rewrite HLn, Hc' in Hr. inversion Hr; subst r.
  rewrite Hnth. cbn [updated_row h] in Hx. rewrite <- Hx.
  unfold h_of. cbn [h]. reflexivity.
Qed.

(** C10 on the NodeFlow of one seed with two neighbours and a self-loop. *)
Lemma update_reads_initial_embedding_witness :
  exists fr0 fr fr' src_rows p upd r',
    embedded Example.encoder Example.ndata Example.nf = Some fr0 /\
    (forall i j q,
        nth_error (layer_parent_nid Example.nf i) j = Some q ->
        exists r0,
          cell fr0 i j = Some r0 /\
          h r0 = Some (initial_embedding Example.encoder
                         (layer_offset Example.nf i + j) (Example.ndata q))) /\
    after_blocks Example.encoder Example.ndata Example.nf 0 = Some fr /\
    after_blocks Example.encoder Example.ndata Example.nf (S 0) = Some fr' /\
    nth_error fr 0 = Some src_rows /\
    nth_error (layer_parent_nid Example.nf (S 0)) 0 = Some p /\
    cell fr (S 0) 0 = cell fr0 (S 0) 0 /\
    layer_update Example.encoder (type (Example.ndata p)) 0 = Some upd /\
    cell fr' (S 0) 0 = Some r' /\
    h r' = Some (GraphSageNodeUpdate.normalized
                   (GraphSageNodeUpdate.h_new upd
                      (initial_embedding Example.encoder
                         (layer_offset Example.nf (S 0) + 0) (Example.ndata p))
                      (sum_messages (embedding_size Example.encoder)
                         (messages Example.nf 0 src_rows 0))
                      (INR (in_degree Example.nf 0 0)))).
Proof.
  apply (update_reads_initial_embedding Example.encoder Example.ndata Example.nf 0 0);
    [reflexivity | vm_compute; lia | vm_compute; lia | vm_compute; lia
    | vm_compute; lia].
Defined.

(** C3 on the NodeFlow of one seed with two neighbours and a self-loop. *)
Lemma node_update_formula_witness :
  exists fr fr' src_rows r r' upd msgs h_prev,
    after_blocks Example.encoder Example.ndata Example.nf 0 = Some fr /\
    after_blocks Example.encoder Example.ndata Example.nf (S 0) = Some fr' /\
    nth_error fr 0 = Some src_rows /\
    cell fr (S 0) 0 = Some r /\
    cell fr' (S 0) 0 = Some r' /\
    read_h src_rows (in_neighbors Example.nf 0 0) = Some msgs /\
    h r = Some h_prev /\
    layer_update Example.encoder (type (data r)) 0 = Some upd /\
    h_agg r' = Some (sum_messages (embedding_size Example.encoder) msgs) /\
    (Forall (fun m => length m = embedding_size Example.encoder) msgs ->
     forall j, nth j (sum_messages (embedding_size Example.encoder) msgs) 0%R
               = fold_right Rplus 0%R (map (fun m => nth j m 0%R) msgs)) /\
    deg r' = Some (INR (length (in_neighbors Example.nf 0 0))) /\
    h r' = Some (GraphSageNodeUpdate.normalized
                   (LeakyReLU slope
                      (dense (GraphSageNodeUpdate.W upd)
                         (h_prev ++
                          vdiv (sum_messages (embedding_size Example.encoder) msgs)
                               (Rmax (INR (length (in_neighbors Example.nf 0 0))) eps))))).
Proof.
  apply (node_update_formula Example.encoder Example.ndata Example.nf 0 0);
    [reflexivity | vm_compute; lia | vm_compute; lia | vm_compute; lia
    | vm_compute; lia].
Defined.

(** C4 on the NodeFlow of one seed with two neighbours and a self-loop. *)
Lemma post_update_embedding_unit_norm_witness :
  exists fr0 fr fr' src_rows r r' upd x,
    embedded Example.encoder Example.ndata Example.nf = Some fr0 /\
    after_blocks Example.encoder Example.ndata Example.nf 0 = Some fr /\
    after_blocks Example.encoder Example.ndata Example.nf (S 0) = Some fr' /\
    nth_error fr 0 = Some src_rows /\
    cell fr (S 0) 0 = Some r /\
    cell fr' (S 0) 0 = Some r' /\
    layer_update Example.encoder (type (data r)) 0 = Some upd /\
    x = GraphSageNodeUpdate.h_new upd (h_of r)
          (sum_messages (embedding_size Example.encoder)
             (messages Example.nf 0 src_rows 0))
          (INR (in_degree Example.nf 0 0)) /\
    h r' = Some (vdiv x (Rmax (norm x) eps)) /\
    ((eps < norm x)%R -> norm (vdiv x (Rmax (norm x) eps)) = 1%R) /\
    (forall i j q,
        nth_error (layer_parent_nid Example.nf i) j = Some q ->
        exists r0,
          cell fr0 i j = Some r0 /\
          h r0 = Some (initial_embedding Example.encoder
                         (layer_offset Example.nf i + j) (Example.ndata q))) /\
    (forall j, cell fr' 0 j = cell fr0 0 j) /\
    norm (UserEmbedding.forward Example.user_emb_one Example.user_one 0) = 2%R.
Proof.
  apply (post_update_embedding_unit_norm Example.encoder Example.ndata Example.nf 0 0);
    [reflexivity | vm_compute; lia | vm_compute; lia | vm_compute; lia
    | vm_compute; lia].
Defined.


(** C2 on the NodeFlow of one seed with two neighbours and a self-loop. *)
Lemma forward_output_on_seeds_witness :
  exists frL out,
    after_blocks Example.encoder Example.ndata Example.nf 0
    = embedded Example.encoder Example.ndata Example.nf /\
    after_blocks Example.encoder Example.ndata Example.nf (num_blocks Example.nf)
    = Some frL /\
    forward Example.encoder Example.ndata Example.nf = Some out /\
    length out = length (seed_nodes Example.nf) /\
    map fst (embedding_mapping Example.nf out) = seed_nodes Example.nf /\
    (forall k, k < length (seed_nodes Example.nf) ->
       exists r x,
         cell frL (num_layers Example.nf - 1) k = Some r /\
         h r = Some x /\
         nth_error out k = Some x) /\
    (forall n, n < num_blocks Example.nf ->
       exists fr fr' src_rows,
         after_blocks Example.encoder Example.ndata Example.nf n = Some fr /\
         block_step Example.encoder Example.nf n fr = Some fr' /\
         after_blocks Example.encoder Example.ndata Example.nf (S n) = Some fr' /\
         nth_error fr n = Some src_rows /\
         (forall j k, j <> S n -> cell fr' j k = cell fr j k) /\
         (forall k, k < layer_size Example.nf (S n) ->
            exists r upd,
              cell fr (S n) k = Some r /\
              layer_update Example.encoder (type (data r)) n = Some upd /\
              cell fr' (S n) k
              = Some (updated_row Example.encoder upd Example.nf n src_rows k r))) /\
    (0 < num_blocks Example.nf ->
     forall k p, nth_error (seed_nodes Example.nf) k = Some p ->
       exists fr src_rows upd,
         after_blocks Example.encoder Example.ndata Example.nf
           (num_blocks Example.nf - 1) = Some fr /\
         nth_error fr (num_blocks Example.nf - 1) = Some src_rows /\
         layer_update Example.encoder (type (Example.ndata p))
           (num_blocks Example.nf - 1) = Some upd /\
         nth_error out k
         = Some (GraphSageNodeUpdate.normalized
                   (GraphSageNodeUpdate.h_new upd
                      (initial_embedding Example.encoder
                         (layer_offset Example.nf (num_blocks Example.nf) + k)
                         (Example.ndata p))
                      (sum_messages (embedding_size Example.encoder)
                         (messages Example.nf (num_blocks Example.nf - 1) src_rows k))
                      (INR (in_degree Example.nf (num_blocks Example.nf - 1) k))))).
Proof.
  apply (forward_output_on_seeds Example.encoder Example.ndata Example.nf);
    [reflexivity | vm_compute; lia | vm_compute; lia | vm_compute; lia].
Defined.

End EncoderClaims.

(** ** The claims about the embeddings and the decoder *)

Module ModelClaims.
Import Tensor Graph GraphFacts GraphSageEncoder EncoderFacts TensorFacts Py PyFacts.

Local Open Scope R_scope.

Lemma leaky_neg (x : R) : x <= 0 -> leaky slope x = slope * x.
Proof.
  intros H. unfold leaky. destruct (Rlt_dec 0 x) as [Hlt|]; [lra|reflexivity].
Qed.

(** With a genre projection that is negative before the rectifier, the
    embedding of a movie is not the node vector plus the year vector plus
    the dense projection of the genres. *)
Lemma movie_embedding_is_not_linear_projection :
  MovieEmbedding.forward Example.movie_emb_neg Example.movie_neg 0
  <> vadd (embed (MovieEmbedding.node_emb Example.movie_emb_neg) (0 + 1))
          (vadd (embed (MovieEmbedding.emb_year Example.movie_emb_neg)
                       (year Example.movie_neg))
                (dense (MovieEmbedding.proj_genre_dense Example.movie_emb_neg)
                       (genre Example.movie_neg))).
Proof.
  unfold MovieEmbedding.forward, MovieEmbedding.proj_genre, LeakyReLU, dense.
  simpl. unfold dot, sum_entries. simpl.
  rewrite leaky_neg by lra. unfold slope.
  intros H. inversion H as [Heq]. lra.
Qed.

(** The first loop, cell by cell: the id handed to the embedding blocks is
    the id of the row inside the NodeFlow ([nf.layer_nid]). *)
Lemma embedded_cell (enc : t) (ndata : nat -> NData) (nf : NodeFlow) :
  exists fr0,
    embedded enc ndata nf = Some fr0 /\
    forall i k p,
      nth_error (layer_parent_nid nf i) k = Some p ->
      cell fr0 i k
      = Some {| data := ndata p;
                h := Some (initial_embedding enc (layer_offset nf i + k) (ndata p));
                h_agg := None;
                deg := None |}.
Proof.
  destruct (embedded_spec enc ndata nf) as (fr0 & Hemb & _ & Hcells).
  exists fr0. split; [assumption|].
  intros i k p Hp. now rewrite Hcells, Hp.
Qed.

(** Node 0 of the parent graph sits in row 2 of layer 0 and in row 0 of
    layer 1 of the example NodeFlow, and is embedded with the ids 2 and
    3. *)
Lemma embedding_id_is_nodeflow_id :
  exists fr0 r r',
    embedded Example.encoder Example.ndata Example.nf = Some fr0 /\
    nth_error (layer_parent_nid Example.nf 0) 2 = Some 0%nat /\
    nth_error (layer_parent_nid Example.nf 1) 0 = Some 0%nat /\
    cell fr0 0 2 = Some r /\
    cell fr0 1 0 = Some r' /\
    h r = Some (initial_embedding Example.encoder 2 (Example.ndata 0)) /\
    h r' = Some (initial_embedding Example.encoder 3 (Example.ndata 0)).
Proof.
  destruct (embedded_cell Example.encoder Example.ndata Example.nf)
    as (fr0 & Hemb & Hcells).
  exists fr0. do 2 eexists.
  split; [assumption|]. split; [reflexivity|]. split; [reflexivity|].
  split; [now apply (Hcells 0%nat 2%nat 0%nat)|].
  split; [now apply (Hcells 1%nat 0%nat 0%nat)|].
  split; reflexivity.
Qed.

(** C6 as stated fails twice.  On the movie side the genre term is not a
    linear projection: it goes through a leaky rectifier.  And the node
    vector is not looked up by node id: node 0 of the parent graph, the seed
    of the example NodeFlow, gets the row of the node table that belongs to
    id 3, its position inside the NodeFlow, so that its embedding is
    [[3; 4]] and not the [[3; 3]] that the embedding block returns for
    id 0. *)
Lemma initial_embedding_is_not_as_claimed :
  MovieEmbedding.forward Example.movie_emb_neg Example.movie_neg 0
  <> vadd (embed (MovieEmbedding.node_emb Example.movie_emb_neg) (0 + 1))
          (vadd (embed (MovieEmbedding.emb_year Example.movie_emb_neg)
                       (year Example.movie_neg))
                (dense (MovieEmbedding.proj_genre_dense Example.movie_emb_neg)
                       (genre Example.movie_neg))) /\
  exists fr0 r,
    embedded Example.encoder Example.ndata Example.nf = Some fr0 /\
    nth_error (seed_nodes Example.nf) 0 = Some 0%nat /\
    cell fr0 1 0 = Some r /\
    h r = Some [3; 4] /\
    UserEmbedding.forward (user_emb Example.encoder) (Example.ndata 0) 0 = [3; 3] /\
    h r <> Some (UserEmbedding.forward (user_emb Example.encoder) (Example.ndata 0) 0).
Proof.
  split; [exact movie_embedding_is_not_linear_projection|].
  destruct (embedded_cell Example.encoder Example.ndata Example.nf)
    as (fr0 & Hemb & Hcells).
  exists fr0. eexists.
  split; [assumption|]. split; [reflexivity|].
  split; [now apply (Hcells 1%nat 0%nat 0%nat)|].
  assert (H3 : initial_embedding Example.encoder 3 (Example.ndata 0) = [3; 4]).
  { unfold initial_embedding, UserEmbedding.forward. simpl.
    repeat f_equal; ring. }
  assert (H0 : UserEmbedding.forward (user_emb Example.encoder) (Example.ndata 0) 0
               = [3; 3]).
  { unfold UserEmbedding.forward. simpl. repeat f_equal; ring. }
  cbn [h].
  change (layer_offset Example.nf 1 + 0)%nat with 3%nat.
  rewrite H0, H3.
  split; [reflexivity|]. split; [reflexivity|].
  intros H. inversion H. lra.
Qed.

Lemma embed_In (table : Embedding) (idx : nat) :
  table <> [] -> In (embed table idx) table.
Proof.
  intros H. unfold embed. apply nth_In.
  destruct table as [|x table]; [contradiction|]. simpl. lia.
Qed.

(** C6, amended.  After the first loop of the encoder every row of every
    layer holds, as [h], the sum of a row of the per-node table and of the
    embeddings of the features of its parent node, by node type: the age,
    gender, occupation and zip vectors of a user; the year vector of a
    movie and the leaky rectifier of the dense projection of its genres.
    The row of the per-node table is the one the embedding layer returns
    for the entry of [nf.layer_nid] of that row, plus one. *)
Theorem initial_embedding_by_type (enc : t) (ndata : nat -> NData) (nf : NodeFlow) :
  UserEmbedding.node_emb (user_emb enc) <> [] ->
  MovieEmbedding.node_emb (movie_emb enc) <> [] ->
  exists fr0,
    embedded enc ndata nf = Some fr0 /\
    forall i k p,
      nth_error (layer_parent_nid nf i) k = Some p ->
      exists r nid e,
        cell fr0 i k = Some r /\
        data r = ndata p /\
        nth_error (layer_nid nf i) k = Some nid /\
        match type (ndata p) with
        | USER =>
            let ue := user_emb enc in
            e = embed (UserEmbedding.node_emb ue) (nid + 1) /\
            In e (UserEmbedding.node_emb ue) /\
            h r = Some
              (vadd e
                 (vadd (vadd (vadd (embed (UserEmbedding.emb_age ue) (age (ndata p)))
                                   (embed (UserEmbedding.emb_gender ue) (gender (ndata p))))
                             (embed (UserEmbedding.emb_occupation ue) (occupation (ndata p))))
                       (embed (UserEmbedding.emb_zip ue) (zip (ndata p)))))
        | MOVIE =>
            let me := movie_emb enc in
            e = embed (MovieEmbedding.node_emb me) (nid + 1) /\
            In e (MovieEmbedding.node_emb me) /\
            h r = Some
              (vadd e
                 (vadd (embed (MovieEmbedding.emb_year me) (year (ndata p)))
                       (LeakyReLU slope
                          (dense (MovieEmbedding.proj_genre_dense me) (genre (ndata p))))))
        end.
Proof.
  intros HU HM.
  destruct (embedded_cell enc ndata nf) as (fr0 & Hemb & Hcells).
  exists fr0. split; [assumption|].
  intros i k p Hp. rewrite (Hcells i k p Hp).
  assert (Hk : (k < layer_size nf i)%nat)
    by (unfold layer_size; apply nth_error_Some; congruence).
  assert (Hnid : nth_error (layer_nid nf i) k = Some (layer_offset nf i + k)%nat).
  { unfold layer_nid. rewrite nth_error_nth' with (d := 0%nat)
      by (now rewrite length_seq).
    now rewrite seq_nth. }
  exists {| data := ndata p;
            h := Some (initial_embedding enc (layer_offset nf i + k) (ndata p));
            h_agg := None;
            deg := None |}.
  exists (layer_offset nf i + k)%nat.
  unfold initial_embedding. cbn [h data].
  destruct (type (ndata p)); cbn zeta; eexists;
    (split; [reflexivity|]); (split; [reflexivity|]); (split; [exact Hnid|]);
    (split; [reflexivity|]); (split; [now apply embed_In|reflexivity]).
Qed.

(** C6, amended, on the NodeFlow of one seed with two neighbours and a
    self-loop. *)
Lemma initial_embedding_by_type_witness :
  exists fr0,
    embedded Example.encoder Example.ndata Example.nf = Some fr0 /\
    forall i k p,
      nth_error (layer_parent_nid Example.nf i) k = Some p ->
      exists r nid e,
        cell fr0 i k = Some r /\
        data r = Example.ndata p /\
        nth_error (layer_nid Example.nf i) k = Some nid /\
        match type (Example.ndata p) with
        | USER =>
            let ue := user_emb Example.encoder in
            e = embed (UserEmbedding.node_emb ue) (nid + 1) /\
            In e (UserEmbedding.node_emb ue) /\
            h r = Some
              (vadd e
                 (vadd (vadd (vadd (embed (UserEmbedding.emb_age ue)
                                      (age (Example.ndata p)))
                                   (embed (UserEmbedding.emb_gender ue)
                                      (gender (Example.ndata p))))
                             (embed (UserEmbedding.emb_occupation ue)
                                (occupation (Example.ndata p))))
                       (embed (UserEmbedding.emb_zip ue) (zip (Example.ndata p)))))
        | MOVIE =>
            let me := movie_emb Example.encoder in
            e = embed (MovieEmbedding.node_emb me) (nid + 1) /\
            In e (MovieEmbedding.node_emb me) /\
            h r = Some
              (vadd e
                 (vadd (embed (MovieEmbedding.emb_year me) (year (Example.ndata p)))
                       (LeakyReLU slope
                          (dense (MovieEmbedding.proj_genre_dense me)
                             (genre (Example.ndata p))))))
        end.
Proof.
  apply (initial_embedding_by_type Example.encoder Example.ndata Example.nf);
    simpl; discriminate.
Defined.

Lemma nth_error_scores (h_users h_items : list vec) (user_biases item_biases : list R) :
  forall t hu hi bu bi,
    nth_error h_users t = Some hu -> nth_error h_items t = Some hi ->
    nth_error user_biases t = Some bu -> nth_error item_biases t = Some bi ->
    nth_error (DotDecoder.scores h_users h_items user_biases item_biases) t
    = Some (dot hu hi + bu + bi).
Proof.
  revert h_items user_biases item_biases.
  induction h_users as [|a h_users IH];
    intros [|b h_items] [|c user_biases] [|d item_biases] [|t] hu hi bu bi H1 H2 H3 H4;
    simpl in *; try discriminate.
  - congruence.
  - now apply IH.
Qed.

Lemma length_scores (h_users h_items : list vec)
    (user_biases item_biases : list R) (n : nat) :
  length h_users = n -> length h_items = n ->
  length user_biases = n -> length item_biases = n ->
  length (DotDecoder.scores h_users h_items user_biases item_biases) = n.
Proof.
  revert h_users h_items user_biases item_biases.
  induction n as [|n IH];
    intros [|a h_users] [|b h_items] [|c user_biases] [|d item_biases] H1 H2 H3 H4;
    simpl in *; try discriminate; try reflexivity.
  f_equal. apply IH; lia.
Qed.

Lemma gather_biases (bs : list R) (ids : list nat) :
  Forall (fun u => (u + 1 < length bs)%nat) ids ->
  gather bs (map (fun u => (u + 1)%nat) ids)
  = Some (map (fun u => nth (u + 1) bs 0) ids).
Proof.
  induction 1 as [|u ids Hu _ IH]; simpl; [reflexivity|].
  rewrite IH. rewrite (nth_error_nth' bs 0 Hu). reflexivity.
Qed.

(** C9.  The decoder scores pair [t] of a batch by the dot product of the
    two embeddings plus the bias of the user node plus the bias of the item
    node; both biases are read in the one vector [biases], at the node id
    plus one. *)
Theorem DotDecoder_score (self : DotDecoder.t) (h_users h_items : list vec)
    (users items : list nat) :
  length h_users = length users ->
  length h_items = length users ->
  length items = length users ->
  Forall (fun u => (u + 1 < length (DotDecoder.biases self))%nat) users ->
  Forall (fun v => (v + 1 < length (DotDecoder.biases self))%nat) items ->
  exists out,
    DotDecoder.forward self h_users h_items users items = Some out /\
    length out = length users /\
    forall t hu hi u v,
      nth_error h_users t = Some hu -> nth_error h_items t = Some hi ->
      nth_error users t = Some u -> nth_error items t = Some v ->
      nth_error out t
      = Some (dot hu hi + DotDecoder.node_bias self u + DotDecoder.node_bias self v).
Proof.
  intros L1 L2 L3 HU HI. unfold DotDecoder.forward.
  rewrite (gather_biases _ users HU), (gather_biases _ items HI).
  eexists. split; [reflexivity|]. split.
  - apply length_scores; rewrite ?length_map; lia.
  - intros t hu hi u v H1 H2 H3 H4.
    apply nth_error_scores; try assumption.
    + rewrite nth_error_map, H3. reflexivity.
    + rewrite nth_error_map, H4. reflexivity.
Qed.

(** C9 on a batch of two pairs. *)
Lemma DotDecoder_score_witness :
  exists out,
    DotDecoder.forward Example.decoder [[1; 2]; [0; 1]] [[3; 4]; [5; 6]]
      [0; 1]%nat [3; 4]%nat
    = Some out /\
    length out = length [0; 1]%nat /\
    forall t hu hi u v,
      nth_error [[1; 2]; [0; 1]] t = Some hu ->
      nth_error [[3; 4]; [5; 6]] t = Some hi ->
      nth_error [0; 1]%nat t = Some u -> nth_error [3; 4]%nat t = Some v ->
      nth_error out t
      = Some (dot hu hi + DotDecoder.node_bias Example.decoder u
              + DotDecoder.node_bias Example.decoder v).
Proof.
  apply (DotDecoder_score Example.decoder [[1; 2]; [0; 1]] [[3; 4]; [5; 6]]
           [0; 1]%nat [3; 4]%nat);
    [reflexivity | reflexivity | reflexivity
    | repeat constructor; simpl; lia | repeat constructor; simpl; lia].
Defined.

End ModelClaims.

(** ** The neighbor sampler *)

Module SamplerFacts.
Import Sampler.

Lemma In_firstn {A : Type} (n : nat) (l : list A) (x : A) :
  In x (firstn n l) -> In x l.
Proof.
  intros H. rewrite <- (firstn_skipn n l). apply in_or_app. now left.
Qed.

(** A sample holds [min(K, |l|)] elements, all taken from [l]. *)
Lemma sample_spec (K : nat) (l : list nat) (rs : NumpyRandom.RandomState) :
  length (fst (sample K l rs)) = Nat.min K (length l) /\
  forall u, In u (fst (sample K l rs)) -> In u l.
Proof.
  unfold sample.
  pose proof (NumpyRandomFacts.shuffle_perm l rs) as Hp.
  destruct (NumpyRandom.shuffle l rs) as [shuffled rs']. simpl in *.
  split.
  - rewrite length_firstn, (Permutation_length Hp). reflexivity.
  - intros u Hu. apply In_firstn in Hu.
    now apply (Permutation_in _ Hp).
Qed.

Lemma with_self_spec (v : nat) (sampled : list nat) :
  In v (with_self v sampled) /\
  length (with_self v sampled) <= length sampled + 1 /\
  forall u, In u (with_self v sampled) -> u = v \/ In u sampled.
Proof.
  unfold with_self. destruct (existsb (Nat.eqb v) sampled) eqn:E.
  - apply existsb_exists in E. destruct E as [x [Hin Hx]].
    apply Nat.eqb_eq in Hx. subst x.
    split; [assumption|]. split; [lia|]. intros u Hu. now right.
  - split; [apply in_or_app; right; now left|].
    split; [rewrite length_app; simpl; lia|].
    intros u Hu. apply in_app_or in Hu. destruct Hu as [Hu|[Hu|[]]].
    + now right.
    + left. now symmetry.
Qed.

Lemma sample_layer_spec (g : GraphStore) (K : nat) (layer : list nat) :
  forall rs, Forall (block_entry_ok g K) (fst (sample_layer g K layer rs)).
Proof.
  induction layer as [|v layer IH]; intros rs; simpl; [constructor|].
  pose proof (sample_spec K (neighbors g v) rs) as [Hlen Hin].
  destruct (sample K (neighbors g v) rs) as [sampled rs1]. simpl in *.
  specialize (IH rs1).
  destruct (sample_layer g K layer rs1) as [blk rs2]. simpl in *.
  constructor; [|assumption].
  destruct (with_self_spec v sampled) as (Hself & Hl & Hsub).
  unfold block_entry_ok. simpl. split; [lia|]. split; [assumption|].
  intros u Hu. destruct (Hsub u Hu) as [->|Hs]; [now left|right; now apply Hin].
Qed.

Lemma build_layers_spec (g : GraphStore) (K L : nat) :
  forall layer rs i,
    Forall (block_entry_ok g K) (nth i (blocks (fst (build_layers g K L layer rs))) []).
Proof.
  induction L as [|L IH]; intros layer rs i; simpl.
  - destruct i as [|[|i]]; constructor.
  - pose proof (sample_layer_spec g K layer rs) as Hblk.
    destruct (sample_layer g K layer rs) as [blk rs1]. simpl in *.
    specialize (IH (nodup Nat.eq_dec (concat (map snd blk))) rs1).
    destruct (build_layers g K L (nodup Nat.eq_dec (concat (map snd blk))) rs1)
      as [rest rs2]. simpl in *.
    destruct i as [|i]; [assumption|apply IH].
Qed.

(** C1 as stated fails in the end-to-end scenario: with fan-out 2 the block
    of u1 (node 0) holds m1, m2 and u1 itself, three entries. *)
Lemma sampled_block_exceeds_fanout :
  block_of (fst (build_flow scenario [0] 2 1 [])) 0 0 [3; 4; 0] /\
  ~ length [3; 4; 0] <= 2.
Proof.
  split.
  - unfold block_of. simpl. now left.
  - simpl. lia.
Qed.

(** C1, amended.  In a flow built with fan-out [K], the block recorded for
    a node [v] between layer [i] and layer [i+1] holds at most [K + 1]
    entries (at most [min(K, |neighbors(v)|)] sampled neighbours, and [v]),
    it holds [v] itself, and each of its entries is [v] or a neighbour of
    [v] in the Graph Store. *)
Theorem sampled_block_bound (g : GraphStore) (seed_nodes : list nat) (K L : nat)
    (rs : NumpyRandom.RandomState) (i v : nat) (blk : list nat) :
  block_of (fst (build_flow g seed_nodes K L rs)) i v blk ->
  length blk <= K + 1 /\
  length blk <= Nat.min K (length (neighbors g v)) + 1 /\
  In v blk /\
  forall u, In u blk -> u = v \/ In u (neighbors g v).
Proof.
  unfold block_of, build_flow. intros Hin.
  pose proof (build_layers_spec g K L (nodup Nat.eq_dec seed_nodes) rs i) as H.
  rewrite Forall_forall in H. specialize (H _ Hin).
  destruct H as (Hlen & Hself & Hsub). simpl in *.
  repeat split; try assumption. lia.
Qed.

(** C1, amended, on the end-to-end scenario. *)
Lemma sampled_block_bound_witness :
  length [3; 4; 0] <= 2 + 1 /\
  length [3; 4; 0] <= Nat.min 2 (length (neighbors scenario 0)) + 1 /\
  In 0 [3; 4; 0] /\
  forall u, In u [3; 4; 0] -> u = 0 \/ In u (neighbors scenario 0).
Proof.
  apply (sampled_block_bound scenario [0] 2 1 [] 0 0 [3; 4; 0]).
  unfold block_of. simpl. left. reflexivity.
Defined.

End SamplerFacts.

(** ** More about the edge batch iterator *)

Module EdgeSamplerProperties.
Import Py PyFacts EdgeSampling EdgeSamplingFacts EdgeBatches.

Lemma skipn_nth_error {A : Type} (l : list A) (k : nat) (x : A) :
  nth_error l k = Some x -> skipn k l = x :: skipn (S k) l.
Proof.
  revert k. induction l as [|a l IH]; intros [|k] H; simpl in *;
    try discriminate.
  - now inversion H.
  - now apply IH.
Qed.

Lemma endpoints_concat (sb db : list (list nat)) :
  interleave_concat sb db = concat (endpoints sb db).
Proof.
  revert db. induction sb as [|s sb IH]; intros [|d db]; simpl;
    try reflexivity.
  now rewrite IH, app_assoc.
Qed.

Lemma endpoints_nth (sb db : list (list nat)) (k : nat) :
  length sb = length db -> k < length sb ->
  length (endpoints sb db) = length sb /\
  nth k (endpoints sb db) [] = nth k sb [] ++ nth k db [].
Proof.
  revert db k. induction sb as [|s sb IH]; intros [|d db] k HL Hk;
    simpl in *; try lia.
  destruct k as [|k].
  - split; [|reflexivity]. f_equal.
    destruct sb as [|s' sb]; destruct db as [|d' db]; simpl in *; try lia.
    destruct (IH (d' :: db) 0) as [Hl _]; simpl; try lia. exact Hl.
  - destruct (IH db k) as [Hl Hn]; try lia. split; [now rewrite Hl|exact Hn].
Qed.

(** Groups of full size followed by a last, non-empty one are recovered by
    cutting their concatenation in runs of that size. *)
Lemma seed_groups_concat (bs : nat) (gs : list (list nat)) :
  0 < bs -> full_groups bs gs -> seed_groups bs (concat gs) = gs.
Proof.
  intros Hbs. induction gs as [|g rest IH]; intros Hfull.
  - unfold seed_groups. simpl. rewrite range_spec by assumption.
    now rewrite ceil_div_0.
  - cbn [full_groups] in Hfull. destruct rest as [|g' rest'].
    + unfold seed_groups. simpl. rewrite app_nil_r.
      rewrite range_spec by assumption.
      rewrite ceil_div_step by lia.
      replace (length g - bs) with 0 by lia. rewrite ceil_div_0.
      simpl. f_equal. unfold slice. simpl.
      rewrite Nat.min_r by lia. rewrite Nat.sub_0_r. apply firstn_all.
    + destruct Hfull as [Hg Hrest]. specialize (IH Hrest).
      set (tl := concat (g' :: rest')) in *.
      assert (Htl : 0 < length tl).
      { subst tl. simpl. rewrite length_app.
        destruct rest' as [|g'' rest'']; cbn [full_groups] in Hrest; lia. }
      unfold seed_groups in *.
      change (concat (g :: g' :: rest')) with (g ++ tl).
      rewrite range_spec in * by assumption.
      rewrite length_app, Hg.
      rewrite (ceil_div_step (bs + length tl) bs) by lia.
      replace (bs + length tl - bs) with (length tl) by lia.
      cbn [seq map]. f_equal.
      * unfold slice. simpl. rewrite Nat.min_l by lia.
        rewrite Nat.sub_0_r. rewrite firstn_app, Hg, Nat.sub_diag. simpl.
        rewrite app_nil_r. rewrite <- Hg. apply firstn_all.
      * etransitivity; [|exact IH]. rewrite <- seq_shift, !map_map.
        apply map_ext. intros k. unfold slice.
        replace (S k * bs) with (bs + k * bs) by lia.
        rewrite skipn_app, Hg.
        rewrite (skipn_all2 g) by lia.
        replace (bs + k * bs - bs) with (k * bs) by lia. simpl.
        f_equal. lia.
Qed.

Lemma full_groups_nth (bs : nat) (gs : list (list nat)) :
  (forall k, k < length gs ->
     0 < length (nth k gs []) <= bs /\
     (S k < length gs -> length (nth k gs []) = bs)) ->
  full_groups bs gs.
Proof.
  induction gs as [|g rest IH]; intros H; [exact I|].
  cbn [full_groups]. destruct rest as [|g' rest'].
  - destruct (H 0) as [H0 _]; simpl; [lia|exact H0].
  - split.
    + destruct (H 0) as [_ H0]; simpl; [lia|]. apply H0. simpl. lia.
    + apply IH. intros k Hk. destruct (H (S k)) as [Ha Hb]; simpl in *; [lia|].
      split; [exact Ha|]. intros HS. apply Hb. lia.
Qed.

Section Iterator.

Variable Rating : Type.
Variable NodeFlowT : Type.
Variable sample_nodeflow : nat -> list nat -> NodeFlowT.
Variable batch_size : nat.

Local Abbreviation init_with := (@init_with Rating NodeFlowT sample_nodeflow batch_size).
Local Abbreviation ES := (EdgeSampler Rating NodeFlowT).

Lemma nth_error_sample_groups (gs : list (list nat)) :
  forall k0 k,
    nth_error (sample_groups sample_nodeflow k0 gs) k
    = option_map (sample_nodeflow (k0 + k)) (nth_error gs k).
Proof.
  induction gs as [|g gs IH]; intros k0 [|k]; simpl; try reflexivity.
  - now rewrite Nat.add_0_r.
  - rewrite IH. now replace (S k0 + k) with (k0 + S k) by lia.
Qed.

Lemma nth_error_zip_yield (sb db : list (list nat)) (rb : list (list Rating))
    (nfs : list NodeFlowT) :
  forall k s d r nf,
    nth_error (zip_yield sb db rb nfs) k = Some (s, d, r, nf) <->
    nth_error sb k = Some s /\ nth_error db k = Some d /\
    nth_error rb k = Some r /\ nth_error nfs k = Some nf.
Proof.
  revert db rb nfs.
  induction sb as [|s0 sb IH]; intros [|d0 db] [|r0 rb] [|nf0 nfs] k s d r nf;
    simpl; try (destruct k; simpl; intuition discriminate).
  destruct k as [|k]; simpl.
  - split.
    + intros H. inversion H. auto.
    + intros (H1 & H2 & H3 & H4).
      inversion H1; inversion H2; inversion H3; inversion H4. reflexivity.
  - apply IH.
Qed.

Lemma length_zip_yield (sb db : list (list nat)) (rb : list (list Rating))
    (nfs : list NodeFlowT) (n : nat) :
  length sb = n -> length db = n -> length rb = n -> length nfs = n ->
  length (zip_yield sb db rb nfs) = n.
Proof.
  revert sb db rb nfs.
  induction n as [|n IH]; intros [|s sb] [|d db] [|r rb] [|nf nfs] H1 H2 H3 H4;
    simpl in *; try discriminate; try reflexivity.
  f_equal. apply IH; lia.
Qed.

Lemma map_batch_edges_zip_yield (sb db : list (list nat)) (rb : list (list Rating))
    (nfs : list NodeFlowT) :
  length nfs = length sb -> length db = length sb -> length rb = length sb ->
  map (@batch_edges Rating NodeFlowT) (zip_yield sb db rb nfs) = zip_batches sb db rb.
Proof.
  revert db rb nfs.
  induction sb as [|s sb IH]; intros [|d db] [|r rb] [|nf nfs] H1 H2 H3;
    simpl in *; try discriminate; try reflexivity.
  f_equal. apply IH; lia.
Qed.

(** A loop over an iterator returns what is left of the batch lists,
    position by position, with the NodeFlows left in the sampler. *)
Lemma for_loop_yields (m : nat) :
  forall es : ES,
    i es + m = length (src_batches es) ->
    length (dst_batches es) = length (src_batches es) ->
    length (rating_batches es) = length (src_batches es) ->
    length (sampler es) = m ->
    exists es',
      for_loop (S m) es
      = Some (zip_yield (skipn (i es) (src_batches es))
                        (skipn (i es) (dst_batches es))
                        (skipn (i es) (rating_batches es))
                        (sampler es), true, es').
Proof.
  induction m as [|m IH]; intros es Hi Hd Hr Hs.
  - exists es. simpl. unfold next.
    replace (i es =? length (src_batches es)) with true
      by (symmetry; apply Nat.eqb_eq; lia).
    destruct (sampler es); [|discriminate].
    now destruct (skipn _ (src_batches es)), (skipn _ (dst_batches es)),
      (skipn _ (rating_batches es)).
  - destruct (nth_error (src_batches es) (i es)) as [s|] eqn:Es;
      [|apply nth_error_None in Es; lia].
    destruct (nth_error (dst_batches es) (i es)) as [d|] eqn:Ed;
      [|apply nth_error_None in Ed; lia].
    destruct (nth_error (rating_batches es) (i es)) as [r|] eqn:Er;
      [|apply nth_error_None in Er; lia].
    destruct (sampler es) as [|nf rest] eqn:Esam; [simpl in Hs; lia|].
    rewrite (skipn_nth_error _ _ _ Es), (skipn_nth_error _ _ _ Ed),
      (skipn_nth_error _ _ _ Er).
    cbn [zip_yield].
    remember (S m) as fuel eqn:Hfuel. cbn [for_loop]. unfold next.
    replace (i es =? length (src_batches es)) with false
      by (symmetry; apply Nat.eqb_neq; lia).
    rewrite Es, Ed, Er, Esam.
    match goal with
    | |- context [for_loop fuel ?e] => destruct (IH e) as (es' & Hl)
    end; cbn [i src_batches dst_batches rating_batches sampler] in *;
      simpl in Hs; try lia.
    subst fuel. rewrite Hl. exists es'.
    replace (i es + 1) with (S (i es)) by lia. reflexivity.
Qed.

(** X1.  The batches of a fresh iterator hold every edge of the arrays
    exactly once, each with its own destination and rating. *)
Theorem EdgeSampler_batches_cover_edges (shuffle_idx : list nat) (E : nat)
    (src dst : list nat) (rating : list Rating) (es : ES) :
  0 < batch_size -> 0 < E ->
  length src = E -> length dst = E -> length rating = E ->
  Permutation shuffle_idx (seq 0 E) ->
  init_with shuffle_idx E src dst rating = Some es ->
  Permutation (concat (batch_triples es)) (triples src dst rating).
Proof. apply batches_partition. Qed.

(** X2.  A fresh iterator holds [ceil(E / batch_size)] batches; in each of
    them there are as many sources as destinations and ratings; every
    batch but the last holds [batch_size] edges and the last holds between
    1 and [batch_size]. *)
Theorem EdgeSampler_batch_sizes (shuffle_idx : list nat) (E : nat)
    (src dst : list nat) (rating : list Rating) (es : ES) :
  0 < batch_size -> 0 < E ->
  length src = E -> length dst = E -> length rating = E ->
  Permutation shuffle_idx (seq 0 E) ->
  init_with shuffle_idx E src dst rating = Some es ->
  length (src_batches es) = ceil_div E batch_size /\
  length (dst_batches es) = ceil_div E batch_size /\
  length (rating_batches es) = ceil_div E batch_size /\
  forall k, k < ceil_div E batch_size ->
    length (nth k (dst_batches es) []) = length (nth k (src_batches es) []) /\
    length (nth k (rating_batches es) []) = length (nth k (src_batches es) []) /\
    0 < length (nth k (src_batches es) []) <= batch_size /\
    (S k < ceil_div E batch_size -> length (nth k (src_batches es) []) = batch_size).
Proof.
  intros HB HE Hs Hd Hr Hp Hinit.
  destruct (batch_sizes _ _ _ _ shuffle_idx E src dst rating es HB HE Hs Hd Hr Hp Hinit)
    as (L1 & L2 & L3 & Hk).
  repeat (split; [assumption|]).
  intros k Hlt. destruct (Hk k Hlt) as (A1 & A2 & A3 & A4 & A5). cbn zeta in *.
  rewrite A1, A2, A3. repeat split; lia.
Qed.

(** The seed nodes handed to the sampler fall apart, in groups of
    [2 * batch_size], into the endpoints of the successive batches. *)
Lemma seed_groups_are_batch_endpoints (shuffle_idx : list nat) (E : nat)
    (src dst : list nat) (rating : list Rating) (es : ES) :
  0 < batch_size -> 0 < E ->
  length src = E -> length dst = E -> length rating = E ->
  Permutation shuffle_idx (seq 0 E) ->
  init_with shuffle_idx E src dst rating = Some es ->
  sampler es
  = sample_groups sample_nodeflow 0 (endpoints (src_batches es) (dst_batches es)).
Proof.
  intros HB HE Hs Hd Hr Hp Hinit.
  destruct (batch_sizes _ _ _ _ shuffle_idx E src dst rating es HB HE Hs Hd Hr Hp Hinit)
    as (L1 & L2 & L3 & Hk).
  destruct (init_with_spec _ _ sample_nodeflow batch_size shuffle_idx E src dst rating
              HB HE Hs Hd Hr Hp)
    as (? & ? & ? & src2 & dst2 & ? & starts & ? & ? & ? & ? & ? & ? & ? & ? & Heq).
  assert (Hsam : sampler es
                 = NeighborSampler sample_nodeflow (batch_size * 2)
                     (interleave_concat (src_batches es) (dst_batches es))).
  { rewrite Heq in Hinit. inversion Hinit. reflexivity. }
  rewrite Hsam. unfold NeighborSampler. f_equal.
  rewrite endpoints_concat. apply seed_groups_concat; [lia|].
  apply full_groups_nth. intros k Hlt.
  assert (Hlen : length (src_batches es) = length (dst_batches es)) by lia.
  destruct (endpoints_nth (src_batches es) (dst_batches es) 0 Hlen) as [Le _];
    [destruct (ceil_div_pos E batch_size HE HB); lia|].
  rewrite Le in Hlt |- *.
  destruct (endpoints_nth (src_batches es) (dst_batches es) k Hlen Hlt) as [_ Hn].
  rewrite Hn, length_app.
  destruct (Hk k) as (A1 & A2 & _ & A4 & A5); [lia|]. cbn zeta in *.
  rewrite A1, A2. split; [lia|]. intros HS. rewrite A5 by lia. lia.
Qed.

(** X3.  A loop over a fresh iterator receives the batches in order, batch
    [k] made of position [k] of the source, destination and rating batch
    lists, together with the NodeFlow that the sampler built, as its
    [k]-th, for exactly the sources followed by the destinations of that
    batch. *)
Theorem EdgeSampler_yields_batches_with_their_nodeflows
    (shuffle_idx : list nat) (E : nat)
    (src dst : list nat) (rating : list Rating) (es : ES) :
  0 < batch_size -> 0 < E ->
  length src = E -> length dst = E -> length rating = E ->
  Permutation shuffle_idx (seq 0 E) ->
  init_with shuffle_idx E src dst rating = Some es ->
  exists bs es',
    for_loop (S (ceil_div E batch_size)) es = Some (bs, true, es') /\
    length bs = ceil_div E batch_size /\
    forall k s d r nf,
      nth_error bs k = Some (s, d, r, nf) ->
      nth_error (src_batches es) k = Some s /\
      nth_error (dst_batches es) k = Some d /\
      nth_error (rating_batches es) k = Some r /\
      nf = sample_nodeflow k (s ++ d).
Proof.
  intros HB HE Hs Hd Hr Hp Hinit.
  destruct (batch_sizes _ _ _ _ shuffle_idx E src dst rating es HB HE Hs Hd Hr Hp Hinit)
    as (L1 & L2 & L3 & Hk).
  destruct (sampler_length _ _ _ _ shuffle_idx E src dst rating es HB HE Hs Hd Hr Hp Hinit)
    as (Hi0 & Lsam).
  destruct (for_loop_yields (ceil_div E batch_size) es) as (es' & Hl); try lia.
  rewrite Hi0 in Hl. cbn [skipn] in Hl.
  eexists. exists es'. split; [exact Hl|]. split.
  { apply length_zip_yield; assumption. }
  intros k s d r nf Hnth. apply nth_error_zip_yield in Hnth.
  destruct Hnth as (H1 & H2 & H3 & H4).
  repeat (split; [assumption|]).
  rewrite (seed_groups_are_batch_endpoints shuffle_idx E src dst rating es
             HB HE Hs Hd Hr Hp Hinit) in H4.
  rewrite nth_error_sample_groups in H4. cbn [Nat.add] in H4.
  assert (Hlt : k < length (src_batches es)) by (apply nth_error_Some; congruence).
  destruct (endpoints_nth (src_batches es) (dst_batches es) k) as [Le Hn]; try lia.
  rewrite (nth_error_nth' _ [] (n := k)) in H4 by lia.
  rewrite Hn in H4.
  rewrite (nth_error_nth _ _ [] H1), (nth_error_nth _ _ [] H2) in H4.
  cbn [option_map] in H4. now inversion H4.
Qed.

(** X4.  Every epoch of training runs its loop body on each edge of the
    training arrays exactly once, with the edge's own rating: the triples
    of the batches of an epoch, put end to end, are a rearrangement of the
    edge triples. *)
Theorem epochs_visit_every_edge_once (n : nat) (rs : NumpyRandom.RandomState)
    (E : nat) (src dst : list nat) (rating : list Rating) :
  0 < batch_size -> 0 < E ->
  length src = E -> length dst = E -> length rating = E ->
  exists tr rs_n,
    epochs sample_nodeflow batch_size n rs E src dst rating = (Some tr, rs_n) /\
    length tr = n /\
    Forall (fun bs => Permutation (concat (map (@batch_edges Rating NodeFlowT) bs))
                                  (triples src dst rating)) tr.
Proof.
  intros HB HE Hs Hd Hr. revert rs.
  induction n as [|n IH]; intros rs; simpl.
  - exists [], rs. repeat split. constructor.
  - assert (Ht : exists bs,
        train sample_nodeflow batch_size rs E src dst rating
        = (Some bs, snd (NumpyRandom.permutation E rs)) /\
        Permutation (concat (map (@batch_edges Rating NodeFlowT) bs))
                    (triples src dst rating)).
    { unfold train, init.
      pose proof (NumpyRandomFacts.permutation_perm E rs) as Hp.
      destruct (NumpyRandom.permutation E rs) as [shuffle_idx rs'].
      cbn [fst snd] in *.
      destruct (init_with_spec _ _ sample_nodeflow batch_size shuffle_idx E src dst
                  rating HB HE Hs Hd Hr Hp)
        as (? & ? & ? & ? & ? & ? & starts & ? & ? & ? & ? & ? & ? & ? & ? & Heq).
      assert (Hex : exists es, init_with shuffle_idx E src dst rating = Some es)
        by (eexists; exact Heq).
      clear Heq. destruct Hex as [es Hinit]. rewrite Hinit.
      destruct (batch_sizes _ _ _ _ shuffle_idx E src dst rating es
                  HB HE Hs Hd Hr Hp Hinit) as (L1 & L2 & L3 & _).
      destruct (sampler_length _ _ _ _ shuffle_idx E src dst rating es
                  HB HE Hs Hd Hr Hp Hinit) as (Hi0 & Lsam).
      destruct (for_loop_yields (length (src_batches es)) es) as (es' & Hl);
        try lia.
      rewrite Hl, Hi0. cbn [skipn]. eexists. split; [reflexivity|].
      rewrite map_batch_edges_zip_yield by lia.
      apply (batches_partition _ _ sample_nodeflow batch_size shuffle_idx E src dst
               rating es HB HE Hs Hd Hr Hp Hinit). }
    destruct Ht as (bs & Ht & Hperm). rewrite Ht.
    destruct (IH (snd (NumpyRandom.permutation E rs))) as (tr & rs_n & He & Ltr & Hall).
    rewrite He. exists (bs :: tr), rs_n. repeat split; simpl; auto.
Qed.

End Iterator.

(** X1 on three edges in batches of two. *)
Lemma EdgeSampler_batches_cover_edges_witness :
  Permutation (concat (batch_triples ExampleBatches.es3))
              (triples [0; 0; 1] [3; 4; 3] [5; 3; 4]).
Proof.
  apply (EdgeSampler_batches_cover_edges nat (list nat) ExampleBatches.seeds_of 2
           [1; 2; 0] 3 [0; 0; 1] [3; 4; 3] [5; 3; 4] ExampleBatches.es3);
    [lia | lia | reflexivity | reflexivity | reflexivity
    | exact (NumpyRandomFacts.permutation_perm 3 [1; 1]) | reflexivity].
Defined.

(** X2 on three edges in batches of two. *)
Lemma EdgeSampler_batch_sizes_witness :
  length (src_batches ExampleBatches.es3) = ceil_div 3 2 /\
  length (dst_batches ExampleBatches.es3) = ceil_div 3 2 /\
  length (rating_batches ExampleBatches.es3) = ceil_div 3 2 /\
  forall k, k < ceil_div 3 2 ->
    length (nth k (dst_batches ExampleBatches.es3) [])
    = length (nth k (src_batches ExampleBatches.es3) []) /\
    length (nth k (rating_batches ExampleBatches.es3) [])
    = length (nth k (src_batches ExampleBatches.es3) []) /\
    0 < length (nth k (src_batches ExampleBatches.es3) []) <= 2 /\
    (S k < ceil_div 3 2 -> length (nth k (src_batches ExampleBatches.es3) []) = 2).
Proof.
  apply (EdgeSampler_batch_sizes nat (list nat) ExampleBatches.seeds_of 2
           [1; 2; 0] 3 [0; 0; 1] [3; 4; 3] [5; 3; 4] ExampleBatches.es3);
    [lia | lia | reflexivity | reflexivity | reflexivity
    | exact (NumpyRandomFacts.permutation_perm 3 [1; 1]) | reflexivity].
Defined.

(** X3 on three edges in batches of two. *)
Lemma EdgeSampler_yields_batches_with_their_nodeflows_witness :
  exists bs es',
    for_loop (S (ceil_div 3 2)) ExampleBatches.es3 = Some (bs, true, es') /\
    length bs = ceil_div 3 2 /\
    forall k s d r nf,
      nth_error bs k = Some (s, d, r, nf) ->
      nth_error (src_batches ExampleBatches.es3) k = Some s /\
      nth_error (dst_batches ExampleBatches.es3) k = Some d /\
      nth_error (rating_batches ExampleBatches.es3) k = Some r /\
      nf = ExampleBatches.seeds_of k (s ++ d).
Proof.
  apply (EdgeSampler_yields_batches_with_their_nodeflows nat (list nat)
           ExampleBatches.seeds_of 2
           [1; 2; 0] 3 [0; 0; 1] [3; 4; 3] [5; 3; 4] ExampleBatches.es3);
    [lia | lia | reflexivity | reflexivity | reflexivity
    | exact (NumpyRandomFacts.permutation_perm 3 [1; 1]) | reflexivity].
Defined.

(** X4 on three edges in batches of two, for two epochs. *)
Lemma epochs_visit_every_edge_once_witness :
  exists tr rs_n,
    epochs ExampleBatches.seeds_of 2 2 [1; 1; 0; 2] 3 [0; 0; 1] [3; 4; 3] [5; 3; 4]
    = (Some tr, rs_n) /\
    length tr = 2 /\
    Forall (fun bs => Permutation (concat (map (@batch_edges nat (list nat)) bs))
                                  (triples [0; 0; 1] [3; 4; 3] [5; 3; 4])) tr.
Proof.
  apply (epochs_visit_every_edge_once nat (list nat) ExampleBatches.seeds_of 2
           2 [1; 1; 0; 2] 3 [0; 0; 1] [3; 4; 3] [5; 3; 4]);
    [lia | lia | reflexivity | reflexivity | reflexivity].
Defined.

End EdgeSamplerProperties.

(** ** The claims about the edge batch iterator *)

Module EdgeSamplerClaims.
Import Py PyFacts EdgeSampling EdgeSamplingFacts EdgeBatches EdgeSamplerProperties.
Import NumpyRandom NumpyRandomFacts.

(** Entry [j] of a gathered array is the entry of the array at index
    [idx[j]]. *)
Lemma gather_nth_error {A : Type} (xs : list A) (idx : list nat) (l : list A) :
  gather xs idx = Some l ->
  forall j x, nth_error l j = Some x ->
    exists e, nth_error idx j = Some e /\ nth_error xs e = Some x.
Proof.
  revert l. induction idx as [|i idx IH]; intros l Hg j x Hj; simpl in Hg.
  - inversion Hg; subst l. destruct j; discriminate.
  - destruct (nth_error xs i) as [y|] eqn:Ey; [|discriminate].
    destruct (gather xs idx) as [l'|] eqn:El; [|discriminate].
    inversion Hg; subst l. destruct j as [|j]; simpl in *.
    + inversion Hj; subst y. now exists i.
    + now apply (IH l' eq_refl).
Qed.

(** Gathering twice is gathering once along the composed index array. *)
Lemma gather_gather {A : Type} (xs : list A) (a : list nat) (l1 : list A) :
  gather xs a = Some l1 ->
  forall (b c : list nat) (l2 : list A),
    gather l1 b = Some l2 -> gather a b = Some c -> gather xs c = Some l2.
Proof.
  intros Ha. induction b as [|i b IH]; intros c l2 H1 H2; simpl in *.
  - inversion H1. inversion H2. reflexivity.
  - destruct (nth_error l1 i) as [x|] eqn:Ex; [|discriminate].
    destruct (gather l1 b) as [l2'|] eqn:E1; [|discriminate].
    destruct (nth_error a i) as [e|] eqn:Ee; [|discriminate].
    destruct (gather a b) as [c'|] eqn:E2; [|discriminate].
    inversion H1; subst l2. inversion H2; subst c. simpl.
    destruct (gather_nth_error xs a l1 Ha i x Ex) as (e' & He' & Hx).
    rewrite Ee in He'. inversion He'; subst e'.
    rewrite Hx, (IH c' l2' eq_refl eq_refl). reflexivity.
Qed.

Lemma chunk_nth_error {A : Type} (B E : nat) (l : list A) (i t : nat) (x : A) :
  nth_error (chunk B E l i) t = Some x -> nth_error l (i + t) = Some x.
Proof.
  unfold chunk, slice. rewrite nth_error_firstn.
  destruct (t <? Nat.min (i + B) E - i); [|discriminate].
  now rewrite nth_error_skipn.
Qed.

Lemma nth_error_starts (B c k : nat) :
  k < c -> nth_error (map (fun j => j * B) (seq 0 c)) k = Some (k * B).
Proof.
  intros Hk. rewrite nth_error_map, nth_error_seq.
  apply Nat.ltb_lt in Hk. now rewrite Hk.
Qed.

(** Every order of the list can be drawn: there is a run of raw draws that
    makes the shuffle return it, and the shuffle consumes exactly that
    run. *)
Lemma shuffle_aux_reaches {A : Type} (pi : list A) :
  forall l : list A,
    Permutation pi l ->
    exists draws : RandomState,
      length draws = length l /\
      forall rest, shuffle_aux (length l) l (draws ++ rest) = (pi, rest).
Proof.
  induction pi as [|x pi IH]; intros l Hp.
  - apply Permutation_nil in Hp. subst l. exists []. split; reflexivity.
  - assert (Hin : In x l) by (apply (Permutation_in _ Hp); now left).
    destruct (In_nth l x x Hin) as (k & Hk & Hnth).
    assert (Hp' : Permutation pi (remove_nth k l)).
    { apply Permutation_cons_inv with (a := x).
      eapply perm_trans; [exact Hp|].
      rewrite <- Hnth at 1. apply Permutation_sym. now apply remove_nth_perm. }
    destruct (IH _ Hp') as (draws & Hlen & Hrun).
    pose proof (remove_nth_length k l Hk) as Hrl.
    exists (k :: draws). split; [simpl; lia|].
    intros rest. destruct l as [|y l0]; [simpl in Hk; lia|].
    cbn [length app shuffle_aux draw].
    rewrite Nat.mod_small by exact Hk.
    replace (length l0) with (length (remove_nth k (y :: l0)))
      by (rewrite Hrl; simpl; lia).
    rewrite Hrun. f_equal. f_equal.
    rewrite (nth_indep _ y x) by exact Hk. exact Hnth.
Qed.

Lemma permutation_reaches (E : nat) (pi : list nat) :
  Permutation pi (seq 0 E) ->
  exists draws : RandomState,
    length draws = E /\
    forall rest, permutation E (draws ++ rest) = (pi, rest).
Proof.
  intros Hp. destruct (shuffle_aux_reaches pi (seq 0 E) Hp) as (draws & Hl & Hrun).
  rewrite length_seq in Hl, Hrun. exists draws. split; [assumption|].
  intros rest. unfold permutation, shuffle. rewrite length_seq. apply Hrun.
Qed.

Lemma epoch_state_shift (E k : nat) (rs : RandomState) :
  epoch_state E k (snd (permutation E rs)) = epoch_state E (S k) rs.
Proof.
  induction k as [|k IH]; [reflexivity|].
  cbn [epoch_state] in *. now rewrite IH.
Qed.

Section Iterator.

Variable Rating : Type.
Variable NodeFlowT : Type.
Variable sample_nodeflow : nat -> list nat -> NodeFlowT.
Variable batch_size : nat.

Local Abbreviation init_with := (@init_with Rating NodeFlowT sample_nodeflow batch_size).
Local Abbreviation init := (@init Rating NodeFlowT sample_nodeflow batch_size).
Local Abbreviation ES := (EdgeSampler Rating NodeFlowT).

(** [__next__] never changes the batch lists. *)
Lemma next_keeps_batches (self : ES) :
  src_batches (snd (next self)) = src_batches self /\
  dst_batches (snd (next self)) = dst_batches self /\
  rating_batches (snd (next self)) = rating_batches self.
Proof.
  unfold next.
  destruct (i self =? length (src_batches self)); [now repeat split|].
  destruct (nth_error (src_batches self) (i self)),
           (nth_error (dst_batches self) (i self)),
           (nth_error (rating_batches self) (i self));
    try (now repeat split).
  destruct (sampler self); now repeat split.
Qed.

(** C7.  The constructor rearranges the three arrays by one and the same
    permutation [pi] of the edge positions (the permutation drawn from
    numpy, indexed by itself) and stores, as batches, the contiguous chunks of
    [batch_size] entries of the rearranged arrays, the last chunk being the
    shorter one; iterating does not touch them.  So the batches hold every
    edge exactly once, there are [ceil(E / batch_size)] of them, all of
    [batch_size] edges except possibly the last, and position [t] of batch
    [k] holds the source, the destination and the rating of one and the
    same edge, the edge [pi[k * batch_size + t]]. *)
Theorem EdgeSampler_batches_are_chunks_of_a_permutation
    (shuffle_idx : list nat) (E : nat)
    (src dst : list nat) (rating : list Rating) (es : ES) :
  0 < batch_size -> 0 < E ->
  length src = E -> length dst = E -> length rating = E ->
  Permutation shuffle_idx (seq 0 E) ->
  init_with shuffle_idx E src dst rating = Some es ->
  exists (pi src_p dst_p : list nat) (rating_p : list Rating) (starts : list nat),
    gather shuffle_idx shuffle_idx = Some pi /\
    Permutation pi (seq 0 E) /\
    gather src pi = Some src_p /\
    gather dst pi = Some dst_p /\
    gather rating pi = Some rating_p /\
    range 0 E batch_size = Some starts /\
    src_batches es = map (chunk batch_size E src_p) starts /\
    dst_batches es = map (chunk batch_size E dst_p) starts /\
    rating_batches es = map (chunk batch_size E rating_p) starts /\
    (forall self : ES,
        src_batches (snd (next self)) = src_batches self /\
        dst_batches (snd (next self)) = dst_batches self /\
        rating_batches (snd (next self)) = rating_batches self) /\
    Permutation (concat (batch_triples es)) (triples src dst rating) /\
    length (src_batches es) = ceil_div E batch_size /\
    length (dst_batches es) = ceil_div E batch_size /\
    length (rating_batches es) = ceil_div E batch_size /\
    (forall k, k < ceil_div E batch_size ->
       length (nth k (src_batches es) []) = Nat.min batch_size (E - k * batch_size) /\
       length (nth k (dst_batches es) []) = length (nth k (src_batches es) []) /\
       length (nth k (rating_batches es) []) = length (nth k (src_batches es) []) /\
       0 < length (nth k (src_batches es) []) <= batch_size /\
       (S k < ceil_div E batch_size ->
        length (nth k (src_batches es) []) = batch_size)) /\
    (forall k t sb db rb s d r,
       nth_error (src_batches es) k = Some sb ->
       nth_error (dst_batches es) k = Some db ->
       nth_error (rating_batches es) k = Some rb ->
       nth_error sb t = Some s ->
       nth_error db t = Some d ->
       nth_error rb t = Some r ->
       exists e,
         nth_error pi (k * batch_size + t) = Some e /\
         nth_error src e = Some s /\
         nth_error dst e = Some d /\
         nth_error rating e = Some r).
Proof.
  intros HB HE Hs Hd Hr Hp Hinit.
  destruct (init_with_spec _ _ sample_nodeflow batch_size shuffle_idx E src dst rating
              HB HE Hs Hd Hr Hp)
    as (src1 & dst1 & rating1 & src2 & dst2 & rating2 & starts &
        Hs1 & Hd1 & Hr1 & Hs2 & Hd2 & Hr2 & Hrange & Hlen & Heq).
  pose proof (batches_partition _ _ _ _ shuffle_idx E src dst rating es
                HB HE Hs Hd Hr Hp Hinit) as Hpart.
  destruct (batch_sizes _ _ _ _ shuffle_idx E src dst rating es
              HB HE Hs Hd Hr Hp Hinit) as (L1 & L2 & L3 & Hk).
  assert (LE : length shuffle_idx = E)
    by (rewrite (Permutation_length Hp); apply length_seq).
  destruct (gather_permutation_Some shuffle_idx shuffle_idx) as [pi Hpi];
    [now rewrite LE|].
  assert (Hpi_perm : Permutation pi (seq 0 E)).
  { eapply perm_trans; [|exact Hp].
    apply (gather_permutation shuffle_idx shuffle_idx); [now rewrite LE|assumption]. }
  pose proof (gather_gather src shuffle_idx src1 Hs1 _ _ _ Hs2 Hpi) as Gs.
  pose proof (gather_gather dst shuffle_idx dst1 Hd1 _ _ _ Hd2 Hpi) as Gd.
  pose proof (gather_gather rating shuffle_idx rating1 Hr1 _ _ _ Hr2 Hpi) as Gr.
  rewrite Heq in Hinit. inversion Hinit as [Hes].
  exists pi, src2, dst2, rating2, starts.
  split; [assumption|].
  split; [assumption|]. split; [assumption|]. split; [assumption|].
  split; [assumption|]. split; [assumption|].
  split; [reflexivity|]. split; [reflexivity|]. split; [reflexivity|].
  split; [exact next_keeps_batches|].
  rewrite Hes.
  split; [assumption|]. split; [assumption|]. split; [assumption|].
  split; [assumption|]. split.
  { intros k Hlt. destruct (Hk k Hlt) as (A1 & A2 & A3 & A4 & A5). cbn zeta in *.
    rewrite A1, A2, A3. repeat split; lia. }
  intros k t sb db rb s d r Hsb Hdb Hrb Hts Htd Htr.
  rewrite <- Hes in Hsb, Hdb, Hrb.
  cbn [src_batches dst_batches rating_batches] in Hsb, Hdb, Hrb.
  rewrite (range_spec E batch_size HB) in Hrange. inversion Hrange; subst starts.
  assert (Hkc : k < ceil_div E batch_size).
  { assert (Hne : nth_error (map (chunk batch_size E src2)
                     (map (fun k0 => k0 * batch_size)
                        (seq 0 (ceil_div E batch_size)))) k <> None)
      by congruence.
    apply nth_error_Some in Hne. now rewrite !length_map, length_seq in Hne. }
  rewrite nth_error_map, (nth_error_starts _ _ _ Hkc) in Hsb, Hdb, Hrb.
  cbn [option_map] in Hsb, Hdb, Hrb.
  inversion Hsb; subst sb. inversion Hdb; subst db. inversion Hrb; subst rb.
  apply chunk_nth_error in Hts, Htd, Htr.
  destruct (gather_nth_error _ _ _ Gs _ _ Hts) as (e & He & Hse).
  destruct (gather_nth_error _ _ _ Gd _ _ Htd) as (e2 & He2 & Hde).
  destruct (gather_nth_error _ _ _ Gr _ _ Htr) as (e3 & He3 & Hre).
  rewrite He in He2, He3. inversion He2; subst e2. inversion He3; subst e3.
  now exists e.
Qed.

(** One call of [train]: the iterator is built from the permutation drawn
    in the state the call is entered with, and the loop gets all of its
    batches. *)
Lemma train_spec (rs : RandomState) (E : nat)
    (src dst : list nat) (rating : list Rating) :
  0 < batch_size -> 0 < E ->
  length src = E -> length dst = E -> length rating = E ->
  exists es bs es',
    init_with (fst (permutation E rs)) E src dst rating = Some es /\
    init rs E src dst rating = (Some es, snd (permutation E rs)) /\
    for_loop (S (ceil_div E batch_size)) es = Some (bs, true, es') /\
    length bs = ceil_div E batch_size /\
    next es' = (StopIteration Rating NodeFlowT, es') /\
    (forall fuel, for_loop (S fuel) es' = Some ([], true, es')) /\
    train sample_nodeflow batch_size rs E src dst rating
    = (Some bs, snd (permutation E rs)).
Proof.
  intros HB HE Hs Hd Hr.
  pose proof (permutation_perm E rs) as Hp.
  unfold train, EdgeSampling.init.
  destruct (permutation E rs) as [shuffle_idx rs']. cbn [fst snd] in *.
  destruct (init_with_spec _ _ sample_nodeflow batch_size shuffle_idx E src dst rating
              HB HE Hs Hd Hr Hp)
    as (? & ? & ? & ? & ? & ? & starts & ? & ? & ? & ? & ? & ? & ? & ? & Heq).
  assert (Hex : exists es, init_with shuffle_idx E src dst rating = Some es)
    by (eexists; exact Heq).
  clear Heq. destruct Hex as [es Hinit]. rewrite Hinit.
  destruct (batch_sizes _ _ _ _ shuffle_idx E src dst rating es
              HB HE Hs Hd Hr Hp Hinit) as (Lsb & Ldb & Lrb & _).
  destruct (sampler_length _ _ _ _ shuffle_idx E src dst rating es
              HB HE Hs Hd Hr Hp Hinit) as (Hi0 & Lsam).
  destruct (for_loop_run _ _ (ceil_div E batch_size) es) as (bs & es' & Hl & Hn & Hc);
    try lia.
  exists es, bs, es'.
  split; [reflexivity|]. split; [reflexivity|]. split; [assumption|].
  split; [assumption|].
  destruct (exhausted_stays _ _ es' Hc) as [Hnext Hloop].
  split; [assumption|]. split; [assumption|].
  rewrite Lsb, Hl. reflexivity.
Qed.

(** A run of [n] epochs, epoch by epoch. *)
Lemma epochs_chain (E : nat) (src dst : list nat) (rating : list Rating) (n : nat) :
  0 < batch_size -> 0 < E ->
  length src = E -> length dst = E -> length rating = E ->
  forall rs : RandomState,
  exists tr,
    epochs sample_nodeflow batch_size n rs E src dst rating
    = (Some tr, epoch_state E n rs) /\
    length tr = n /\
    forall k bs, nth_error tr k = Some bs ->
      exists es_k es',
        init_with (fst (permutation E (epoch_state E k rs))) E src dst rating
        = Some es_k /\
        init (epoch_state E k rs) E src dst rating
        = (Some es_k, epoch_state E (S k) rs) /\
        for_loop (S (ceil_div E batch_size)) es_k = Some (bs, true, es') /\
        length bs = ceil_div E batch_size.
Proof.
  intros HB HE Hs Hd Hr. induction n as [|n IH]; intros rs.
  - exists []. split; [reflexivity|]. split; [reflexivity|].
    intros [|k] bs H; discriminate.
  - destruct (train_spec rs E src dst rating HB HE Hs Hd Hr)
      as (es & bs0 & es' & Hiw & Hinit & Hloop & Lbs & _ & _ & Htrain).
    destruct (IH (snd (permutation E rs))) as (tr & He & Ltr & Hall).
    cbn [epochs]. rewrite Htrain, He.
    exists (bs0 :: tr). split; [now rewrite epoch_state_shift|].
    split; [simpl; lia|].
    intros [|k] bs Hk; simpl in Hk.
    + inversion Hk; subst bs. exists es, es'. cbn [epoch_state].
      repeat (split; [assumption|]). assumption.
    + destruct (Hall k bs Hk) as (es_k & es_k' & H1 & H2 & H3 & H4).
      rewrite (epoch_state_shift E k rs) in H1, H2.
      rewrite (epoch_state_shift E (S k) rs) in H2.
      exists es_k, es_k'. repeat (split; [assumption|]). assumption.
Qed.

(** C8.  The batch sequence of an [EdgeSampler] is finite and cannot be
    restarted: a freshly built iterator yields exactly [ceil(E / batch_size)]
    batches and then raises [StopIteration]; after that, [__next__] raises
    [StopIteration] again and a second loop over the same object gets no
    batch.  Training for [n] epochs builds [n] iterators: the iterator of
    epoch [k] is built with a permutation drawn from the random state that
    epoch [k-1] left, and is run through in full.  The permutation is drawn
    anew each time: for any two orders of the edge positions there is a
    random state from which the first epoch draws the one and the second
    epoch the other. *)
Theorem EdgeSampler_single_pass (rs : RandomState) (E : nat)
    (src dst : list nat) (rating : list Rating) :
  0 < batch_size -> 0 < E ->
  length src = E -> length dst = E -> length rating = E ->
  exists es,
    init rs E src dst rating = (Some es, snd (permutation E rs)) /\
    init_with (fst (permutation E rs)) E src dst rating = Some es /\
    (exists bs es',
        for_loop (S (ceil_div E batch_size)) es = Some (bs, true, es') /\
        length bs = ceil_div E batch_size /\
        next es' = (StopIteration Rating NodeFlowT, es') /\
        forall fuel, for_loop (S fuel) es' = Some ([], true, es')) /\
    (forall n, exists tr,
        epochs sample_nodeflow batch_size n rs E src dst rating
        = (Some tr, epoch_state E n rs) /\
        length tr = n /\
        Forall (fun bs => length bs = ceil_div E batch_size) tr /\
        forall k bs, nth_error tr k = Some bs ->
          exists es_k es',
            init_with (fst (permutation E (epoch_state E k rs))) E src dst rating
            = Some es_k /\
            init (epoch_state E k rs) E src dst rating
            = (Some es_k, epoch_state E (S k) rs) /\
            for_loop (S (ceil_div E batch_size)) es_k = Some (bs, true, es')) /\
    (forall pi1 pi2,
        Permutation pi1 (seq 0 E) -> Permutation pi2 (seq 0 E) ->
        exists rs0 : RandomState,
          fst (permutation E (epoch_state E 0 rs0)) = pi1 /\
          fst (permutation E (epoch_state E 1 rs0)) = pi2).
Proof.
  intros HB HE Hs Hd Hr.
  destruct (train_spec rs E src dst rating HB HE Hs Hd Hr)
    as (es & bs & es' & Hiw & Hinit & Hloop & Lbs & Hnext & Hagain & _).
  exists es. split; [assumption|]. split; [assumption|]. split.
  { exists bs, es'. repeat (split; [assumption|]). assumption. }
  split.
  - intros n.
    destruct (epochs_chain E src dst rating n HB HE Hs Hd Hr rs)
      as (tr & He & Ltr & Hall).
    exists tr. split; [assumption|]. split; [assumption|]. split.
    + apply Forall_forall. intros b Hin.
      destruct (In_nth_error _ _ Hin) as [k Hk].
      destruct (Hall k b Hk) as (? & ? & _ & _ & _ & Hlen). exact Hlen.
    + intros k b Hk.
      destruct (Hall k b Hk) as (es_k & es_k' & H1 & H2 & H3 & _).
      exists es_k, es_k'. repeat (split; [assumption|]). assumption.
  - intros pi1 pi2 H1 H2.
    destruct (permutation_reaches E pi1 H1) as (d1 & _ & R1).
    destruct (permutation_reaches E pi2 H2) as (d2 & _ & R2).
    exists (d1 ++ d2). cbn [epoch_state]. rewrite R1. cbn [fst snd].
    split; [reflexivity|].
    rewrite <- (app_nil_r d2), R2. reflexivity.
Qed.

End Iterator.

(** C7 on three edges in batches of two. *)
Lemma EdgeSampler_batches_are_chunks_of_a_permutation_witness :
  exists (pi src_p dst_p : list nat) (rating_p : list nat) (starts : list nat),
    gather [1; 2; 0] [1; 2; 0] = Some pi /\
    Permutation pi (seq 0 3) /\
    gather [0; 0; 1] pi = Some src_p /\
    gather [3; 4; 3] pi = Some dst_p /\
    gather [5; 3; 4] pi = Some rating_p /\
    range 0 3 2 = Some starts /\
    src_batches ExampleBatches.es3 = map (chunk 2 3 src_p) starts /\
    dst_batches ExampleBatches.es3 = map (chunk 2 3 dst_p) starts /\
    rating_batches ExampleBatches.es3 = map (chunk 2 3 rating_p) starts /\
    (forall self : EdgeSampler nat (list nat),
        src_batches (snd (next self)) = src_batches self /\
        dst_batches (snd (next self)) = dst_batches self /\
        rating_batches (snd (next self)) = rating_batches self) /\
    Permutation (concat (batch_triples ExampleBatches.es3))
                (triples [0; 0; 1] [3; 4; 3] [5; 3; 4]) /\
    length (src_batches ExampleBatches.es3) = ceil_div 3 2 /\
    length (dst_batches ExampleBatches.es3) = ceil_div 3 2 /\
    length (rating_batches ExampleBatches.es3) = ceil_div 3 2 /\
    (forall k, k < ceil_div 3 2 ->
       length (nth k (src_batches ExampleBatches.es3) []) = Nat.min 2 (3 - k * 2) /\
       length (nth k (dst_batches ExampleBatches.es3) [])
       = length (nth k (src_batches ExampleBatches.es3) []) /\
       length (nth k (rating_batches ExampleBatches.es3) [])
       = length (nth k (src_batches ExampleBatches.es3) []) /\
       0 < length (nth k (src_batches ExampleBatches.es3) []) <= 2 /\
       (S k < ceil_div 3 2 ->
        length (nth k (src_batches ExampleBatches.es3) []) = 2)) /\
    (forall k t sb db rb s d r,
       nth_error (src_batches ExampleBatches.es3) k = Some sb ->
       nth_error (dst_batches ExampleBatches.es3) k = Some db ->
       nth_error (rating_batches ExampleBatches.es3) k = Some rb ->
       nth_error sb t = Some s ->
       nth_error db t = Some d ->
       nth_error rb t = Some r ->
       exists e,
         nth_error pi (k * 2 + t) = Some e /\
         nth_error [0; 0; 1] e = Some s /\
         nth_error [3; 4; 3] e = Some d /\
         nth_error [5; 3; 4] e = Some r).
Proof.
  apply (EdgeSampler_batches_are_chunks_of_a_permutation nat (list nat)
           ExampleBatches.seeds_of 2
           [1; 2; 0] 3 [0; 0; 1] [3; 4; 3] [5; 3; 4] ExampleBatches.es3);
    [lia | lia | reflexivity | reflexivity | reflexivity
    | exact (NumpyRandomFacts.permutation_perm 3 [1; 1]) | reflexivity].
Defined.

(** C8 on three edges in batches of two. *)
Lemma EdgeSampler_single_pass_witness :
  exists es,
    init ExampleBatches.seeds_of 2 [1; 0] 3 [0; 0; 1] [3; 4; 3] [5; 3; 4]
    = (Some es, snd (permutation 3 [1; 0])) /\
    init_with ExampleBatches.seeds_of 2 (fst (permutation 3 [1; 0])) 3
      [0; 0; 1] [3; 4; 3] [5; 3; 4] = Some es /\
    (exists bs es',
        for_loop (S (ceil_div 3 2)) es = Some (bs, true, es') /\
        length bs = ceil_div 3 2 /\
        next es' = (StopIteration nat (list nat), es') /\
        forall fuel, for_loop (S fuel) es' = Some ([], true, es')) /\
    (forall n, exists tr,
        epochs ExampleBatches.seeds_of 2 n [1; 0] 3 [0; 0; 1] [3; 4; 3] [5; 3; 4]
        = (Some tr, epoch_state 3 n [1; 0]) /\
        length tr = n /\
        Forall (fun bs => length bs = ceil_div 3 2) tr /\
        forall k bs, nth_error tr k = Some bs ->
          exists es_k es',
            init_with ExampleBatches.seeds_of 2
              (fst (permutation 3 (epoch_state 3 k [1; 0]))) 3
              [0; 0; 1] [3; 4; 3] [5; 3; 4]
            = Some es_k /\
            init ExampleBatches.seeds_of 2 (epoch_state 3 k [1; 0]) 3
              [0; 0; 1] [3; 4; 3] [5; 3; 4]
            = (Some es_k, epoch_state 3 (S k) [1; 0]) /\
            for_loop (S (ceil_div 3 2)) es_k = Some (bs, true, es')) /\
    (forall pi1 pi2,
        Permutation pi1 (seq 0 3) -> Permutation pi2 (seq 0 3) ->
        exists rs0 : RandomState,
          fst (permutation 3 (epoch_state 3 0 rs0)) = pi1 /\
          fst (permutation 3 (epoch_state 3 1 rs0)) = pi2).
Proof.
  apply (EdgeSampler_single_pass nat (list nat) ExampleBatches.seeds_of 2
           [1; 0] 3 [0; 0; 1] [3; 4; 3] [5; 3; 4]);
    [lia | lia | reflexivity | reflexivity | reflexivity].
Defined.

End EdgeSamplerClaims.

(** ** More about the encoder *)

Module EncoderProperties.
Import Tensor Graph GraphFacts GraphSageEncoder EncoderFacts TensorFacts EncoderClaims.

Local Open Scope R_scope.

Lemma eps_lt_1 : eps < 1.
Proof.
  unfold eps. lra.
Qed.

Lemma nth_vdiv (a : vec) (c : R) (j : nat) : nth j (vdiv a c) 0 = nth j a 0 / c.
Proof.
  unfold vdiv. revert j. induction a as [|x a IH]; intros [|j]; simpl;
    try (unfold Rdiv; now rewrite Rmult_0_l); auto.
Qed.

Lemma read_h_length (rows : list Row) (us : list nat) (msgs : list vec) :
  read_h rows us = Some msgs -> length msgs = length us.
Proof.
  revert msgs. induction us as [|u us IH]; intros msgs H; simpl in H.
  - now inversion H.
  - destruct (nth_error rows u) as [r|]; [|discriminate].
    destruct (read_h rows us) as [l|]; [|discriminate].
    destruct (h r); [|discriminate].
    inversion H. simpl. f_equal. now apply IH.
Qed.

(** X6.  A row with at least one in-neighbour in block [n] is updated with
    the mean of its in-neighbours' embeddings: the floor [eps] plays no
    part, the aggregate is divided by the in-degree itself, entry by
    entry. *)
Theorem update_uses_mean_of_in_neighbors (enc : t) (ndata : nat -> NData)
    (nf : NodeFlow) (n k : nat) :
  well_formed nf = true ->
  (num_blocks nf <= length (user_layers enc))%nat ->
  (num_blocks nf <= length (movie_layers enc))%nat ->
  (n < num_blocks nf)%nat ->
  (k < layer_size nf (S n))%nat ->
  in_neighbors nf n k <> [] ->
  exists fr fr' src_rows r r' upd msgs h_prev,
    after_blocks enc ndata nf n = Some fr /\
    after_blocks enc ndata nf (S n) = Some fr' /\
    nth_error fr n = Some src_rows /\
    cell fr (S n) k = Some r /\
    cell fr' (S n) k = Some r' /\
    read_h src_rows (in_neighbors nf n k) = Some msgs /\
    h r = Some h_prev /\
    layer_update enc (type (data r)) n = Some upd /\
    length msgs = length (in_neighbors nf n k) /\
    Rmax (INR (length msgs)) eps = INR (length msgs) /\
    h r' = Some (GraphSageNodeUpdate.normalized
                   (LeakyReLU slope
                      (dense (GraphSageNodeUpdate.W upd)
                         (h_prev ++
                          vdiv (sum_messages (embedding_size enc) msgs)
                               (INR (length msgs)))))) /\
    (Forall (fun m => length m = embedding_size enc) msgs ->
     forall j,
       nth j (vdiv (sum_messages (embedding_size enc) msgs) (INR (length msgs))) 0
       = fold_right Rplus 0 (map (fun m => nth j m 0) msgs) / INR (length msgs)).
Proof.
  intros Hwf HU HM Hn Hk Hne.
  destruct (block_row enc ndata nf n k Hwf HU HM Hn Hk)
    as (fr0 & fr & fr' & src_rows & p & upd & Hemb & Hfr & Hfr' & Hsrc & Hp &
        Hc0 & Hc & Hupd & Hc' & Hread & _).
  cbn zeta in *.
  pose proof (read_h_length _ _ _ Hread) as Lm.
  assert (Hmax : Rmax (INR (length (messages nf n src_rows k))) eps
                 = INR (length (messages nf n src_rows k))).
  { apply Rmax_left. rewrite Lm.
    assert (1 <= length (in_neighbors nf n k))%nat
      by (destruct (in_neighbors nf n k); [contradiction|simpl; lia]).
    pose proof (le_INR _ _ H) as Hi. simpl in Hi.
    pose proof eps_lt_1. lra. }
  exists fr, fr', src_rows. do 2 eexists.
  exists upd, (messages nf n src_rows k). eexists.
  split; [assumption|]. split; [assumption|]. split; [assumption|].
  split; [exact Hc|]. split; [exact Hc'|]. split; [assumption|].
  split; [reflexivity|]. split; [exact Hupd|]. split; [assumption|].
  split; [assumption|]. split.
  - unfold updated_row. cbn [h]. unfold GraphSageNodeUpdate.h_new,
      GraphSageNodeUpdate.h_concat, in_degree, h_of. cbn [h].
    rewrite <- Lm, Hmax. reflexivity.
  - intros HF j. rewrite nth_vdiv. now rewrite sum_messages_entry.
Qed.

(** X6 on the NodeFlow of one seed with two neighbours and a self-loop. *)
Lemma update_uses_mean_of_in_neighbors_witness :
  exists fr fr' src_rows r r' upd msgs h_prev,
    after_blocks Example.encoder Example.ndata Example.nf 0 = Some fr /\
    after_blocks Example.encoder Example.ndata Example.nf (S 0) = Some fr' /\
    nth_error fr 0 = Some src_rows /\
    cell fr (S 0) 0 = Some r /\
    cell fr' (S 0) 0 = Some r' /\
    read_h src_rows (in_neighbors Example.nf 0 0) = Some msgs /\
    h r = Some h_prev /\
    layer_update Example.encoder (type (data r)) 0 = Some upd /\
    length msgs = length (in_neighbors Example.nf 0 0) /\
    Rmax (INR (length msgs)) eps = INR (length msgs) /\
    h r' = Some (GraphSageNodeUpdate.normalized
                   (LeakyReLU slope
                      (dense (GraphSageNodeUpdate.W upd)
                         (h_prev ++
                          vdiv (sum_messages (embedding_size Example.encoder) msgs)
                               (INR (length msgs)))))) /\
    (Forall (fun m => length m = embedding_size Example.encoder) msgs ->
     forall j,
       nth j (vdiv (sum_messages (embedding_size Example.encoder) msgs)
                   (INR (length msgs))) 0
       = fold_right Rplus 0 (map (fun m => nth j m 0) msgs) / INR (length msgs)).
Proof.
  apply (update_uses_mean_of_in_neighbors Example.encoder Example.ndata Example.nf 0 0);
    [reflexivity | vm_compute; lia | vm_compute; lia | vm_compute; lia
    | vm_compute; lia | discriminate].
Defined.

(** *** The features of the rows *)

Lemma apply_rows_data (func : nat -> Row -> option Row) (v : list nat) :
  (forall id r r', func id r = Some r' -> data r' = data r) ->
  forall rows id rows',
    apply_rows func v id rows = Some rows' -> map data rows' = map data rows.
Proof.
  intros Hf. induction rows as [|r rows IH]; intros id rows' H; simpl in H.
  - now inversion H.
  - destruct (if existsb (Nat.eqb id) v then func id r else Some r) as [r1|] eqn:E1;
      [|discriminate].
    destruct (apply_rows func v (S id) rows) as [rest|] eqn:E2; [|discriminate].
    inversion H; subst. simpl. f_equal; [|now apply (IH (S id))].
    destruct (existsb (Nat.eqb id) v); [now apply (Hf id)|now inversion E1].
Qed.

Lemma aggregate_rows_data (nf : NodeFlow) (d i : nat) (src_rows : list Row) :
  forall rows v rows',
    aggregate_rows nf d i src_rows v rows = Some rows' ->
    map data rows' = map data rows.
Proof.
  induction rows as [|r rows IH]; intros v rows' H; simpl in H.
  - now inversion H.
  - destruct (read_h src_rows (in_neighbors nf i v)); [|discriminate].
    destruct (aggregate_rows nf d i src_rows (S v) rows) as [rest|] eqn:E;
      [|discriminate].
    inversion H; subst. simpl. f_equal. now apply (IH (S v)).
Qed.

Lemma assign_deg_data (nf : NodeFlow) (i : nat) (rows : list Row) :
  forall v, map data (assign_deg nf i v rows) = map data rows.
Proof. induction rows as [|r rows IH]; intros v; simpl; [|rewrite IH]; reflexivity. Qed.

Lemma set_layer_data (i : nat) (rows rows0 : list Row) (fr : Frames) :
  nth_error fr i = Some rows0 -> map data rows = map data rows0 ->
  map (map data) (set_layer i rows fr) = map (map data) fr.
Proof.
  revert i. induction fr as [|l fr IH]; intros [|i] H Hd; simpl in *;
    try discriminate.
  - inversion H; subst. now rewrite Hd.
  - f_equal. now apply IH.
Qed.

Lemma apply_layer_data (nf : NodeFlow) (i : nat)
    (func : nat -> Row -> option Row) (v : list nat) (fr fr' : Frames) :
  (forall id r r', func id r = Some r' -> data r' = data r) ->
  apply_layer nf i func v fr = Some fr' ->
  map (map data) fr' = map (map data) fr.
Proof.
  intros Hf. unfold apply_layer.
  destruct (nth_error fr i) as [rows|] eqn:Hr; [|discriminate].
  destruct (apply_rows func v (layer_offset nf i) rows) as [rows'|] eqn:Ha;
    [|discriminate].
  intros H. inversion H; subst.
  apply (set_layer_data i rows' rows fr Hr).
  now apply (apply_rows_data func v Hf rows (layer_offset nf i)).
Qed.

Lemma forward_update_data (upd : GraphSageNodeUpdate.t) (r r' : Row) :
  GraphSageNodeUpdate.forward upd r = Some r' -> data r' = data r.
Proof.
  unfold GraphSageNodeUpdate.forward.
  destruct (h r), (h_agg r), (deg r); try discriminate.
  intros H. now inversion H.
Qed.

Lemma embed_layer_data (enc : t) (nf : NodeFlow) (i : nat) (fr fr' : Frames) :
  embed_layer enc nf i fr = Some fr' ->
  map (map data) fr' = map (map data) fr.
Proof.
  unfold embed_layer.
  destruct (nth_error fr i) as [rows|]; [|discriminate].
  destruct (0 <? length (nodes_of_type USER (layer_nid nf i) rows))%nat.
  - destruct (apply_layer nf i _ _ fr) as [fr1|] eqn:E1; [|discriminate].
    apply apply_layer_data in E1;
      [|intros id r r' Hr; now inversion Hr].
    destruct (0 <? length (nodes_of_type MOVIE (layer_nid nf i) rows))%nat.
    + intros E2. apply apply_layer_data in E2;
        [|intros id r r' Hr; now inversion Hr]. congruence.
    + intros E2. inversion E2; subst. exact E1.
  - destruct (0 <? length (nodes_of_type MOVIE (layer_nid nf i) rows))%nat.
    + intros E2. apply apply_layer_data in E2;
        [|intros id r r' Hr; now inversion Hr]. exact E2.
    + intros E2. now inversion E2.
Qed.

Lemma block_step_data (enc : t) (nf : NodeFlow) (i : nat) (fr fr' : Frames) :
  block_step enc nf i fr = Some fr' ->
  map (map data) fr' = map (map data) fr.
Proof.
  unfold block_step, set_layer_deg, block_compute.
  destruct (nth_error fr (S i)) as [rows0|] eqn:Hr0; [|discriminate].
  set (fr1 := set_layer (S i) (assign_deg nf i 0 rows0) fr).
  assert (D1 : map (map data) fr1 = map (map data) fr)
    by (apply (set_layer_data (S i) _ rows0 fr Hr0), assign_deg_data).
  destruct (nth_error fr1 (S i)) as [rows|] eqn:Hr; [|discriminate].
  destruct (nth_error fr1 i) as [src_rows|]; [|discriminate].
  destruct (aggregate_rows nf (embedding_size enc) i src_rows 0 rows)
    as [rowsA|] eqn:HA; [|discriminate].
  set (fr2 := set_layer (S i) rowsA fr1).
  assert (D2 : map (map data) fr2 = map (map data) fr1).
  { apply (set_layer_data (S i) _ rows fr1 Hr).
    now apply (aggregate_rows_data nf (embedding_size enc) i src_rows rows 0). }
  assert (Hstep : forall (layers : list GraphSageNodeUpdate.t) v frA frB,
            (if (0 <? length v)%nat
             then match nth_error layers i with
                  | Some upd =>
                      apply_layer nf (S i)
                        (fun _ r => GraphSageNodeUpdate.forward upd r) v frA
                  | None => None
                  end
             else Some frA) = Some frB ->
            map (map data) frB = map (map data) frA).
  { intros layers v frA frB.
    destruct (0 <? length v)%nat; [|intros E; now inversion E].
    destruct (nth_error layers i) as [upd|]; [|discriminate].
    intros E. apply apply_layer_data in E; [exact E|].
    intros id r r' Hf. now apply (forward_update_data upd). }
  destruct (if (0 <? length (nodes_of_type USER (layer_nid nf (S i)) rows))%nat
            then _ else Some fr2) as [fr3|] eqn:E3; [|discriminate].
  apply Hstep in E3. intros E4. apply Hstep in E4. congruence.
Qed.

Lemma for_each_data (body : nat -> Frames -> option Frames) :
  (forall i fr fr', body i fr = Some fr' -> map (map data) fr' = map (map data) fr) ->
  forall idxs fr fr',
    for_each body idxs fr = Some fr' -> map (map data) fr' = map (map data) fr.
Proof.
  intros Hb. induction idxs as [|i idxs IH]; intros fr fr' H; simpl in H.
  - now inversion H.
  - destruct (body i fr) as [fr1|] eqn:E; [|discriminate].
    rewrite (IH _ _ H). now apply (Hb i).
Qed.

(** The encoder only writes the columns [h], [h_agg] and [deg]: whatever
    the NodeFlow, the rows keep the features of their parent nodes. *)
Lemma after_blocks_data (enc : t) (ndata : nat -> NData) (nf : NodeFlow)
    (n : nat) (fr : Frames) :
  after_blocks enc ndata nf n = Some fr ->
  map (map data) fr = map (map ndata) (layer_parent_nids nf).
Proof.
  unfold after_blocks, embedded.
  destruct (for_each (embed_layer enc nf) (seq 0 (num_layers nf))
              (copy_from_parent ndata nf)) as [fr0|] eqn:E0; [|discriminate].
  intros E1.
  apply (for_each_data (block_step enc nf) (block_step_data enc nf)) in E1.
  apply (for_each_data (embed_layer enc nf) (embed_layer_data enc nf)) in E0.
  rewrite E1, E0. unfold copy_from_parent. rewrite map_map.
  apply map_ext. intros ps. rewrite map_map. reflexivity.
Qed.

(** X8.  Throughout the second loop every row of every layer keeps the
    features of its parent node; only the columns [h], [h_agg] and [deg]
    are written. *)
Theorem features_are_never_written (enc : t) (ndata : nat -> NData)
    (nf : NodeFlow) (n : nat) :
  well_formed nf = true ->
  (num_blocks nf <= length (user_layers enc))%nat ->
  (num_blocks nf <= length (movie_layers enc))%nat ->
  (n <= num_blocks nf)%nat ->
  exists fr,
    after_blocks enc ndata nf n = Some fr /\
    map (map data) fr = map (map ndata) (layer_parent_nids nf) /\
    forall i k p,
      nth_error (layer_parent_nid nf i) k = Some p ->
      exists r, cell fr i k = Some r /\ data r = ndata p.
Proof.
  intros Hwf HU HM Hn.
  destruct (after_blocks_spec enc ndata nf Hwf HU HM n Hn)
    as (fr0 & fr & _ & Hfr & _).
  pose proof (after_blocks_data enc ndata nf n fr Hfr) as Hd.
  exists fr. split; [assumption|]. split; [assumption|].
  intros i k p Hp. unfold cell, layer_parent_nid in *.
  assert (Hm : nth_error (map (map data) fr) i
               = nth_error (map (map ndata) (layer_parent_nids nf)) i)
    by (now rewrite Hd).
  rewrite !nth_error_map in Hm.
  destruct (nth_error (layer_parent_nids nf) i) as [ps|] eqn:Eps.
  - rewrite (nth_error_nth _ _ _ Eps) in Hp.
    destruct (nth_error fr i) as [rows|]; [|discriminate].
    cbn [option_map] in Hm. inversion Hm as [Hrows].
    assert (Hk : nth_error (map data rows) k = nth_error (map ndata ps) k)
      by (now rewrite Hrows).
    rewrite !nth_error_map, Hp in Hk.
    destruct (nth_error rows k) as [r|]; [|discriminate].
    cbn [option_map] in Hk. inversion Hk. now exists r.
  - rewrite nth_overflow in Hp by (now apply nth_error_None).
    now destruct k.
Qed.

(** X8 on the NodeFlow of one seed with two neighbours and a self-loop. *)
Lemma features_are_never_written_witness :
  exists fr,
    after_blocks Example.encoder Example.ndata Example.nf 1 = Some fr /\
    map (map data) fr = map (map Example.ndata) (layer_parent_nids Example.nf) /\
    forall i k p,
      nth_error (layer_parent_nid Example.nf i) k = Some p ->
      exists r, cell fr i k = Some r /\ data r = Example.ndata p.
Proof.
  apply (features_are_never_written Example.encoder Example.ndata Example.nf 1);
    [reflexivity | vm_compute; lia | vm_compute; lia | vm_compute; lia].
Defined.

(** X9.  An encoder that has no update block left for block [n] and for a
    node type cannot process a NodeFlow whose layer [n+1] holds a node of
    that type: indexing [user_layers] or [movie_layers] past its end raises
    and the whole [forward] fails. *)
Theorem forward_fails_without_layer (enc : t) (ndata : nat -> NData)
    (nf : NodeFlow) (n k p : nat) :
  (n < num_blocks nf)%nat ->
  nth_error (layer_parent_nid nf (S n)) k = Some p ->
  layer_update enc (type (ndata p)) n = None ->
  forward enc ndata nf = None.
Proof.
  intros Hn Hp Hupd. unfold forward.
  replace (after_blocks enc ndata nf (num_blocks nf)) with (@None Frames);
    [reflexivity|].
  symmetry. unfold after_blocks.
  destruct (embedded enc ndata nf) as [fr0|] eqn:Hemb; [|reflexivity].
  replace (num_blocks nf) with (n + S (num_blocks nf - S n))%nat by lia.
  rewrite seq_app, for_each_app. cbn [Nat.add seq for_each].
  destruct (for_each (block_step enc nf) (seq 0 n) fr0) as [fr|] eqn:Hfr;
    [|reflexivity].
  assert (Hd : map (map data) fr = map (map ndata) (layer_parent_nids nf)).
  { apply (after_blocks_data enc ndata nf n). unfold after_blocks.
    now rewrite Hemb. }
  replace (block_step enc nf n fr) with (@None Frames); [reflexivity|].
  symmetry. unfold block_step, set_layer_deg.
  destruct (nth_error fr (S n)) as [rows0|] eqn:Hr0; [|reflexivity].
  rewrite (nth_error_set_layer_same (S n) _ rows0 fr Hr0).
  (* row [k] of the layer has the node type of [p] *)
  assert (Hps : nth_error (layer_parent_nids nf) (S n) = Some (layer_parent_nid nf (S n))).
  { unfold layer_parent_nid in *.
    destruct (nth_error (layer_parent_nids nf) (S n)) as [ps|] eqn:E.
    - now rewrite (nth_error_nth _ _ _ E).
    - rewrite nth_overflow in Hp by (now apply nth_error_None). now destruct k. }
  assert (Hrows0 : map data rows0 = map ndata (layer_parent_nid nf (S n))).
  { assert (Hm : nth_error (map (map data) fr) (S n)
                 = nth_error (map (map ndata) (layer_parent_nids nf)) (S n))
      by (now rewrite Hd).
    rewrite !nth_error_map, Hr0, Hps in Hm. now inversion Hm. }
  set (rows := assign_deg nf n 0 rows0).
  assert (Hrows : map data rows = map ndata (layer_parent_nid nf (S n)))
    by (subst rows; now rewrite assign_deg_data).
  assert (Hlen : length rows = layer_size nf (S n)).
  { unfold layer_size. rewrite <- (length_map data rows), Hrows. apply length_map. }
  assert (Hrk : exists r, nth_error rows k = Some r /\ data r = ndata p).
  { assert (Hk : nth_error (map data rows) k
                 = nth_error (map ndata (layer_parent_nid nf (S n))) k)
      by (now rewrite Hrows).
    rewrite !nth_error_map, Hp in Hk.
    destruct (nth_error rows k) as [r|]; [|discriminate].
    inversion Hk. now exists r. }
  destruct Hrk as (r & Hr & Hdata).
  assert (Hsel : (0 <? length (nodes_of_type (type (ndata p))
                                 (layer_nid nf (S n)) rows))%nat = true).
  { apply Nat.ltb_lt. unfold layer_nid. rewrite <- Hlen.
    pose proof (existsb_nodes_of_type (type (ndata p)) rows
                  (layer_offset nf (S n)) k r Hr) as Hex.
    rewrite Hdata in Hex.
    replace (type_eqb (type (ndata p)) (type (ndata p))) with true in Hex
      by (now destruct (type (ndata p))).
    destruct (nodes_of_type _ _ rows); [discriminate|simpl; lia]. }
  destruct (block_compute nf (embedding_size enc) n _) as [fr2|]; [|reflexivity].
  unfold layer_update in Hupd. destruct (type (ndata p)).
  - destruct (if (0 <? length (nodes_of_type USER (layer_nid nf (S n)) rows))%nat
              then _ else Some fr2) as [fr3|]; [|reflexivity].
    now rewrite Hsel, Hupd.
  - now rewrite Hsel, Hupd.
Qed.

(** X9 on the example NodeFlow and an encoder built without any layer. *)
Lemma forward_fails_without_layer_witness :
  forward ExampleMore.encoder_no_layer Example.ndata Example.nf = None.
Proof.
  apply (forward_fails_without_layer ExampleMore.encoder_no_layer Example.ndata
           Example.nf 0 0 0);
    [vm_compute; lia | reflexivity | reflexivity].
Defined.

End EncoderProperties.

(** ** The recommender and the decoder *)

Module RecommenderProperties.
Import Tensor Graph GraphFacts GraphSageEncoder EncoderFacts TensorFacts.
Import EncoderClaims ModelClaims EncoderProperties Py PyFacts.

Local Open Scope R_scope.

Lemma index_of_spec (p : nat) (ids : list nat) :
  In p ids -> exists k, GNNRecommender.index_of p ids = Some k /\ nth_error ids k = Some p.
Proof.
  induction ids as [|q ids IH]; intros Hin; [contradiction|]. simpl.
  destruct (q =? p)%nat eqn:E.
  - apply Nat.eqb_eq in E. subst q. now exists 0%nat.
  - destruct Hin as [->|Hin]; [rewrite Nat.eqb_refl in E; discriminate|].
    destruct (IH Hin) as (k & Hk & Hn). rewrite Hk. now exists (S k).
Qed.

Lemma map_from_parent_nid_spec (nf : NodeFlow) (ids : list nat) :
  Forall (fun u => In u (seed_nodes nf)) ids ->
  exists ks,
    GNNRecommender.map_from_parent_nid nf ids = Some ks /\
    Forall2 (fun u k => nth_error (seed_nodes nf) k = Some u) ids ks.
Proof.
  induction 1 as [|u ids Hu _ (ks & Hks & HF)]; simpl.
  - exists []. split; [reflexivity|constructor].
  - destruct (index_of_spec u _ Hu) as (k & Hk & Hn).
    rewrite Hk, Hks. exists (k :: ks). split; [reflexivity|now constructor].
Qed.

(** The encoder succeeds on a well-formed NodeFlow that is not deeper than
    the encoder, with one row per seed. *)
Lemma forward_rows (enc : t) (ndata : nat -> NData) (nf : NodeFlow) :
  well_formed nf = true ->
  (num_blocks nf <= length (user_layers enc))%nat ->
  (num_blocks nf <= length (movie_layers enc))%nat ->
  (0 < num_layers nf)%nat ->
  exists out,
    forward enc ndata nf = Some out /\ length out = length (seed_nodes nf).
Proof.
  intros Hwf HU HM HL.
  destruct (after_blocks_spec enc ndata nf Hwf HU HM (num_blocks nf) (le_n _))
    as (fr0 & frL & Hemb & HfrL & Hs & Hh & _ & _).
  destruct (same_shape_exists nf frL (num_layers nf - 1) Hs) as [rows Hrows];
    [lia|].
  destruct (same_shape_layer nf frL _ rows Hs Hrows) as [Lrows _].
  exists (map h_of rows). split.
  - unfold forward. rewrite HfrL, Hrows. apply column_h_spec.
    intros k r Hr. apply (Hh (num_layers nf - 1)%nat k). unfold cell. now rewrite Hrows.
  - rewrite length_map. exact Lrows.
Qed.

Lemma gather_rows {A : Type} (xs : list A) (ids ks : list nat) (seeds : list nat) :
  length xs = length seeds ->
  Forall2 (fun u k => nth_error seeds k = Some u) ids ks ->
  exists l,
    gather xs ks = Some l /\
    length l = length ids /\
    forall t u, nth_error ids t = Some u ->
      exists k x, nth_error seeds k = Some u /\ nth_error xs k = Some x /\
                  nth_error l t = Some x.
Proof.
  intros HL HF. induction HF as [|u k ids ks Hk _ (l & Hg & Hlen & Hall)].
  - exists []. split; [reflexivity|]. split; [reflexivity|].
    intros [|t] u H; discriminate.
  - assert (Hlt : (k < length xs)%nat)
      by (rewrite HL; apply nth_error_Some; congruence).
    destruct (nth_error xs k) as [x|] eqn:Ex;
      [|apply nth_error_None in Ex; lia].
    exists (x :: l). simpl. rewrite Ex, Hg.
    split; [reflexivity|]. split; [now rewrite Hlen|].
    intros [|t] u' Hu'; simpl in Hu'.
    + inversion Hu'; subst u'. now exists k, x.
    + apply (Hall t u' Hu').
Qed.

(** X10.  On a well-formed NodeFlow whose seed layer holds all the users
    and items of the batch, the recommender succeeds, and the score of
    pair [t] is the dot product of the encoder rows of these two nodes plus
    their two biases. *)
Theorem recommender_scores_pairs (self : GNNRecommender.t) (ndata : nat -> NData)
    (nf : NodeFlow) (users items : list nat) :
  well_formed nf = true ->
  (num_blocks nf <= length (user_layers (GNNRecommender.encoder self)))%nat ->
  (num_blocks nf <= length (movie_layers (GNNRecommender.encoder self)))%nat ->
  (0 < num_layers nf)%nat ->
  length items = length users ->
  Forall (fun u => In u (seed_nodes nf)) users ->
  Forall (fun v => In v (seed_nodes nf)) items ->
  Forall (fun u => (u + 1 < length (DotDecoder.biases (GNNRecommender.decoder self)))%nat)
         users ->
  Forall (fun v => (v + 1 < length (DotDecoder.biases (GNNRecommender.decoder self)))%nat)
         items ->
  exists out scores,
    forward (GNNRecommender.encoder self) ndata nf = Some out /\
    GNNRecommender.forward self ndata nf users items = Some scores /\
    length scores = length users /\
    forall t u v,
      nth_error users t = Some u -> nth_error items t = Some v ->
      exists ku kv hu hv,
        nth_error (seed_nodes nf) ku = Some u /\ nth_error out ku = Some hu /\
        nth_error (seed_nodes nf) kv = Some v /\ nth_error out kv = Some hv /\
        nth_error scores t
        = Some (dot hu hv
                + DotDecoder.node_bias (GNNRecommender.decoder self) u
                + DotDecoder.node_bias (GNNRecommender.decoder self) v).
Proof.
  intros Hwf HU HM HL Hlen HuS HvS HuB HvB.
  destruct (forward_rows _ ndata nf Hwf HU HM HL) as (out & Hout & Lout).
  destruct (map_from_parent_nid_spec nf users HuS) as (iu & Hiu & Fu).
  destruct (map_from_parent_nid_spec nf items HvS) as (ii & Hii & Fi).
  destruct (gather_rows out users iu _ Lout Fu) as (h_users & Hgu & Lu & Hru).
  destruct (gather_rows out items ii _ Lout Fi) as (h_items & Hgi & Li & Hri).
  exists out. eexists. split; [assumption|]. split.
  { unfold GNNRecommender.forward. rewrite Hout, Hiu, Hii, Hgu, Hgi.
    unfold DotDecoder.forward.
    rewrite (gather_biases _ users HuB), (gather_biases _ items HvB). reflexivity. }
  split.
  { apply length_scores; rewrite ?length_map; lia. }
  intros t u v Hu Hv.
  destruct (Hru t u Hu) as (ku & hu & Sku & Oku & Nu).
  destruct (Hri t v Hv) as (kv & hv & Skv & Okv & Nv).
  exists ku, kv, hu, hv. repeat (split; [assumption|]).
  apply nth_error_scores; try assumption.
  - rewrite nth_error_map, Hu. reflexivity.
  - rewrite nth_error_map, Hv. reflexivity.
Qed.

(** X10 on a batch of one user and one movie. *)
Lemma recommender_scores_pairs_witness :
  exists out scores,
    forward (GNNRecommender.encoder ExampleModel.model) Example.ndata ExamplePair.nf
    = Some out /\
    GNNRecommender.forward ExampleModel.model Example.ndata ExamplePair.nf [0%nat] [3%nat]
    = Some scores /\
    length scores = length [0%nat] /\
    forall t u v,
      nth_error [0%nat] t = Some u -> nth_error [3%nat] t = Some v ->
      exists ku kv hu hv,
        nth_error (seed_nodes ExamplePair.nf) ku = Some u /\
        nth_error out ku = Some hu /\
        nth_error (seed_nodes ExamplePair.nf) kv = Some v /\
        nth_error out kv = Some hv /\
        nth_error scores t
        = Some (dot hu hv
                + DotDecoder.node_bias (GNNRecommender.decoder ExampleModel.model) u
                + DotDecoder.node_bias (GNNRecommender.decoder ExampleModel.model) v).
Proof.
  apply (recommender_scores_pairs ExampleModel.model Example.ndata ExamplePair.nf
           [0%nat] [3%nat]);
    [reflexivity | vm_compute; lia | vm_compute; lia | vm_compute; lia | reflexivity
    | constructor; [vm_compute; auto | constructor]
    | constructor; [vm_compute; auto | constructor]
    | constructor; [vm_compute; lia | constructor]
    | constructor; [vm_compute; lia | constructor]].
Defined.

End RecommenderProperties.

(** ** The decoder at initialisation, the test embeddings and the error *)

Module TestProperties.
Import Tensor Graph GraphFacts GraphSageEncoder EncoderFacts TensorFacts.
Import EncoderClaims ModelClaims EncoderProperties RecommenderProperties Py PyFacts.

Local Open Scope R_scope.

(** X13.  A decoder created for [num_nodes] nodes has a bias for every node
    id below [num_nodes], so it scores any batch of such ids; as long as
    its biases are the zeros they are initialised with, the score of a pair
    is the dot product of the two embeddings alone. *)
Theorem fresh_decoder_scores_by_dot_product (num_nodes : nat)
    (h_users h_items : list vec) (users items : list nat) :
  length h_users = length users ->
  length h_items = length users ->
  length items = length users ->
  Forall (fun u => (u < num_nodes)%nat) users ->
  Forall (fun v => (v < num_nodes)%nat) items ->
  exists out,
    DotDecoder.forward (DotDecoderInit.init num_nodes) h_users h_items users items
    = Some out /\
    length out = length users /\
    forall t hu hi,
      nth_error h_users t = Some hu -> nth_error h_items t = Some hi ->
      nth_error out t = Some (dot hu hi).
Proof.
  intros L1 L2 L3 HU HI.
  assert (Hlen : length (DotDecoder.biases (DotDecoderInit.init num_nodes))
                 = (num_nodes + 1)%nat) by apply repeat_length.
  assert (HU' : Forall (fun u => (u + 1 < length (DotDecoder.biases
                                   (DotDecoderInit.init num_nodes)))%nat) users).
  { rewrite Hlen. eapply Forall_impl; [|exact HU]. simpl. intros; lia. }
  assert (HI' : Forall (fun u => (u + 1 < length (DotDecoder.biases
                                   (DotDecoderInit.init num_nodes)))%nat) items).
  { rewrite Hlen. eapply Forall_impl; [|exact HI]. simpl. intros; lia. }
  unfold DotDecoder.forward.
  rewrite (gather_biases _ users HU'), (gather_biases _ items HI').
  eexists. split; [reflexivity|]. split.
  - apply length_scores; rewrite ?length_map; lia.
  - intros t hu hi H1 H2.
    assert (Ht : (t < length users)%nat)
      by (rewrite <- L1; apply nth_error_Some; congruence).
    destruct (nth_error users t) as [u|] eqn:Eu;
      [|apply nth_error_None in Eu; lia].
    destruct (nth_error items t) as [v|] eqn:Ev;
      [|apply nth_error_None in Ev; lia].
    rewrite (nth_error_scores _ _ _ _ t hu hi
               (nth (u + 1) (DotDecoder.biases (DotDecoderInit.init num_nodes)) 0)
               (nth (v + 1) (DotDecoder.biases (DotDecoderInit.init num_nodes)) 0)
               H1 H2).
    + unfold DotDecoderInit.init. cbn [DotDecoder.biases].
      rewrite !nth_repeat. f_equal. ring.
    + rewrite nth_error_map, Eu. reflexivity.
    + rewrite nth_error_map, Ev. reflexivity.
Qed.

(** X13 for five nodes and a batch of two pairs. *)
Lemma fresh_decoder_scores_by_dot_product_witness :
  exists out,
    DotDecoder.forward (DotDecoderInit.init 5) [[1; 2]; [0; 1]] [[3; 4]; [5; 6]]
      [0; 1]%nat [3; 4]%nat
    = Some out /\
    length out = length [0; 1]%nat /\
    forall t hu hi,
      nth_error [[1; 2]; [0; 1]] t = Some hu ->
      nth_error [[3; 4]; [5; 6]] t = Some hi ->
      nth_error out t = Some (dot hu hi).
Proof.
  apply (fresh_decoder_scores_by_dot_product 5 [[1; 2]; [0; 1]] [[3; 4]; [5; 6]]
           [0; 1]%nat [3; 4]%nat);
    [reflexivity | reflexivity | reflexivity
    | constructor; [lia | constructor; [lia | constructor]]
    | constructor; [lia | constructor; [lia | constructor]]].
Defined.

(** *** The embeddings computed by [test] *)

Lemma test_embeddings_rows (enc : t) (ndata : nat -> NData) (nfs : list NodeFlow) :
  Forall (fun nf => exists out, forward enc ndata nf = Some out /\
                                length out = length (seed_nodes nf)) nfs ->
  exists h,
    Metrics.test_embeddings enc ndata nfs = Some h /\
    length h = length (concat (map seed_nodes nfs)) /\
    forall v p,
      nth_error (concat (map seed_nodes nfs)) v = Some p ->
      exists nf out j x,
        In nf nfs /\ forward enc ndata nf = Some out /\
        nth_error (seed_nodes nf) j = Some p /\
        nth_error out j = Some x /\ nth_error h v = Some x.
Proof.
  induction 1 as [|nf nfs (out & Hout & Lout) _ (h & Hh & Lh & Hrows)]; simpl.
  - exists []. split; [reflexivity|]. split; [reflexivity|].
    intros [|v] p H; discriminate.
  - rewrite Hout, Hh. exists (out ++ h). split; [reflexivity|].
    split; [rewrite !length_app; lia|].
    intros v p Hv.
    destruct (lt_dec v (length (seed_nodes nf))) as [Hlt|Hge].
    + rewrite nth_error_app1 in Hv by assumption.
      destruct (nth_error out v) as [x|] eqn:Ex;
        [|apply nth_error_None in Ex; lia].
      exists nf, out, v, x. split; [now left|].
      repeat (split; [assumption|]).
      rewrite nth_error_app1 by lia. exact Ex.
    + rewrite nth_error_app2 in Hv by lia.
      destruct (Hrows _ p Hv) as (nf' & out' & j & x & Hin & Ho & Hs & Hx & Hn).
      exists nf', out', j, x. split; [now right|].
      repeat (split; [assumption|]).
      rewrite nth_error_app2 by lia. now rewrite Lout.
Qed.

(** *** The error *)

Lemma length_zip_sub (score r : list R) :
  length score = length r -> length (Metrics.zip_sub score r) = length r.
Proof.
  revert r. induction score as [|s score IH]; intros [|x r] HL; simpl in *;
    try discriminate; [reflexivity|]. f_equal. apply IH. lia.
Qed.

Lemma sum_squares_nonneg (l : list R) :
  0 <= sum_entries (map (fun x => x * x) l).
Proof.
  unfold sum_entries. induction l as [|x l IH]; simpl; [lra|].
  pose proof (Rle_0_sqr x) as Hsq. unfold Rsqr in Hsq. lra.
Qed.

Lemma sum_squares_zero (score r : list R) :
  length score = length r ->
  (sum_entries (map (fun x => x * x) (Metrics.zip_sub score r)) = 0 <-> score = r).
Proof.
  revert r. induction score as [|s score IH]; intros [|x r] HL; simpl in *;
    try discriminate.
  - split; reflexivity.
  - pose proof (sum_squares_nonneg (Metrics.zip_sub score r)) as Hn.
    pose proof (Rle_0_sqr (s - x)) as Hsq. unfold Rsqr in Hsq.
    specialize (IH r (eq_add_S _ _ HL)).
    unfold sum_entries in *. simpl. split.
    + intros H.
      assert (H1 : (s - x) * (s - x) = 0) by lra.
      assert (H2 : fold_right Rplus 0 (map (fun y => y * y) (Metrics.zip_sub score r)) = 0)
        by lra.
      apply Rmult_integral in H1.
      f_equal; [destruct H1; lra | now apply IH].
    + intros H. inversion H; subst.
      assert (H2 : fold_right Rplus 0 (map (fun y => y * y) (Metrics.zip_sub r r)) = 0)
        by (now apply IH).
      rewrite H2. ring.
Qed.

(** On as many scores as ratings, at least one, the error is the root of
    the mean of the squared differences. *)
Lemma rmse_equal_lengths (score rating_test : list R) :
  length score = length rating_test ->
  (0 < length rating_test)%nat ->
  Metrics.rmse score rating_test
  = Some (sqrt (sum_entries (map (fun x => x * x) (Metrics.zip_sub score rating_test))
                / INR (length rating_test))).
Proof.
  intros HL Hpos.
  unfold Metrics.rmse, Metrics.mse, Metrics.squared_errors, Metrics.broadcast_sub.
  rewrite HL, Nat.eqb_refl. cbn [option_map].
  pose proof (length_zip_sub _ _ HL) as Lz.
  assert (Lm : length (map (fun x => x * x) (Metrics.zip_sub score rating_test))
               = length rating_test) by (now rewrite length_map).
  unfold Metrics.mean.
  destruct (map (fun x => x * x) (Metrics.zip_sub score rating_test)) as [|y sq] eqn:Esq;
    [simpl in Lm; lia|].
  cbn [option_map]. now rewrite Lm.
Qed.

Lemma gather_nth {A : Type} (xs : list A) (idx : list nat) :
  Forall (fun i => (i < length xs)%nat) idx ->
  exists l,
    gather xs idx = Some l /\
    length l = length idx /\
    forall t i, nth_error idx t = Some i -> nth_error l t = nth_error xs i.
Proof.
  induction 1 as [|i idx Hi _ (l & Hg & Hl & Hn)]; simpl.
  - exists []. split; [reflexivity|]. split; [reflexivity|].
    intros [|t] i H; discriminate.
  - destruct (nth_error xs i) as [x|] eqn:Hx;
      [|apply nth_error_None in Hx; lia].
    rewrite Hg. exists (x :: l). split; [reflexivity|].
    split; [simpl; lia|].
    intros [|t] j H; simpl in *.
    + inversion H; subst. now rewrite Hx.
    + now apply Hn.
Qed.

Section Test.

Variable enc : t.
Variable ndata : nat -> NData.
Variable sample_nodeflow : nat -> list nat -> NodeFlow.
Variable batch_size : nat.
Variable dec : DotDecoder.t.

Hypothesis Hseeds : forall k seeds, seed_nodes (sample_nodeflow k seeds) = seeds.
Hypothesis Hwf : forall k seeds, well_formed (sample_nodeflow k seeds) = true.
Hypothesis HlenU :
  forall k seeds, (num_blocks (sample_nodeflow k seeds) <= length (user_layers enc))%nat.
Hypothesis HlenM :
  forall k seeds, (num_blocks (sample_nodeflow k seeds) <= length (movie_layers enc))%nat.
Hypothesis Hlayers : forall k seeds, (0 < num_layers (sample_nodeflow k seeds))%nat.
Hypothesis Hbs : (0 < batch_size)%nat.

Lemma sample_groups_seeds (gs : list (list nat)) :
  forall k,
    map seed_nodes (EdgeSampling.sample_groups sample_nodeflow k gs) = gs /\
    Forall (fun nf => exists out, forward enc ndata nf = Some out /\
                                  length out = length (seed_nodes nf))
           (EdgeSampling.sample_groups sample_nodeflow k gs).
Proof.
  induction gs as [|g gs IH]; intros k; simpl.
  - split; constructor.
  - destruct (IH (S k)) as [Hm HF]. split.
    + now rewrite Hseeds, Hm.
    + constructor; [|assumption].
      apply forward_rows; auto.
Qed.

Lemma seed_groups_concat_all (seeds : list nat) :
  concat (EdgeSampling.seed_groups batch_size seeds) = seeds.
Proof.
  unfold EdgeSampling.seed_groups.
  destruct (range 0 (length seeds) batch_size) as [starts|] eqn:Hr.
  - apply (EdgeSamplingFacts.concat_chunks batch_size seeds starts Hbs Hr).
  - unfold range in Hr. destruct (batch_size =? 0)%nat eqn:E; [|discriminate].
    apply Nat.eqb_eq in E. lia.
Qed.

(** X14.  If the sampler gives, for every group of seeds, a well-formed
    NodeFlow with exactly these seeds in its last layer, then the
    embeddings [test] concatenates have one row per node of the graph, and
    row [v] is the row that the encoder returned for node [v] on the
    NodeFlow of its group: indexing the result by a node id gives the
    embedding of that node. *)
Theorem test_embeddings_indexed_by_node (num_nodes : nat) :
  exists h,
    Metrics.test_embeddings enc ndata
      (EdgeSampling.NeighborSampler sample_nodeflow batch_size (seq 0 num_nodes))
    = Some h /\
    length h = num_nodes /\
    forall v, (v < num_nodes)%nat ->
      exists nf out j x,
        In nf (EdgeSampling.NeighborSampler sample_nodeflow batch_size (seq 0 num_nodes)) /\
        forward enc ndata nf = Some out /\
        nth_error (seed_nodes nf) j = Some v /\
        nth_error out j = Some x /\
        nth_error h v = Some x.
Proof.
  unfold EdgeSampling.NeighborSampler.
  destruct (sample_groups_seeds
              (EdgeSampling.seed_groups batch_size (seq 0 num_nodes)) 0) as [Hm HF].
  destruct (test_embeddings_rows enc ndata _ HF) as (h & Hh & Lh & Hrows).
  rewrite Hm, seed_groups_concat_all in Lh, Hrows.
  exists h. split; [assumption|]. split; [now rewrite Lh, length_seq|].
  intros v Hv. apply Hrows.
  rewrite nth_error_nth' with (d := 0%nat) by (now rewrite length_seq).
  now rewrite seq_nth.
Qed.

(** X16.  Under the same conditions on the sampler, on a graph with at
    least one node, with at least one test edge, as many ratings as test
    edges, test edges between nodes of the graph and a bias for each of
    them, [test] returns the root of the mean squared difference between
    the scores of the test edges and their ratings, where the score of the
    edge [(u, v)] is the dot product of rows [u] and [v] of the
    precomputed embeddings plus the biases of [u] and [v]. *)
Theorem test_scores_test_edges (num_nodes : nat) (src_test dst_test : list nat)
    (rating_test : list R) :
  (0 < num_nodes)%nat ->
  Forall (fun u => (u < num_nodes)%nat) src_test ->
  Forall (fun v => (v < num_nodes)%nat) dst_test ->
  length dst_test = length src_test ->
  length rating_test = length src_test ->
  (0 < length src_test)%nat ->
  (num_nodes < length (DotDecoder.biases dec))%nat ->
  exists h score e,
    Metrics.test_embeddings enc ndata
      (EdgeSampling.NeighborSampler sample_nodeflow batch_size (seq 0 num_nodes))
    = Some h /\
    Metrics.rmse score rating_test = Some e /\
    Metrics.test (GNNRecommender.mk enc dec) ndata sample_nodeflow batch_size
      num_nodes src_test dst_test rating_test
    = Some e /\
    e = sqrt (sum_entries (map (fun x => x * x) (Metrics.zip_sub score rating_test))
              / INR (length rating_test)) /\
    length score = length src_test /\
    forall t u v hu hv,
      nth_error src_test t = Some u -> nth_error dst_test t = Some v ->
      nth_error h u = Some hu -> nth_error h v = Some hv ->
      nth_error score t
      = Some (dot hu hv + nth (u + 1) (DotDecoder.biases dec) 0
                        + nth (v + 1) (DotDecoder.biases dec) 0).
Proof.
  intros HN HS HD HL HLr Hpos HB.
  destruct (sample_groups_seeds
              (EdgeSampling.seed_groups batch_size (seq 0 num_nodes)) 0) as [Hm HF].
  destruct (test_embeddings_rows enc ndata _ HF) as (h & Hh & Lh & _).
  rewrite Hm, seed_groups_concat_all, length_seq in Lh.
  assert (HS' : Forall (fun u => (u < length h)%nat) src_test) by (now rewrite Lh).
  assert (HD' : Forall (fun u => (u < length h)%nat) dst_test) by (now rewrite Lh).
  destruct (gather_nth h src_test HS') as (h_src & Gs & Ls & Ns).
  destruct (gather_nth h dst_test HD') as (h_dst & Gd & Ld & Nd).
  assert (HSb : Forall (fun u => (u + 1 < length (DotDecoder.biases dec))%nat) src_test).
  { eapply Forall_impl; [|exact HS]. simpl. intros; lia. }
  assert (HDb : Forall (fun u => (u + 1 < length (DotDecoder.biases dec))%nat) dst_test).
  { eapply Forall_impl; [|exact HD]. simpl. intros; lia. }
  assert (Lsc : length (DotDecoder.scores h_src h_dst
                          (map (fun u => nth (u + 1) (DotDecoder.biases dec) 0) src_test)
                          (map (fun u => nth (u + 1) (DotDecoder.biases dec) 0) dst_test))
                = length src_test)
    by (apply length_scores; rewrite ?length_map; lia).
  pose proof (rmse_equal_lengths _ rating_test (eq_trans Lsc (eq_sym HLr))
                ltac:(lia)) as Hrmse.
  exists h. do 2 eexists. split; [exact Hh|]. split; [exact Hrmse|].
  unfold Metrics.test. cbn [GNNRecommender.encoder GNNRecommender.decoder].
  fold (EdgeSampling.NeighborSampler sample_nodeflow batch_size (seq 0 num_nodes)) in Hh.
  destruct (EdgeSampling.NeighborSampler sample_nodeflow batch_size (seq 0 num_nodes))
    as [|nf0 nfs] eqn:Hsam.
  { exfalso. unfold EdgeSampling.NeighborSampler in Hsam. rewrite Hsam in Hm.
    simpl in Hm. pose proof (seed_groups_concat_all (seq 0 num_nodes)) as Hc.
    rewrite <- Hm in Hc. simpl in Hc.
    apply (f_equal (@length nat)) in Hc. rewrite length_seq in Hc. simpl in Hc. lia. }
  rewrite Hh, Gs, Gd. unfold DotDecoder.forward.
  rewrite (gather_biases _ src_test HSb), (gather_biases _ dst_test HDb).
  split; [exact Hrmse|]. split; [reflexivity|]. split.
  - exact Lsc.
  - intros t u v hu hv Hu Hv Hhu Hhv.
    apply nth_error_scores.
    + now rewrite (Ns _ _ Hu).
    + now rewrite (Nd _ _ Hv).
    + now rewrite nth_error_map, Hu.
    + now rewrite nth_error_map, Hv.
Qed.

End Test.

(** X14 with a sampler that returns NodeFlows of a single layer. *)
Lemma test_embeddings_indexed_by_node_witness :
  exists h,
    Metrics.test_embeddings Example.encoder Example.ndata
      (EdgeSampling.NeighborSampler ExampleModel.seeds_only 2 (seq 0 5))
    = Some h /\
    length h = 5%nat /\
    forall v, (v < 5)%nat ->
      exists nf out j x,
        In nf (EdgeSampling.NeighborSampler ExampleModel.seeds_only 2 (seq 0 5)) /\
        forward Example.encoder Example.ndata nf = Some out /\
        nth_error (seed_nodes nf) j = Some v /\
        nth_error out j = Some x /\
        nth_error h v = Some x.
Proof.
  apply (test_embeddings_indexed_by_node Example.encoder Example.ndata
           ExampleModel.seeds_only 2);
    [intros; reflexivity | intros; reflexivity | intros; vm_compute; lia
    | intros; vm_compute; lia | intros; vm_compute; lia | lia].
Defined.

(** X16 on five nodes and two test edges. *)
Lemma test_scores_test_edges_witness :
  exists h score e,
    Metrics.test_embeddings Example.encoder Example.ndata
      (EdgeSampling.NeighborSampler ExampleModel.seeds_only 2 (seq 0 5))
    = Some h /\
    Metrics.rmse score [4; 5] = Some e /\
    Metrics.test (GNNRecommender.mk Example.encoder Example.decoder) Example.ndata
      ExampleModel.seeds_only 2 5 [0; 1]%nat [3; 4]%nat [4; 5]
    = Some e /\
    e = sqrt (sum_entries (map (fun x => x * x) (Metrics.zip_sub score [4; 5]))
              / INR (length [4; 5])) /\
    length score = length [0; 1]%nat /\
    forall t u v hu hv,
      nth_error [0; 1]%nat t = Some u -> nth_error [3; 4]%nat t = Some v ->
      nth_error h u = Some hu -> nth_error h v = Some hv ->
      nth_error score t
      = Some (dot hu hv + nth (u + 1) (DotDecoder.biases Example.decoder) 0
                        + nth (v + 1) (DotDecoder.biases Example.decoder) 0).
Proof.
  apply (test_scores_test_edges Example.encoder Example.ndata
           ExampleModel.seeds_only 2 Example.decoder);
    [intros; reflexivity | intros; reflexivity | intros; vm_compute; lia
    | intros; vm_compute; lia | intros; vm_compute; lia | lia | lia
    | constructor; [lia | constructor; [lia | constructor]]
    | constructor; [lia | constructor; [lia | constructor]]
    | reflexivity | reflexivity | simpl; lia | vm_compute; lia].
Defined.

(** X15.  For as many scores as ratings (at least one) the test error is
    defined and never negative, and it is zero exactly when every score
    equals its rating. *)
Theorem rmse_zero_iff_exact (score rating_test : list R) :
  length score = length rating_test ->
  (0 < length rating_test)%nat ->
  exists e,
    Metrics.rmse score rating_test = Some e /\
    0 <= e /\
    (e = 0 <-> score = rating_test).
Proof.
  intros HL Hpos. eexists. split; [now apply rmse_equal_lengths|].
  pose proof (sum_squares_nonneg (Metrics.zip_sub score rating_test)) as Hn.
  assert (Hlen : 0 < INR (length rating_test)) by (now apply lt_0_INR).
  assert (Hinv : 0 < / INR (length rating_test)) by (now apply Rinv_0_lt_compat).
  assert (Hq : 0 <= sum_entries (map (fun x => x * x)
                                   (Metrics.zip_sub score rating_test))
                    / INR (length rating_test))
    by (unfold Rdiv; apply Rmult_le_pos; lra).
  split; [apply sqrt_pos|].
  rewrite <- (sum_squares_zero _ _ HL). split.
  - intros H. apply sqrt_eq_0 in H; [|assumption].
    unfold Rdiv in H. apply Rmult_integral in H. destruct H; lra.
  - intros H. rewrite H. unfold Rdiv. rewrite Rmult_0_l. apply sqrt_0.
Qed.

(** X15 on two scores. *)
Lemma rmse_zero_iff_exact_witness :
  exists e,
    Metrics.rmse [4; 5] [4; 3] = Some e /\
    0 <= e /\
    (e = 0 <-> [4; 5] = [4; 3]).
Proof.
  apply (rmse_zero_iff_exact [4; 5] [4; 3]); [reflexivity | simpl; lia].
Defined.

End TestProperties.
